(** * eachtools: distributed ("each") containers

    A shallow embedding of [eachtools.py] and the properties of its
    broadcast-alignment engine and of its compound indexing engine.

    Python objects are modelled by value: a member of a container is a tree
    of builtin values and of each-containers.  Only the container an
    in-place operation or an item assignment acts on, and its underlying
    collection, live in an explicit store, so that object identity and
    mutation in place can be stated.  Sets (and hence [EachSet]), raw
    generators passed as operands, and instances of user classes are outside
    the modelled universe.  Recursion through nested containers is bounded
    by a fuel argument, standing for the interpreter's recursion limit. *)

From stdpp Require Import base option list strings gmap sorting.
From Stdlib Require Import ZArith.

Set Warnings "-register-all".
Local Open Scope Z_scope.

(** ** Values *)

(** The [nested] setting stored in [_each_nested]: the sentinel [next], a
    number of levels, or [float('inf')]. *)
Inductive nesting :=
| NNext
| NNum (k : Z)
| NInf.

(** [EachContainer] (positional) and [EachMapping] (keyed). *)
Inductive variant := KSeq | KMap.

Inductive value :=
| VNone
| VInt (z : Z)
| VBool (b : bool)
| VStr (s : string)
| VSlice (start stop step : value)
| VTuple (xs : list value)
| VList (xs : list value)
| VView (xs : list value)              (* a dict view such as [d.values()]:
                                          sized and iterable, no [__getitem__] *)
| VDict (kvs : list (value * value))   (* insertion-ordered *)
| VEach (k : variant) (whole : value) (nested : nesting).

Inductive exn :=
| ValueError
| TypeError
| KeyError
| IndexError
| AttributeError
| StopIteration
| RuntimeError
| NotImplementedError
| RecursionError     (* the fuel ran out *)
| NotModelled.       (* a path of the source that is outside the model *)

(** ** Results and lazy iterators *)

Inductive result (A : Type) :=
| Ok (a : A)
| Err (e : exn).
Arguments Ok {A} a.
Arguments Err {A} e.

Definition bind {A B} (m : result A) (f : A → result B) : result B :=
  match m with
  | Ok a => f a
  | Err e => Err e
  end.

Global Instance result_fmap : FMap result := fun A B f m =>
  match m with Ok a => Ok (f a) | Err e => Err e end.

Notation "x <- m ;; k" := (bind m (fun x => k))
  (at level 100, m at next level, right associativity, only parsing).

(** The behaviour of a (finite) Python iterator, unfolded: the successive
    values [next] returns, ending with [StopIteration] ([INil]) or with an
    exception raised by the underlying computation ([IRaise]). *)
Inductive iter (A : Type) :=
| INil
| IRaise (e : exn)
| ICons (a : A) (rest : iter A).
Arguments INil {A}.
Arguments IRaise {A} e.
Arguments ICons {A} a rest.

Fixpoint iter_of_list {A} (l : list A) : iter A :=
  match l with
  | [] => INil
  | a :: l' => ICons a (iter_of_list l')
  end.

(** [list(it)] *)
Fixpoint iter_to_list {A} (it : iter A) : result (list A) :=
  match it with
  | INil => Ok []
  | IRaise e => Err e
  | ICons a rest => l <- iter_to_list rest;; Ok (a :: l)
  end.

(** [next(it)] *)
Definition py_next {A} (it : iter A) : result A :=
  match it with
  | INil => Err StopIteration
  | IRaise e => Err e
  | ICons a _ => Ok a
  end.

(** A generator expression [(f x for x in it)]: the generator ends at the
    first exception [f] raises. *)
Fixpoint iter_map {A B} (f : A → result B) (it : iter A) : iter B :=
  match it with
  | INil => INil
  | IRaise e => IRaise e
  | ICons a rest =>
      match f a with
      | Ok b => ICons b (iter_map f rest)
      | Err e => IRaise e
      end
  end.

(** [(x for x in it if p x)] with a test that may raise. *)
Fixpoint iter_filter {A} (p : A → result bool) (it : iter A) : iter A :=
  match it with
  | INil => INil
  | IRaise e => IRaise e
  | ICons a rest =>
      match p a with
      | Ok true => ICons a (iter_filter p rest)
      | Ok false => iter_filter p rest
      | Err e => IRaise e
      end
  end.

Fixpoint iter_app {A} (it1 it2 : iter A) : iter A :=
  match it1 with
  | INil => it2
  | IRaise e => IRaise e
  | ICons a rest => ICons a (iter_app rest it2)
  end.

(** [for x in it: yield from g x] *)
Fixpoint iter_bind {A B} (g : A → iter B) (it : iter A) : iter B :=
  match it with
  | INil => INil
  | IRaise e => IRaise e
  | ICons a rest => iter_app (g a) (iter_bind g rest)
  end.

(** [enumerate(it)] *)
Fixpoint iter_enumerate {A} (i : nat) (it : iter A) : iter (nat * A) :=
  match it with
  | INil => INil
  | IRaise e => IRaise e
  | ICons a rest => ICons (i, a) (iter_enumerate (S i) rest)
  end.

(** [zip(it1, it2)]: [it1] is advanced first; when [it2] is exhausted the
    value just taken from [it1] is dropped. *)
Fixpoint iter_zip {A B} (it1 : iter A) (it2 : iter B) : iter (A * B) :=
  match it1 with
  | INil => INil
  | IRaise e => IRaise e
  | ICons a r1 =>
      match it2 with
      | INil => INil
      | IRaise e => IRaise e
      | ICons b r2 => ICons (a, b) (iter_zip r1 r2)
      end
  end.

(** The heads and the tails of the iterators an n-ary [zip] advances, in
    order. [None] when one of them is exhausted. *)
Fixpoint zip_heads {A} (its : list (iter A))
  : result (option (list A * list (iter A))) :=
  match its with
  | [] => Ok (Some ([], []))
  | INil :: _ => Ok None
  | IRaise e :: _ => Err e
  | ICons a r :: its' =>
      o <- zip_heads its';;
      Ok (match o with
          | Some (hs, ts) => Some (a :: hs, r :: ts)
          | None => None
          end)
  end.

Fixpoint zip_from {A} (it1 : iter A) (its : list (iter A)) : iter (list A) :=
  match it1 with
  | INil => INil
  | IRaise e => IRaise e
  | ICons a r =>
      match zip_heads its with
      | Err e => IRaise e
      | Ok None => INil
      | Ok (Some (hs, ts)) => ICons (a :: hs) (zip_from r ts)
      end
  end.

(** The n-ary [zip] of the iterators [its]. *)
Definition zip_all {A} (its : list (iter A)) : iter (list A) :=
  match its with
  | [] => INil
  | it1 :: its' => zip_from it1 its'
  end.

(** [mapM] over a list, left to right. *)
Fixpoint map_result {A B} (f : A → result B) (l : list A) : result (list B) :=
  match l with
  | [] => Ok []
  | a :: l' => b <- f a;; bs <- map_result f l';; Ok (b :: bs)
  end.

(** ** Builtin types: classification *)

Definition is_str (v : value) : bool :=
  match v with VStr _ => true | _ => false end.

Definition is_each (v : value) : bool :=
  match v with VEach _ _ _ => true | _ => false end.

(** [isinstance(v, Iterable)] *)
Definition is_iterable (v : value) : bool :=
  match v with
  | VStr _ | VTuple _ | VList _ | VView _ | VDict _ | VEach _ _ _ => true
  | _ => false
  end.

(** [isinstance(v, Sized)] *)
Definition is_sized (v : value) : bool := is_iterable v.

(** [isinstance(v, Mapping)]: a dict, or an [EachMapping], which derives
    from [MutableMapping]. *)
Definition is_mapping (v : value) : bool :=
  match v with
  | VDict _ | VEach KMap _ _ => true
  | _ => false
  end.

Definition is_slice (v : value) : bool :=
  match v with VSlice _ _ _ => true | _ => false end.

(** [x is True], [x is False] *)
Definition is_True (v : value) : bool :=
  match v with VBool true => true | _ => false end.
Definition is_False (v : value) : bool :=
  match v with VBool false => true | _ => false end.
Definition is_bool_literal (v : value) : bool := is_True v || is_False v.

(** [hasattr(type(v), '__getitem__')], [hasattr(type(v), '__setitem__')] *)
Definition has_getitem (v : value) : bool :=
  match v with
  | VStr _ | VTuple _ | VList _ | VDict _ | VEach _ _ _ => true
  | _ => false
  end.
Definition has_setitem (v : value) : bool :=
  match v with
  | VList _ | VDict _ | VEach _ _ _ => true
  | _ => false
  end.

(** An integer in an index position ([bool] is a subclass of [int]). *)
Definition as_index (v : value) : option Z :=
  match v with
  | VInt z => Some z
  | VBool b => Some (if b then 1 else 0)
  | _ => None
  end.

(** [len(v)]; an each-container has the length of its [whole]. *)
Fixpoint py_len (v : value) : result nat :=
  match v with
  | VStr s => Ok (String.length s)
  | VTuple xs | VList xs | VView xs => Ok (length xs)
  | VDict kvs => Ok (length kvs)
  | VEach _ whole _ => py_len whole
  | _ => Err TypeError
  end.

(** ** Builtin types: operations *)

(** Python's [==] on the values that are hashed by value: numbers (with
    [True == 1]), strings, [None], and tuples of these. *)
Fixpoint key_eqb (a b : value) : bool :=
  match a, b with
  | VNone, VNone => true
  | VStr s, VStr t => bool_decide (s = t)
  | VTuple xs, VTuple ys =>
      (fix go (xs ys : list value) : bool :=
         match xs, ys with
         | [], [] => true
         | x :: xs', y :: ys' => key_eqb x y && go xs' ys'
         | _, _ => false
         end) xs ys
  | _, _ =>
      match as_index a, as_index b with
      | Some x, Some y => Z.eqb x y
      | _, _ => false
      end
  end.

(** How a value is hashed: by value, by identity (it then equals no key of a
    dict that is given by value), or not at all. Slices count as unhashable,
    as before Python 3.12. *)
Inductive hashing := HashValue | HashIdentity | Unhashable.

Fixpoint py_hashing (v : value) : hashing :=
  match v with
  | VNone | VInt _ | VBool _ | VStr _ => HashValue
  | VTuple xs =>
      (fix go (xs : list value) : hashing :=
         match xs with
         | [] => HashValue
         | x :: xs' =>
             match py_hashing x with
             | Unhashable => Unhashable
             | HashIdentity =>
                 match go xs' with Unhashable => Unhashable | _ => HashIdentity end
             | HashValue => go xs'
             end
         end) xs
  | VView _ | VEach KSeq _ _ => HashIdentity
  | VSlice _ _ _ | VList _ | VDict _ | VEach KMap _ _ => Unhashable
  end.

Fixpoint assoc_find (kvs : list (value * value)) (key : value) : option value :=
  match kvs with
  | [] => None
  | (k, v) :: kvs' => if key_eqb k key then Some v else assoc_find kvs' key
  end.

(** [d[key]] *)
Definition dict_get (kvs : list (value * value)) (key : value) : result value :=
  match py_hashing key with
  | Unhashable => Err TypeError
  | HashIdentity => Err KeyError
  | HashValue =>
      match assoc_find kvs key with
      | Some v => Ok v
      | None => Err KeyError
      end
  end.

Fixpoint assoc_set (kvs : list (value * value)) (key v : value)
  : list (value * value) :=
  match kvs with
  | [] => [(key, v)]
  | (k, v0) :: kvs' =>
      if key_eqb k key then (k, v) :: kvs' else (k, v0) :: assoc_set kvs' key v
  end.

(** [d[key] = v]: an existing key keeps its place. *)
Definition dict_set (kvs : list (value * value)) (key v : value)
  : result (list (value * value)) :=
  match py_hashing key with
  | Unhashable => Err TypeError
  | HashIdentity => Ok (kvs ++ [(key, v)])
  | HashValue => Ok (assoc_set kvs key v)
  end.

(** [{k: v for k, v in pairs}] *)
Fixpoint dict_of_pairs (acc : list (value * value)) (pairs : list (value * value))
  : result (list (value * value)) :=
  match pairs with
  | [] => Ok acc
  | (k, v) :: pairs' => acc' <- dict_set acc k v;; dict_of_pairs acc' pairs'
  end.

(** The position a sequence of length [n] reads or writes for index [z]. *)
Definition seq_position (n : nat) (z : Z) : option nat :=
  let z' := if z <? 0 then z + Z.of_nat n else z in
  if (0 <=? z') && (z' <? Z.of_nat n) then Some (Z.to_nat z') else None.

(** [xs[key]] for an integer key. *)
Definition seq_index {A} (xs : list A) (key : value) : result A :=
  match as_index key with
  | None => Err TypeError
  | Some z =>
      match seq_position (length xs) z with
      | Some i => match xs !! i with Some x => Ok x | None => Err IndexError end
      | None => Err IndexError
      end
  end.

(** A field of a slice used natively: [None] or an integer. *)
Definition slice_field (v : value) : result (option Z) :=
  match v with
  | VNone => Ok None
  | _ => match as_index v with Some z => Ok (Some z) | None => Err TypeError end
  end.

Definition slice_bound (n step : Z) (default : Z) (o : option Z) : Z :=
  match o with
  | None => default
  | Some z =>
      if z <? 0 then
        (if z + n <? 0 then (if step <? 0 then -1 else 0) else z + n)
      else if n <=? z then (if step <? 0 then n - 1 else n)
      else z
  end.

(** The positions [xs[start:stop:step]] selects ([slice.indices]): the step
    is converted and checked first, then the start, then the stop. *)
Definition slice_positions (n : nat) (start stop step : value)
  : result (list nat) :=
  ostep <- slice_field step;;
  let st := default 1 ostep in
  if st =? 0 then Err ValueError else
  ostart <- slice_field start;;
  ostop <- slice_field stop;;
  let len := Z.of_nat n in
  let lo := slice_bound len st (if st <? 0 then len - 1 else 0) ostart in
  let hi := slice_bound len st (if st <? 0 then -1 else len) ostop in
  let count :=
    if st <? 0 then (if hi <? lo then (lo - hi - 1) / (- st) + 1 else 0)
    else (if lo <? hi then (hi - lo - 1) / st + 1 else 0) in
  Ok ((λ k : nat, Z.to_nat (lo + Z.of_nat k * st)) <$> seq 0 (Z.to_nat count)).

Definition native_slice {A} (xs : list A) (start stop step : value)
  : result (list A) :=
  ps <- slice_positions (length xs) start stop step;;
  Ok (omap (M := list) (λ i, xs !! i) ps).

Definition chars (s : string) : list value :=
  (λ a, VStr (String a EmptyString)) <$> String.list_ascii_of_string s.

(** [obj[key]] for an object of a builtin type. *)
Definition builtin_getitem (obj key : value) : result value :=
  match obj with
  | VList xs =>
      match key with
      | VSlice a b c => VList <$> native_slice xs a b c
      | _ => seq_index xs key
      end
  | VTuple xs =>
      match key with
      | VSlice a b c => VTuple <$> native_slice xs a b c
      | _ => seq_index xs key
      end
  | VStr s =>
      match key with
      | VSlice a b c =>
          (λ l, VStr (String.string_of_list_ascii l))
            <$> native_slice (String.list_ascii_of_string s) a b c
      | _ => seq_index (chars s) key
      end
  | VDict kvs => dict_get kvs key
  | _ => Err TypeError
  end.

(** [itertools.islice(it, start, stop, step)]: the arguments are checked when
    the slice is built; the elements before [start] are consumed. *)
Fixpoint islice_from {A} (it : iter A) (cnt next : nat) (stop : option nat)
    (step : nat) : iter A :=
  if (cnt <? next)%nat then
    match it with
    | INil => INil
    | IRaise e => IRaise e
    | ICons _ rest => islice_from rest (S cnt) next stop step
    end
  else if from_option (λ s, s <=? cnt)%nat false stop then INil
  else
    match it with
    | INil => INil
    | IRaise e => IRaise e
    | ICons a rest =>
        let next' := (next + step)%nat in
        ICons a (islice_from rest (S cnt)
                   (from_option (λ s, next' `min` s)%nat next' stop) stop step)
    end.

(** [sys.maxsize], on a 64-bit build. *)
Definition sys_maxsize : Z := 2 ^ 63 - 1.

(** An argument of [islice]: [None], or an integer from [lowest] to
    [sys.maxsize]; anything else is a [ValueError]. *)
Definition islice_arg (lowest : Z) (v : value) : result (option nat) :=
  match v with
  | VNone => Ok None
  | _ =>
      match as_index v with
      | Some z =>
          if (z <? lowest) || (sys_maxsize <? z) then Err ValueError
          else Ok (Some (Z.to_nat z))
      | None => Err ValueError
      end
  end.

Definition islice {A} (it : iter A) (start stop step : value) : result (iter A) :=
  ostart <- islice_arg 0 start;;
  ostop <- islice_arg 0 stop;;
  ostep <- islice_arg 1 step;;
  Ok (islice_from it 0 (default 0%nat ostart) ostop (default 1%nat ostep)).

(** [v < 0] and [v + n] for a slice bound [v]. *)
Definition lt_zero (v : value) : result bool :=
  match as_index v with
  | Some z => Ok (z <? 0)
  | None => Err TypeError
  end.

Definition add_int (v : value) (n : Z) : result value :=
  match as_index v with
  | Some z => Ok (VInt (z + n))
  | None => Err TypeError
  end.

(** [a <= b], [a < b] between a slice bound and a key of a mapping: defined
    between numbers and between strings. *)
Definition key_le (a b : value) : result bool :=
  match as_index a, as_index b with
  | Some x, Some y => Ok (x <=? y)
  | _, _ =>
      match a, b with
      | VStr s, VStr t => Ok (bool_decide (String.leb s t = true))
      | _, _ => Err TypeError
      end
  end.

Definition key_lt (a b : value) : result bool :=
  match as_index a, as_index b with
  | Some x, Some y => Ok (x <? y)
  | _, _ =>
      match a, b with
      | VStr s, VStr t => Ok (bool_decide (String.ltb s t = true))
      | _, _ => Err TypeError
      end
  end.

(** ** The [each] factory and the constructors *)

(** [self._each_nested is next or self._each_nested > 1] *)
Definition nested_deeper (n : nesting) : bool :=
  match n with
  | NNext => true
  | NNum k => 1 <? k
  | NInf => true
  end.

(** [next if self._each_nested is next else self._each_nested - 1] *)
Definition new_nested (n : nesting) : nesting :=
  match n with
  | NNext => NNext
  | NNum k => NNum (k - 1)
  | NInf => NInf
  end.

(** [max(a, b)]; comparing a number with the builtin [next] is a type error. *)
Definition nesting_max (a b : nesting) : result nesting :=
  match a, b with
  | NNext, _ | _, NNext => Err TypeError
  | NInf, _ => Ok NInf
  | NNum _, NInf => Ok NInf
  | NNum x, NNum y => Ok (if x <? y then NNum y else NNum x)
  end.

(** The [nested] argument of [each] as the caller writes it. *)
Inductive nested_arg :=
| ArgTrue
| ArgAll
| ArgNone
| ArgFalse
| Arg (n : nesting).

Definition normalise_nested (a : nested_arg) : nesting :=
  match a with
  | ArgTrue | ArgAll => NInf
  | ArgNone | ArgFalse => NNum 1
  | Arg n => n
  end.

Definition next_to_one (n : nesting) : nesting :=
  match n with NNext => NNum 1 | _ => n end.

(** [EachContainer.__init__] and [EachMapping.__init__], which defers to it:
    a [whole] that is not sized is spooled with [list(whole)], which fails on
    the values of this model that are not sized. *)
Definition EachContainer_init (k : variant) (whole : value) (nested : nesting)
  : result value :=
  if is_sized whole then Ok (VEach k whole nested) else Err TypeError.

(** The constructor applied to a generator. *)
Definition EachContainer_of_iter (k : variant) (it : iter value)
    (nested : nesting) : result value :=
  l <- iter_to_list it;; Ok (VEach k (VList l) nested).

Definition each (members : list value) (nested : nested_arg) (enlist : bool)
  : result value :=
  let nested := normalise_nested nested in
  let enlisted := EachContainer_init KSeq (VList members) (next_to_one nested) in
  match members with
  | [source] =>
      if is_str source then enlisted
      else if is_iterable source then
        ns <-
          match source with
          | VEach _ whole n0 =>
              nested' <- match nested with
                        | NNext => Ok NNext
                        | _ => nesting_max nested n0
                        end;;
              Ok (nested', whole)
          | _ => Ok (next_to_one nested, source)
          end;;
        let '(nested, source) := ns in
        if is_mapping source then EachContainer_init KMap source nested
        else if negb (is_sized source) then
          (if enlist then Err TypeError else Err NotImplementedError)
        else EachContainer_init KSeq source nested
      else if enlist then enlisted
      else Ok source
  | _ => enlisted
  end.

(** ** Iterating values and containers *)

(** [v.keys()]: the keys of a dict; [EachMapping.keys] returns
    [self.whole.keys()]; on an [EachContainer], [keys] is a property holding
    a range, which cannot be called. *)
Fixpoint py_keys_method (v : value) : result (list value) :=
  match v with
  | VDict kvs => Ok kvs.*1
  | VEach KMap whole _ => py_keys_method whole
  | VEach KSeq _ _ => Err TypeError
  | _ => Err AttributeError
  end.

(** The pairs [for key, value in v.items()] runs through.
    [EachMapping.items] wraps [self.whole.items()] in a flat container, which
    iterates as the view does.  On an [EachContainer] the name [items]
    reaches [__getattr__], the distribution of attributes over members, which
    the model leaves out. *)
Fixpoint py_items_method (v : value) : result (list (value * value)) :=
  match v with
  | VDict kvs => Ok kvs
  | VEach KMap whole _ => py_items_method whole
  | VEach KSeq _ _ => Err NotModelled
  | _ => Err AttributeError
  end.

Definition lazily {A} (r : result (iter A)) : iter A :=
  match r with Ok it => it | Err e => IRaise e end.

(** [self.values()], given how members' wholes iterate: the members,
    re-wrapped with [each] when the nesting asks for it; for an
    [EachMapping], [self.whole.values()]. *)
Fixpoint values_with (iterate : value → iter value) (self : value)
  : result (iter value) :=
  match self with
  | VEach KSeq whole nested =>
      if negb (is_iterable whole) then Err TypeError
      else if nested_deeper nested then
        Ok (iter_map (λ i, each [i] (Arg (new_nested nested)) false)
                     (iterate whole))
      else Ok (iterate whole)
  | VEach KMap whole _ =>
      match whole with
      | VDict kvs => Ok (iter_of_list kvs.*2)
      | VEach _ _ _ => values_with iterate whole
      | _ => Err AttributeError
      end
  | _ => Err AttributeError
  end.

(** Iterating an object of a builtin type. *)
Definition builtin_iter (v : value) : iter value :=
  match v with
  | VStr s => iter_of_list (chars s)
  | VTuple xs | VList xs | VView xs => iter_of_list xs
  | VDict kvs => iter_of_list kvs.*1
  | _ => IRaise TypeError
  end.

Definition py_iter_with (rec : value → iter value) (v : value) : iter value :=
  match v with
  | VEach _ _ _ => rec v
  | _ => builtin_iter v
  end.

(** [EachContainer.__iter__] goes through [self.values()] and flattens the
    members that are each-containers. *)
Fixpoint EachContainer_iter (fuel : nat) (self : value) : iter value :=
  match fuel with
  | O => IRaise RecursionError
  | S f =>
      iter_bind
        (λ i, if is_each i then EachContainer_iter f i else ICons i INil)
        (lazily (values_with (py_iter_with (EachContainer_iter f)) self))
  end.

(** What iterating [v] yields. *)
Definition py_iter (fuel : nat) (v : value) : iter value :=
  py_iter_with (EachContainer_iter fuel) v.

Definition EachContainer_values (fuel : nat) (self : value)
  : result (iter value) :=
  values_with (py_iter fuel) self.

(** [v.values()] *)
Definition py_values_method (fuel : nat) (v : value) : result (iter value) :=
  match v with
  | VDict kvs => Ok (iter_of_list kvs.*2)
  | VEach _ _ _ => EachContainer_values fuel v
  | _ => Err AttributeError
  end.

(** [tuple(v)] *)
Definition py_tuple (fuel : nat) (v : value) : result value :=
  if is_iterable v then VTuple <$> iter_to_list (py_iter fuel v)
  else Err TypeError.

(** [all(p x for x in it)] stops at the first element that fails. *)
Fixpoint iter_all {A} (p : A → bool) (it : iter A) : result bool :=
  match it with
  | INil => Ok true
  | IRaise e => Err e
  | ICons a rest => if p a then iter_all p rest else Ok false
  end.

(** ** The compound indexing engine: reads *)

(** What [__getitem__] hands back: the container itself ([return self]), or
    a value (a member, or a container built for the occasion). *)
Inductive returned :=
| ReturnSelf
| Return (v : value).

Definition returned_value (self : value) (r : returned) : value :=
  match r with
  | ReturnSelf => self
  | Return v => v
  end.

(** The [domain] of the members selected: a sized object, or a generator. *)
Inductive domain :=
| DomValue (v : value)
| DomGen (it : iter value).

Definition is_full_slice (v : value) : bool :=
  match v with
  | VSlice VNone VNone VNone => true
  | _ => false
  end.

(** [(start is None or start <= key) and (stop is None or key < stop)] *)
Definition key_in_bounds (start stop key : value) : result bool :=
  above <- match start with VNone => Ok true | _ => key_le start key end;;
  if above : bool
  then match stop with VNone => Ok true | _ => key_lt key stop end
  else Ok false.

(** [{k: v for k, v in pairs if p k}] *)
Fixpoint filter_pairs (p : value → result bool) (pairs : list (value * value))
  : result (list (value * value)) :=
  match pairs with
  | [] => Ok []
  | (k, v) :: pairs' =>
      b <- p k;;
      rest <- filter_pairs p pairs';;
      Ok (if b then (k, v) :: rest else rest)
  end.

(** [{k: f v for k, v in pairs}], the dict being built as it goes. *)
Fixpoint dict_comprehension (f : value → value → result value)
    (acc : list (value * value)) (pairs : iter (value * value))
  : result (list (value * value)) :=
  match pairs with
  | INil => Ok acc
  | IRaise e => Err e
  | ICons (k, x) rest =>
      v <- f k x;;
      acc' <- dict_set acc k v;;
      dict_comprehension f acc' rest
  end.

Section getitem.
(** [fuel] bounds the iteration of containers; [getitem] is [obj[key]] on
    an arbitrary object, each-containers included. *)
Variable fuel : nat.
Variable getitem : value → value → result value.

(** The approximation of a slice the [whole] cannot take itself. *)
Definition approximate_slice (k : variant) (whole start stop step : value)
  : result (domain * variant) :=
  match k with
  | KMap =>
      items <- py_items_method whole;;
      d <- filter_pairs (key_in_bounds start stop) items;;
      Ok (DomValue (VDict d), KMap)
  | KSeq =>
      neg <- lt_zero start;;
      start <- (if neg : bool then n <- py_len whole;; add_int start (Z.of_nat n)
               else Ok start);;
      neg <- lt_zero stop;;
      start <- (if neg : bool then n <- py_len whole;; add_int start (Z.of_nat n)
               else Ok start);;
      it <- islice (py_iter fuel whole) start stop step;;
      Ok (DomGen it, KSeq)
  end.

(** The domain a plural selector picks, with the type of the output. *)
Definition plural_domain (k : variant) (whole domain_index : value)
  : result (domain * variant) :=
  match domain_index with
  | VSlice start stop step =>
      match getitem whole domain_index with
      | Ok d => Ok (DomValue d, KSeq)
      | Err _ => approximate_slice k whole start stop step
      end
  | _ =>
      if is_mapping domain_index then
        vals <- py_values_method fuel domain_index;;
        mask <- iter_all is_bool_literal vals;;
        if mask : bool then
          match k with
          | KMap =>
              items <- py_items_method whole;;
              d <- filter_pairs (λ key, is_True <$> getitem domain_index key) items;;
              Ok (DomValue (VDict d), KMap)
          | KSeq =>
              Ok (DomGen (iter_map (λ iv, Ok iv.2)
                   (iter_filter
                      (λ iv, is_True <$> getitem domain_index
                                           (VInt (Z.of_nat iv.1)))
                      (iter_enumerate 0 (py_iter fuel whole)))), KSeq)
          end
        else
          whole <- (if has_getitem whole then Ok whole else py_tuple fuel whole);;
          items <- py_items_method domain_index;;
          d <- dict_comprehension (λ _ old_index, getitem whole old_index) []
                (iter_of_list items);;
          Ok (DomValue (VDict d), KSeq)
      else
        domain_index <- match py_len domain_index with
                        | Ok _ => Ok domain_index
                        | Err TypeError => py_tuple fuel domain_index
                        | Err e => Err e
                        end;;
        len_index <- py_len domain_index;;
        len_whole <- py_len whole;;
        mask <- (if bool_decide (len_index = len_whole)
                then iter_all is_bool_literal (py_iter fuel domain_index)
                else Ok false);;
        if mask : bool then
          if is_mapping whole then
            d <- dict_comprehension (λ index _, getitem whole index) []
                  (iter_map (λ ib, Ok (VInt (Z.of_nat ib.1), ib.2))
                     (iter_filter (λ ib, Ok (is_True ib.2))
                        (iter_enumerate 0 (py_iter fuel domain_index))));;
            Ok (DomValue (VDict d), KMap)
          else
            Ok (DomGen (iter_map (λ vb, Ok vb.1)
                 (iter_filter (λ vb, Ok (is_True vb.2))
                    (iter_zip (py_iter fuel whole)
                              (py_iter fuel domain_index)))), KSeq)
        else
          Ok (DomGen (iter_map (λ x, getitem whole x)
                        (py_iter fuel domain_index)), KSeq)
  end.

(** [output_type(domain, nested=nested)] *)
Definition wrap_domain (output_type : variant) (d : domain) (nested : nesting)
  : result value :=
  match d with
  | DomValue v => EachContainer_init output_type v nested
  | DomGen it => EachContainer_of_iter output_type it nested
  end.

(** The range indices applied inside each member of the domain. *)
Definition index_members (output_type : variant) (d : domain)
    (range_indices : value) : result value :=
  match d with
  | DomValue v =>
      if is_mapping v then
        items <- py_items_method v;;
        kvs <- dict_comprehension (λ _ member, getitem member range_indices) []
                (iter_of_list items);;
        EachContainer_init KMap (VDict kvs) (NNum 1)
      else if is_iterable v then
        EachContainer_of_iter output_type
          (iter_map (λ member, getitem member range_indices) (py_iter fuel v))
          (NNum 1)
      else Err TypeError
  | DomGen it =>
      EachContainer_of_iter output_type
        (iter_map (λ member, getitem member range_indices) it) (NNum 1)
  end.

(** [EachContainer.__getitem__] *)
Definition getitem_body (self item : value) : result returned :=
  match self with
  | VEach k whole nested =>
      let '(domain_index, range_indices) :=
        match item with
        | VTuple (d :: r) => (d, r)
        | _ => (item, [])
        end in
      let range_index :=
        match range_indices with
        | [r] => r
        | _ => VTuple range_indices
        end in
      if is_full_slice domain_index then
        match range_indices with
        | [] => Ok ReturnSelf
        | _ => Return <$> index_members KSeq (DomValue whole) range_index
        end
      else if is_slice domain_index || is_mapping domain_index
              || (is_iterable domain_index && negb (is_str domain_index)) then
        dt <- plural_domain k whole domain_index;;
        let '(d, output_type) := dt in
        match range_indices with
        | [] => Return <$> wrap_domain output_type d nested
        | _ => Return <$> index_members output_type d range_index
        end
      else
        member <- getitem whole domain_index;;
        match range_indices with
        | [] => Ok (Return member)
        | _ => Return <$> getitem member range_index
        end
  | _ => Err TypeError
  end.
End getitem.

Definition py_getitem_with (rec : value → value → result value)
    (obj key : value) : result value :=
  match obj with
  | VEach _ _ _ => rec obj key
  | _ => builtin_getitem obj key
  end.

(** [self[item]] for an each-container [self], nested containers being
    indexed with one unit of fuel less. *)
Fixpoint EachContainer_getitem_ret (fuel : nat) (self item : value)
  : result returned :=
  match fuel with
  | O => Err RecursionError
  | S f =>
      getitem_body f
        (py_getitem_with
           (λ obj key, returned_value obj <$> EachContainer_getitem_ret f obj key))
        self item
  end.

Definition EachContainer_getitem (fuel : nat) (self item : value)
  : result value :=
  returned_value self <$> EachContainer_getitem_ret fuel self item.

(** [obj[key]] *)
Definition py_getitem (fuel : nat) (obj key : value) : result value :=
  py_getitem_with (EachContainer_getitem fuel) obj key.

(** ** The broadcast-alignment engine *)

(** [as_sized_iterable]: strings and scalars are wrapped in a tuple. *)
Definition as_sized_iterable (fuel : nat) (source : value) : result value :=
  if is_str source then Ok (VTuple [source])
  else
    match py_len source with
    | Ok _ => Ok source
    | Err _ =>
        if is_iterable source then py_tuple fuel source
        else Ok (VTuple [source])
    end.

(** [B.indices]: [range(n)], or the keys of the model. *)
Inductive index_domain :=
| IRange (n : nat)
| IKeys (ks : list value).

Definition index_list (d : index_domain) : list value :=
  match d with
  | IRange n => (λ i : nat, VInt (Z.of_nat i)) <$> seq 0 n
  | IKeys ks => ks
  end.

Record BroadcastHandler := {
  B_sources : list value;
  B_E : value;
  B_model : value;
  B_n : nat;
  B_indices : index_domain;
}.

(** [len(s) != 1 or isinstance(s, Mapping)] *)
Definition not_broadcastable (s : value) : result bool :=
  n <- py_len s;; Ok (negb (n =? 1)%nat || is_mapping s).

(** [next((s for s in sources if len(s) != 1 or isinstance(s, Mapping)),
    default)] *)
Fixpoint first_not_broadcastable (sources : list value) (default : value)
  : result value :=
  match sources with
  | [] => Ok default
  | s :: sources' =>
      b <- not_broadcastable s;;
      if b : bool then Ok s else first_not_broadcastable sources' default
  end.

(** [all(len(s) == 1 or isinstance(s, Mapping) for s in sources)] *)
Fixpoint all_broadcast_or_mapping (sources : list value) : result bool :=
  match sources with
  | [] => Ok true
  | s :: sources' =>
      n <- py_len s;;
      if (n =? 1)%nat || is_mapping s then all_broadcast_or_mapping sources'
      else Ok false
  end.

(** [BroadcastHandler.__init__] *)
Definition BroadcastHandler_init (fuel : nat) (sources : list value)
    (match_first : bool) : result BroadcastHandler :=
  sources <- map_result (as_sized_iterable fuel) sources;;
  match sources with
  | [] => Err IndexError
  | first :: _ =>
      model <- (if match_first then Ok first
                else first_not_broadcastable sources first);;
      n <- py_len model;;
      keyed <- (if is_mapping model then all_broadcast_or_mapping sources
                else Ok false);;
      indices <- (if keyed : bool then IKeys <$> py_keys_method model
                  else Ok (IRange n));;
      Ok {| B_sources := sources; B_E := first; B_model := model;
            B_n := n; B_indices := indices |}
  end.

(** [broadcast_to_indices].  The lookups by key are generators, whose errors
    surface during the iteration; the length check and the broadcast of a
    single member happen at the call. *)
Definition broadcast_to_indices (fuel : nat) (source : value) (n : nat)
    (indices : index_domain) : result (iter value) :=
  let lookups :=
    iter_map (λ i, py_getitem fuel source i) (iter_of_list (index_list indices)) in
  if is_mapping source then Ok lookups
  else
    length <- py_len source;;
    if (length =? 1)%nat then
      first <- (if is_iterable source then py_next (py_iter fuel source)
                else Err TypeError);;
      Ok (iter_of_list (replicate n first))
    else
      match indices with
      | IKeys _ => Ok lookups
      | IRange _ =>
          if (length <? n)%nat then Err ValueError
          else if is_each source then EachContainer_values fuel source
          else if is_iterable source then Ok (py_iter fuel source)
          else Err TypeError
      end.

(** An exception leaving the body of a generator: [StopIteration] is turned
    into [RuntimeError]. *)
Definition in_generator {A} (r : result A) : result A :=
  match r with
  | Err StopIteration => Err RuntimeError
  | _ => r
  end.

(** [BroadcastHandler.__iter__]: the sources are broadcast in order, then
    zipped. *)
Definition B_iter (fuel : nat) (B : BroadcastHandler)
  : result (iter (list value)) :=
  its <- map_result
           (λ s, in_generator (broadcast_to_indices fuel s (B_n B) (B_indices B)))
           (B_sources B);;
  Ok (zip_all its).

(** [BroadcastHandler.__call__]: the container of the results.
    [_each_output_type] is [EachContainer] for every class of the module. *)
Definition B_call (B : BroadcastHandler) (it : iter value) : result value :=
  match B_indices B with
  | IRange _ =>
      if is_each (B_E B) then
        l <- iter_to_list it;;
        EachContainer_init KSeq (VList l) (NNum 1)
      else Err AttributeError
  | IKeys ks =>
      d <- dict_comprehension (λ _ v, Ok v) [] (iter_zip (iter_of_list ks) it);;
      EachContainer_init KMap (VDict d) (NNum 1)
  end.

(** [broadcast_together]: the same alignment, as a function. *)
Definition broadcast_together (fuel : nat) (sources : list value)
    (match_first : bool) : result (iter (list value)) :=
  match sources with
  | [] => Ok INil
  | _ =>
      sources <- map_result (as_sized_iterable fuel) sources;;
      match sources with
      | [] => Err IndexError
      | first :: _ =>
          model <- (if match_first then Ok first
                    else first_not_broadcastable sources first);;
          n <- py_len model;;
          keyed <- (if is_mapping model then all_broadcast_or_mapping sources
                    else Ok false);;
          indices <- (if keyed : bool then IKeys <$> py_keys_method model
                      else Ok (IRange n));;
          its <- map_result
                   (λ s, in_generator (broadcast_to_indices fuel s n indices))
                   sources;;
          Ok (zip_all its)
      end
  end.

Definition with_matched_version_of (fuel : nat) (sources : list value)
  : result (iter (list value)) :=
  broadcast_together fuel sources true.

(** ** Distributed operators *)

(** The generator expressions of the operators unpack each aligned tuple. *)
Definition unpack1 {A} (f : value → result A) (row : list value) : result A :=
  match row with
  | [s] => f s
  | _ => Err ValueError
  end.

Definition unpack2 {A} (f : value → value → result A) (row : list value)
  : result A :=
  match row with
  | [s; o] => f s o
  | _ => Err ValueError
  end.

Section operators.
(** The operator on two values neither of which is an each-container, as
    Python defines it for their types. *)
Variable op : value → value → result value.

(** [a op b] between members: Python calls the operator method of [a] when
    [a] is an each-container, and otherwise the reflected method of [b]
    when [b] is one.  The second case takes the own method of [a] to decline
    an each-container operand (to return [NotImplemented]), as the methods of
    numbers and the concatenation and repetition of sequences do; [str % b],
    which formats any [b] by itself, is outside the model. *)
Definition member_binop (rec : bool → value → value → result value)
    (a b : value) : result value :=
  if is_each a then rec false a b
  else if is_each b then rec true b a
  else op a b.

(** [__add__] and its like ([reflected = false]): [B(s op o for s, o in B)];
    [__radd__] and its like ([reflected = true]): [B(o op s for s, o in B)]. *)
Fixpoint each_binop (fuel : nat) (reflected : bool) (self other : value)
  : result value :=
  match fuel with
  | O => Err RecursionError
  | S f =>
      B <- BroadcastHandler_init f [self; other] false;;
      rows <- B_iter f B;;
      B_call B
        (iter_map
           (unpack2 (λ s o, if reflected
                            then member_binop (each_binop f) o s
                            else member_binop (each_binop f) s o))
           rows)
  end.

Definition py_binop (fuel : nat) (a b : value) : result value :=
  member_binop (each_binop fuel) a b.
End operators.

Section unary_operators.
Variable op : value → result value.

(** [__neg__] and its like: [B(op s for (s,) in B)]. *)
Fixpoint each_unop (fuel : nat) (self : value) : result value :=
  match fuel with
  | O => Err RecursionError
  | S f =>
      B <- BroadcastHandler_init f [self] false;;
      rows <- B_iter f B;;
      B_call B
        (iter_map
           (unpack1 (λ s, if is_each s then each_unop f s else op s))
           rows)
  end.
End unary_operators.

(** ** Distributed membership *)

Section membership.
(** [x in c] for a container [c] that is not an each-container. *)
Variable py_in : value → value → result value.

(** [contains] ([dual = false]) and [is_in] ([dual = true]). *)
Fixpoint each_membership (fuel : nat) (dual : bool) (self : value)
    (args : list value) : result value :=
  match fuel with
  | O => Err RecursionError
  | S f =>
      let arg :=
        match args with
        | [x] => if is_iterable x && negb (is_str x) then x else VTuple args
        | _ => VTuple args
        end in
      B <- BroadcastHandler_init f [self; arg] false;;
      rows <- B_iter f B;;
      B_call B
        (iter_map
           (unpack2 (λ s x,
              if is_each s then each_membership f dual s [x]
              else if is_each x then each_membership f (negb dual) x [s]
              else if dual then py_in s x else py_in x s))
           rows)
  end.

Definition contains (fuel : nat) (self : value) (items : list value)
  : result value :=
  each_membership fuel false self items.

Definition is_in (fuel : nat) (self : value) (containers : list value)
  : result value :=
  each_membership fuel true self containers.
End membership.

(** ** Builtin operators used in the examples *)

(** Python's [+] on numbers, strings, tuples and lists. *)
Definition py_add (a b : value) : result value :=
  match a, b with
  | VStr s, VStr t => Ok (VStr (s +:+ t))
  | VTuple xs, VTuple ys => Ok (VTuple (xs ++ ys))
  | VList xs, VList ys => Ok (VList (xs ++ ys))
  | _, _ =>
      match a, b with
      | VInt _, _ | VBool _, _ =>
          match as_index a, as_index b with
          | Some x, Some y => Ok (VInt (x + y))
          | _, _ => Err TypeError
          end
      | _, _ => Err TypeError
      end
  end.

(** Python's [x in c] on strings, on sequences of values compared by value,
    and on dicts. *)
Definition py_contains (x c : value) : result value :=
  match c with
  | VStr s =>
      match x with
      | VStr t => Ok (VBool (bool_decide (is_Some (String.index 0 t s))))
      | _ => Err TypeError
      end
  | VList xs | VTuple xs | VView xs => Ok (VBool (existsb (λ y, key_eqb y x) xs))
  | VDict kvs =>
      match py_hashing x with
      | Unhashable => Err TypeError
      | HashIdentity => Ok (VBool false)
      | HashValue => Ok (VBool (bool_decide (is_Some (assoc_find kvs x))))
      end
  | _ => Err TypeError
  end.

(** ** Attribute assignment *)

(** [for x in it: f x] *)
Fixpoint iter_for {A} (f : A → result unit) (it : iter A) : result unit :=
  match it with
  | INil => Ok ()
  | IRaise e => Err e
  | ICons a rest => _ <- f a;; iter_for f rest
  end.

(** [EachContainer.__setattr__]: [self.attr = value] sets the attribute on
    each member.  A member that is an each-container distributes the
    assignment in turn; the instances of the builtin types of the model
    accept no attribute. *)
Fixpoint EachContainer_setattr (fuel : nat) (self : value) (attr : string)
    (v : value) : result unit :=
  match fuel with
  | O => Err RecursionError
  | S f =>
      rows <- with_matched_version_of f [self; v];;
      iter_for
        (unpack2 (λ m v, if is_each m then EachContainer_setattr f m attr v
                         else Err AttributeError))
        rows
  end.

(** ** The compound indexing engine: writes *)

(** The values [repeat_if_singular] yields: possibly without end. *)
Inductive supply :=
| SNil
| SRaise (e : exn)
| SCons (v : value) (rest : supply)
| SRepeat (v : value).

Fixpoint supply_of_iter (it : iter value) : supply :=
  match it with
  | INil => SNil
  | IRaise e => SRaise e
  | ICons v rest => SCons v (supply_of_iter rest)
  end.

Definition repeat_if_singular (fuel : nat) (source : value) : supply :=
  if negb (is_iterable source) || is_str source then SRepeat source
  else
    match py_iter fuel source with
    | INil => SNil
    | IRaise e => SRaise e
    | ICons first_value rest =>
        SCons first_value
          match rest with
          | INil => SRepeat first_value
          | IRaise e => SRaise e
          | ICons second_value rest' => SCons second_value (supply_of_iter rest')
          end
    end.

(** [zip(domain, repeat_if_singular(new_value))] *)
Fixpoint zip_supply (dom : iter value) (s : supply) : iter (value * value) :=
  match dom with
  | INil => INil
  | IRaise e => IRaise e
  | ICons d rest =>
      match s with
      | SNil => INil
      | SRaise e => IRaise e
      | SCons v s' => ICons (d, v) (zip_supply rest s')
      | SRepeat v => ICons (d, v) (zip_supply rest s)
      end
  end.

(** [coll[key] = v] on an object of a builtin type, as the collection it
    becomes.  The assignment to a slice of a list is left out. *)
Definition builtin_setitem (coll key v : value) : result value :=
  match coll with
  | VList xs =>
      match key with
      | VSlice _ _ _ => Err NotModelled
      | _ =>
          match as_index key with
          | None => Err TypeError
          | Some z =>
              match seq_position (length xs) z with
              | Some i => Ok (VList (<[i := v]> xs))
              | None => Err IndexError
              end
          end
      end
  | VDict kvs => VDict <$> dict_set kvs key v
  | _ => Err TypeError
  end.

(** A mutation of a collection: the collection afterwards, and the exception
    that interrupted it, if any. *)
Definition mutation : Type := value * result unit.

Definition py_setitem_with (rec : value → value → value → mutation)
    (coll key v : value) : mutation :=
  match coll with
  | VEach _ _ _ => rec coll key v
  | _ =>
      match builtin_setitem coll key v with
      | Ok coll' => (coll', Ok ())
      | Err e => (coll, Err e)
      end
  end.

Section setitem.
Variable fuel : nat.
Variable setitem : value → value → value → mutation.

(** [for index, value in pairs: whole[index] = value] *)
Fixpoint write_all (whole : value) (pairs : iter (value * value)) : mutation :=
  match pairs with
  | INil => (whole, Ok ())
  | IRaise e => (whole, Err e)
  | ICons (index, v) rest =>
      match setitem whole index v with
      | (whole', Ok _) => write_all whole' rest
      | (whole', Err e) => (whole', Err e)
      end
  end.

(** The keys or indices [E[item] = new_value] overwrites; [None] when the
    assignment is handed to the [whole] as it is. *)
Definition target_keys (k : variant) (whole item new_value : value)
  : result (option (iter value)) :=
  if is_mapping item then
    vals <- py_values_method fuel item;;
    mask <- iter_all is_bool_literal vals;;
    if mask : bool then
      items <- py_items_method item;;
      Ok (Some (iter_of_list (filter (λ kb, is_True kb.2) items).*1))
    else Some <$> py_values_method fuel item
  else if is_iterable item && negb (is_str item) then
    item <- match py_len item with
            | Ok _ => Ok item
            | Err TypeError => py_tuple fuel item
            | Err e => Err e
            end;;
    len_item <- py_len item;;
    len_whole <- py_len whole;;
    mask <- (if bool_decide (len_item = len_whole)
             then iter_all is_bool_literal (py_iter fuel item)
             else Ok false);;
    if mask : bool then
      Ok (Some (iter_map (λ ib, Ok (VInt (Z.of_nat ib.1)))
                  (iter_filter (λ ib, Ok (is_True ib.2))
                     (iter_enumerate 0 (py_iter fuel item)))))
    else Ok (Some (py_iter fuel item))
  else
    match item, k with
    | VSlice start stop step, KMap =>
        keys <- py_keys_method whole;;
        if is_full_slice item then Ok (Some (iter_of_list keys))
        else Err NotModelled   (* a set of keys, iterated in hash order *)
    | VSlice start stop step, KSeq =>
        if is_str new_value || negb (is_iterable new_value) then
          (* [range(item.indices(len(self.whole)))]: [range] of a tuple *)
          n <- py_len whole;;
          _ <- slice_positions n start stop step;;
          Err TypeError
        else Ok None
    | _, _ => Ok None
    end.

(** [EachContainer.__setitem__], without the [E[domain, range] = v] form,
    which mutates members. *)
Definition setitem_body (self item new_value : value) : mutation :=
  match self with
  | VEach k whole nested =>
      let done (m : mutation) : mutation := (VEach k m.1 nested, m.2) in
      match item with
      | VTuple _ => (self, Err NotModelled)
      | _ =>
          match target_keys k whole item new_value with
          | Err e => (self, Err e)
          | Ok None => done (setitem whole item new_value)
          | Ok (Some keys) =>
              done (write_all whole
                      (zip_supply keys (repeat_if_singular fuel new_value)))
          end
      end
  | _ => (self, Err TypeError)
  end.
End setitem.

Fixpoint EachContainer_setitem (fuel : nat) (self item new_value : value)
  : mutation :=
  match fuel with
  | O => (self, Err RecursionError)
  | S f =>
      setitem_body f (py_setitem_with (EachContainer_setitem f))
        self item new_value
  end.

(** [coll[key] = v] *)
Definition py_setitem (fuel : nat) (coll key v : value) : mutation :=
  py_setitem_with (EachContainer_setitem fuel) coll key v.

(** ** Containers in the store *)

(** The store holds the container an operation mutates, which refers to its
    underlying collection, and that collection. *)
Definition loc := nat.

Record each_obj := {
  obj_kind : variant;
  obj_whole : loc;          (* [__dict__['whole']] *)
  obj_nested : nesting;     (* [__dict__['_each_nested']] *)
}.

Inductive obj :=
| OColl (v : value)
| OEach (o : each_obj).

Abbreviation store := (gmap loc obj).

(** The container at [a], with the current content of its [whole]. *)
Definition container_at (h : store) (a : loc) : option (each_obj * value) :=
  match h !! a with
  | Some (OEach o) =>
      match h !! obj_whole o with
      | Some (OColl whole) => Some (o, whole)
      | _ => None
      end
  | _ => None
  end.

Definition each_value (o : each_obj) (whole : value) : value :=
  VEach (obj_kind o) whole (obj_nested o).

Definition whole_of (v : value) : value :=
  match v with
  | VEach _ whole _ => whole
  | _ => v
  end.

(** [E[item] = new_value] for the container at [a]: the collection at
    [E.whole] is mutated where it is. *)
Definition setitem_at (fuel : nat) (h : store) (a : loc)
    (item new_value : value) : store * result unit :=
  match container_at h a with
  | None => (h, Err NotModelled)
  | Some (o, whole) =>
      let m := EachContainer_setitem fuel (each_value o whole) item new_value in
      (<[obj_whole o := OColl (whole_of m.1)]> h, m.2)
  end.

Section in_place.
Variable op : value → value → result value.

(** [BroadcastHandler.in_place] for the container [E] at [a].  The values
    [it] yields were computed from the collection as it was when the
    operation started: the generator reads a slot before the loop
    overwrites it, and no slot is read after an earlier one was written.
    The assignment [E.whole = ...] of the other branch goes through
    [EachContainer.__setattr__]. *)
Definition in_place (fuel : nat) (h : store) (a : loc) (B : BroadcastHandler)
    (it : iter value) : store * result loc :=
  match container_at h a with
  | None => (h, Err NotModelled)
  | Some (o, whole) =>
      if has_setitem whole then
        let m := write_all (py_setitem fuel) whole
                   (iter_zip (iter_of_list (index_list (B_indices B))) it) in
        (<[obj_whole o := OColl m.1]> h, (λ _, a) <$> m.2)
      else
        match EachContainer_of_iter KSeq it (NNum 1) with
        | Err e => (h, Err e)
        | Ok new_whole =>
            (h, (λ _, a) <$> EachContainer_setattr fuel (each_value o whole)
                               "whole" new_whole)
        end
  end.

(** [__iadd__] and its like: [B.in_place(s op o for s, o in B)] with
    [match_first=True]. *)
Definition each_iop (fuel : nat) (h : store) (a : loc) (other : value)
  : store * result loc :=
  match container_at h a with
  | None => (h, Err NotModelled)
  | Some (o, whole) =>
      match (B <- BroadcastHandler_init fuel [each_value o whole; other] true;;
             rows <- B_iter fuel B;;
             Ok (B, rows)) with
      | Err e => (h, Err e)
      | Ok (B, rows) =>
          in_place fuel h a B (iter_map (unpack2 (py_binop op fuel)) rows)
      end
  end.
End in_place.

(** ** Ways of writing containers *)

(** [each(x1, x2, ...)] and [each(d)] for a dict [d]. *)
Definition seq_each (xs : list value) : value := VEach KSeq (VList xs) (NNum 1).
Definition map_each (kvs : list (value * value)) : value :=
  VEach KMap (VDict kvs) (NNum 1).
Definition ints (zs : list Z) : list value := VInt <$> zs.
Definition positions (idxs : list nat) : list value :=
  (λ i : nat, VInt (Z.of_nat i)) <$> idxs.

(** The elements of a tuple, a list or a view. *)
Definition plain_items (v : value) : option (list value) :=
  match v with
  | VTuple xs | VList xs | VView xs => Some xs
  | _ => None
  end.

(** A value that is not an each-container. *)
Definition not_each (v : value) : Prop := is_each v = false.

(** [__add__], [__radd__], [__iadd__] *)
Definition EachContainer_add := each_binop py_add.
Definition EachContainer_iadd := each_iop py_add.

(** A store with one container at [0] whose [whole], at [1], is the given
    collection. *)
Definition store_of (k : variant) (whole : value) (nested : nesting) : store :=
  <[0%nat := OEach {| obj_kind := k; obj_whole := 1%nat; obj_nested := nested |}]>
    (<[1%nat := OColl whole]> ∅).

(** The list [xs] after [xs[i] = v] for each pair [(i, v)], in order. *)
Definition overwrite (xs : list value) (writes : list (nat * value))
  : list value :=
  foldl (λ acc iv, <[iv.1 := iv.2]> acc) xs writes.

Global Instance value_inhabited : Inhabited value := populate VNone.

(** [L[i] <= L[j]] *)
Definition at_most_at (L : list nat) (i j : nat) : Prop :=
  (L !!! i ≤ L !!! j)%nat.

Global Instance at_most_at_dec L i j : Decision (at_most_at L i j).
Proof. unfold at_most_at. apply _. Defined.



(** A key that is not iterable, or a string: the keys [E[key]] looks up as
    they are. *)
Definition scalar_key (k : value) : bool :=
  match k with
  | VNone | VInt _ | VBool _ | VStr _ => true
  | _ => false
  end.

Fixpoint distinct_keys (ks : list value) : bool :=
  match ks with
  | [] => true
  | k :: ks' => negb (existsb (key_eqb k) ks') && distinct_keys ks'
  end.

Definition is_dict (v : value) : bool :=
  match v with VDict _ => true | _ => false end.

(** The values Python and the constructors of the module can build, with
    keys of the documented kind: the keys of a dict are distinct and are not
    iterable, or strings; the [whole] of a container is sized, and is a dict
    under an [EachMapping]. *)
Fixpoint well_formed (v : value) : bool :=
  match v with
  | VTuple xs | VList xs | VView xs => forallb well_formed xs
  | VDict kvs =>
      forallb (λ kv, scalar_key kv.1 && well_formed kv.2) kvs
      && distinct_keys kvs.*1
  | VEach k whole _ =>
      is_sized whole && negb (is_each whole) && well_formed whole
      && match k with KSeq => true | KMap => is_dict whole end
  | _ => true
  end.

(** Every value an iterator yields satisfies [P]. *)
Fixpoint iter_Forall {A} (P : A → Prop) (it : iter A) : Prop :=
  match it with
  | INil => True
  | IRaise _ => True
  | ICons a rest => P a ∧ iter_Forall P rest
  end.

(** Two values with the same content: equal, but for the order in which the
    keys of dicts were inserted.  Two dicts have the same content when they
    hold values of the same content at every key, as Python's [==] on dicts
    has it. *)
Inductive same_content : value → value → Prop :=
| same_refl v : same_content v v
| same_list xs ys :
    Forall2 same_content xs ys → same_content (VList xs) (VList ys)
| same_dict d1 d2 :
    (∀ k, option_Forall2 same_content (assoc_find d1 k) (assoc_find d2 k)) →
    same_content (VDict d1) (VDict d2)
| same_each k w1 w2 nested :
    same_content w1 w2 → same_content (VEach k w1 nested) (VEach k w2 nested).

(** An operand that is broadcast as it is: not iterable, or a string. *)
Definition is_scalar (v : value) : Prop :=
  is_iterable v = false ∨ is_str v = true.


(** ** Notions for the membership tests *)

Definition wf (v : value) : Prop := well_formed v = true.

(** The test [contains] ([dual = false]) or [is_in] ([dual = true]) runs on
    an aligned pair, as the body of [each_membership] has it. *)
Definition member_test (py_in : value → value → result value) (f : nat)
    (dual : bool) : list value → result value :=
  unpack2 (λ s x,
    if is_each s then each_membership py_in f dual s [x]
    else if is_each x then each_membership py_in f (negb dual) x [s]
    else if dual then py_in s x else py_in x s).

(** A pair of an alignment of two sources, and the pair the alignment of the
    same sources in the other order yields. *)
Definition swap_row (row : list value) : list value :=
  match row with
  | [x; y] => [y; x]
  | _ => row
  end.

Definition row_of (P Q : value → Prop) (row : list value) : Prop :=
  ∃ x y, row = [x; y] ∧ P x ∧ Q y.

(** The lookups [source[j], ..., source[j+m-1]], as a generator. *)
Definition lookups_from (lk : value → result value) (j m : nat) : iter value :=
  iter_map lk (iter_of_list (positions (seq j m))).

(** [key in ks], by value. *)
Definition has_key (ks : list value) (key : value) : bool :=
  existsb (λ k, key_eqb k key) ks.

(** Two tests that agree when their operands are exchanged. *)
Definition dual_tests (g1 g2 : list value → result value) : Prop :=
  ∀ x y t1 t2, wf x → wf y →
    g1 [x; y] = Ok t1 → g2 [y; x] = Ok t2 → same_content t1 t2.

(** ** [broadcast_to_length] *)

(** [next(source)] for a [source] that has a length: the collections of the
    model are iterable but are no iterators, none has [__next__]. *)
Definition builtin_next (source : value) : result value := Err TypeError.

(** [broadcast_to_length]: [len(source)] is [None] when it raises. *)
Definition broadcast_to_length (fuel : nat) (source : value) (n : nat)
  : result (iter value) :=
  let length := match py_len source with Ok l => Some l | Err _ => None end in
  if bool_decide (length = Some n) then Ok (py_iter fuel source)
  else if bool_decide (length = Some 1%nat) then
    first <- builtin_next source;; Ok (iter_of_list (replicate n first))
  else Ok (iter_of_list (replicate n source)).

(** ** More builtin operators used in the examples *)

(** [-x] for a number. *)
Definition py_neg (x : value) : result value :=
  match as_index x with
  | Some z => Ok (VInt (- z))
  | None => Err TypeError
  end.

(** Python's [a > b] between numbers and between strings. *)
Definition py_gt (a b : value) : result value := VBool <$> key_lt b a.

(** ** More ways of writing containers and results *)

(** A mapping operand: a dict, or an [EachMapping] over a dict. *)
Definition keyed_by (kvs : list (value * value)) (v : value) : Prop :=
  v = VDict kvs ∨ ∃ nested, v = VEach KMap (VDict kvs) nested.

(** The row a nested container hands to an operator, for a member that is a
    list. *)
Definition as_row (cells : list value) : value :=
  VEach KSeq (VList cells) (NNum 1).

(** A tree of lists whose leaves are not iterable, its leaves from left to
    right, and its height. *)
Fixpoint is_tree (v : value) : bool :=
  match v with
  | VList xs => forallb is_tree xs
  | _ => negb (is_iterable v)
  end.

Fixpoint leaves (v : value) : list value :=
  match v with
  | VList xs => flat_map leaves xs
  | _ => [v]
  end.

Fixpoint height (v : value) : nat :=
  match v with
  | VList xs => S (foldr (λ x h, height x `max` h)%nat 0%nat xs)
  | _ => 0
  end.

(** A list of booleans, as a mask. *)
Definition bools (bs : list bool) : list value := VBool <$> bs.

(** The members of [xs] at the positions where the mask holds [True]. *)
Fixpoint select_where (xs : list value) (bs : list bool) : list value :=
  match xs, bs with
  | x :: xs', b :: bs' =>
      if b then x :: select_where xs' bs' else select_where xs' bs'
  | _, _ => []
  end.

(** The members after [c] was written where the mask says [True]. *)
Fixpoint write_where (bs : list bool) (c : value) (xs : list value)
  : list value :=
  match bs, xs with
  | b :: bs', x :: xs' => (if b then c else x) :: write_where bs' c xs'
  | _, _ => xs
  end.

(** A list that is not a boolean mask for a collection of [n] members. *)
Definition not_a_mask (n : nat) (L : list value) : Prop :=
  length L ≠ n ∨ existsb (λ x, negb (is_bool_literal x)) L = true.

(** A bound of a slice: [None] or an integer. *)
Definition slice_bound_of (o : option Z) : value :=
  match o with Some z => VInt z | None => VNone end.

(** [lo <= z < hi], a missing bound leaving that side open. *)
Definition within (lo hi : option Z) (z : Z) : bool :=
  match lo with Some a => a <=? z | None => true end
  && match hi with Some b => z <? b | None => true end.

(** The test on an entry whose key is an integer. *)
Definition int_key_within (lo hi : option Z) (kv : value * value) : bool :=
  match kv.1 with
  | VInt z => within lo hi z
  | _ => false
  end.

(** The rows [(x, y)] of two lists of values. *)
Definition rows_of (xs ys : list value) : list (list value) :=
  (λ p : value * value, [p.1; p.2]) <$> zip xs ys.

(** The class [each] picks for a collection. *)
Definition kind_of (whole : value) : variant :=
  if is_mapping whole then KMap else KSeq.

(** * Properties *)

(** ** Basic facts about results and iterators *)

Lemma bind_Ok {A B} (m : result A) (f : A → result B) (b : B) :
  bind m f = Ok b → ∃ a, m = Ok a ∧ f a = Ok b.
Proof. destruct m as [a|e]; simpl; [eauto | discriminate]. Qed.

Lemma fmap_Ok {A B} (f : A → B) (m : result A) (b : B) :
  f <$> m = Ok b → ∃ a, m = Ok a ∧ b = f a.
Proof.
  destruct m as [a|e]; simpl; [|discriminate].
  intros [= <-]. eauto.
Qed.

Lemma each_factory_examples :
  each [VDict [(VStr "x", VInt 1); (VStr "y", VInt 2)]] (Arg NNext) true
    = Ok (map_each [(VStr "x", VInt 1); (VStr "y", VInt 2)])
  ∧ each (ints [1; 2; 3]) (Arg NNext) true = Ok (seq_each (ints [1; 2; 3]))
  ∧ each [VTuple (ints [1; 2; 3])] (Arg NNext) true
    = Ok (VEach KSeq (VTuple (ints [1; 2; 3])) (NNum 1)).
Proof. repeat split. Qed.

(** ** The result builder *)

Lemma EachContainer_init_Ok k whole nested r :
  EachContainer_init k whole nested = Ok r → r = VEach k whole nested.
Proof. unfold EachContainer_init. destruct (is_sized whole); congruence. Qed.

Lemma B_call_nested B it r :
  B_call B it = Ok r → ∃ k whole, r = VEach k whole (NNum 1).
Proof.
  unfold B_call. destruct (B_indices B).
  - destruct (is_each (B_E B)); [|discriminate].
    intros (l & _ & H)%bind_Ok. apply EachContainer_init_Ok in H. eauto.
  - intros (d & _ & H)%bind_Ok. apply EachContainer_init_Ok in H. eauto.
Qed.

(** C10: every container a binary operator, a reflected operator, a unary
    operator or a comparison returns was made by the result builder with
    [nested=1], whatever the nesting of the operands. *)
Theorem operator_result_has_nesting_one
    (op : value → value → result value) (uop : value → result value)
    (fuel : nat) (reflected : bool) (self other r : value) :
  each_binop op fuel reflected self other = Ok r ∨ each_unop uop fuel self = Ok r →
  ∃ k whole, r = VEach k whole (NNum 1)
             ∧ nested_deeper (NNum 1) = false.
Proof.
  intros H. cut (∃ k whole, r = VEach k whole (NNum 1)).
  { intros (k & whole & ->). eauto. }
  destruct fuel as [|f]; [destruct H; discriminate|].
  destruct H as [H|H]; simpl in H.
  - apply bind_Ok in H as (B & _ & H). apply bind_Ok in H as (rows & _ & H).
    eapply B_call_nested, H.
  - apply bind_Ok in H as (B & _ & H). apply bind_Ok in H as (rows & _ & H).
    eapply B_call_nested, H.
Qed.

Lemma operator_result_has_nesting_one_witness :
  ∃ k whole, seq_each (ints [11; 12]) = VEach k whole (NNum 1)
             ∧ nested_deeper (NNum 1) = false.
Proof.
  apply (operator_result_has_nesting_one py_add (λ v, Ok v) 3 false
           (VEach KSeq (VList (ints [1; 2])) NInf) (VInt 10)).
  left. reflexivity.
Defined.

(** ** Keyed alignment *)

(** C5: for [A = {x: 1, y: 2}] and [B = {x: 10, y: 20}], [A + B] is the
    keyed container [{x: 11, y: 22}]. *)
Theorem keyed_sum_example :
  EachContainer_add 3 false
      (map_each [(VStr "x", VInt 1); (VStr "y", VInt 2)])
      (map_each [(VStr "x", VInt 10); (VStr "y", VInt 20)])
    = Ok (map_each [(VStr "x", VInt 11); (VStr "y", VInt 22)])
  ∧ py_keys_method (map_each [(VStr "x", VInt 11); (VStr "y", VInt 22)])
    = Ok [VStr "x"; VStr "y"].
Proof. split; reflexivity. Qed.

(** ** The identity slice *)

(** C7: [E[:]] returns [E] itself, by [return self]: nothing is copied or
    wrapped again. *)
Theorem full_slice_returns_self (fuel : nat) (k : variant) (whole : value)
    (nested : nesting) :
  EachContainer_getitem_ret (S fuel) (VEach k whole nested)
      (VSlice VNone VNone VNone) = Ok ReturnSelf
  ∧ EachContainer_getitem (S fuel) (VEach k whole nested)
      (VSlice VNone VNone VNone) = Ok (VEach k whole nested).
Proof. split; reflexivity. Qed.

(** ** Alignment of sources of different lengths *)

Lemma iter_to_list_map {A B} (f : A → result B) (l : list A) :
  iter_to_list (iter_map f (iter_of_list l)) = map_result f l.
Proof.
  induction l as [|a l IH]; simpl; [done|].
  destruct (f a) as [b|e]; simpl; [|done]. by rewrite IH.
Qed.

Lemma map_result_ext_Forall {A B} (f g : A → result B) (P : A → Prop) (l : list A) :
  (∀ a, P a → f a = g a) → Forall P l → map_result f l = map_result g l.
Proof.
  intros Hfg. induction 1 as [|a l Ha _ IH]; simpl; [done|].
  by rewrite (Hfg a Ha), IH.
Qed.

Lemma zip_from_lists {A} (xs ys : list A) :
  zip_from (iter_of_list xs) [iter_of_list ys]
  = iter_of_list ((λ p, [p.1; p.2]) <$> zip xs ys).
Proof.
  revert ys. induction xs as [|x xs IH]; intros [|y ys]; simpl; try done.
  by rewrite IH.
Qed.

Lemma iter_map_fmap {A B C} (g : A → B) (f : B → result C) (l : list A) :
  iter_map f (iter_of_list (g <$> l)) = iter_map (λ a, f (g a)) (iter_of_list l).
Proof.
  induction l as [|a l IH]; simpl; [done|].
  destruct (f (g a)); [|done]. f_equal. exact IH.
Qed.

Lemma py_len_iterable v n : py_len v = Ok n → is_iterable v = true.
Proof. destruct v; simpl; try done. Qed.

Lemma as_sized_iterable_sized fuel v n :
  is_str v = false → py_len v = Ok n → as_sized_iterable fuel v = Ok v.
Proof. unfold as_sized_iterable. by intros -> ->. Qed.

Lemma plain_items_len v xs : plain_items v = Some xs → py_len v = Ok (length xs).
Proof. destruct v; simpl; try done; by intros [= ->]. Qed.

Lemma plain_items_iter fuel v xs :
  plain_items v = Some xs → py_iter fuel v = iter_of_list xs.
Proof. destruct v; simpl; try done; by intros [= ->]. Qed.

Lemma plain_items_not_each v xs : plain_items v = Some xs → is_each v = false.
Proof. by destruct v. Qed.

(** The alignment of an each-container that is the model with one other
    source that is neither keyed nor broadcastable. *)
Lemma handler_of_model_and_other fuel k whole nested other n m :
  py_len whole = Ok n → py_len other = Ok m →
  is_str other = false → is_mapping other = false →
  (n ≠ 1 ∨ k = KMap)%nat → (m ≠ 1)%nat →
  BroadcastHandler_init fuel [VEach k whole nested; other] false
  = Ok {| B_sources := [VEach k whole nested; other];
          B_E := VEach k whole nested; B_model := VEach k whole nested;
          B_n := n; B_indices := IRange n |}.
Proof.
  intros Hn Hm Hstr Hmap Hmodel Hm1.
  unfold BroadcastHandler_init. simpl map_result.
  rewrite (as_sized_iterable_sized fuel (VEach k whole nested) n) by done.
  rewrite (as_sized_iterable_sized fuel other m) by done. simpl.
  unfold not_broadcastable. simpl. rewrite Hn. simpl.
  apply Nat.eqb_neq in Hm1.
  destruct k.
  - destruct Hmodel as [H|?]; [|done]. apply Nat.eqb_neq in H.
    rewrite H. simpl. by rewrite Hn.
  - rewrite !orb_true_r. simpl. rewrite Hn. simpl. rewrite Hm. simpl.
    by rewrite Hm1, Hmap.
Qed.

Lemma model_is_iterated fuel k whole nested n :
  py_len whole = Ok n → (n ≠ 1 ∨ k = KMap)%nat →
  ∃ it, in_generator (broadcast_to_indices fuel (VEach k whole nested)
                        n (IRange n)) = Ok it.
Proof.
  intros Hn Hmodel. pose proof (py_len_iterable _ _ Hn) as Hit.
  unfold broadcast_to_indices. destruct k; simpl; [|eauto].
  rewrite Hn. simpl. destruct Hmodel as [H1|?]; [|done].
  apply Nat.eqb_neq in H1. rewrite H1, Nat.ltb_irrefl.
  unfold EachContainer_values. simpl. rewrite Hit. simpl.
  destruct (nested_deeper nested); eauto.
Qed.

(** A source that is neither keyed nor broadcastable and is shorter than the
    model makes every operator raise [ValueError], whatever the variant, the
    nesting and the members of the container. *)
Lemma shorter_source_raises
    (op : value → value → result value) (fuel : nat) (reflected : bool)
    (k : variant) (whole : value) (nested : nesting) (other : value)
    (n m : nat) :
  py_len whole = Ok n → py_len other = Ok m →
  is_str other = false → is_mapping other = false →
  (n ≠ 1 ∨ k = KMap)%nat → (m ≠ 1)%nat → (m < n)%nat →
  each_binop op (S fuel) reflected (VEach k whole nested) other = Err ValueError.
Proof.
  intros Hn Hm Hstr Hmap Hmodel Hm1 Hlt. simpl.
  rewrite (handler_of_model_and_other fuel k whole nested other n m) by done.
  simpl. unfold B_iter. simpl.
  destruct (model_is_iterated fuel k whole nested n Hn Hmodel) as [it ->].
  simpl. unfold broadcast_to_indices. rewrite Hmap, Hm. simpl.
  apply Nat.eqb_neq in Hm1. rewrite Hm1.
  apply Nat.ltb_lt in Hlt. by rewrite Hlt.
Qed.

(** C1, as the code has it: when a positional container of [n] members (the
    model) is aligned with a sequence of [m] members, neither being
    broadcastable, the operator raises [ValueError] when [m < n]; when
    [m > n] it raises nothing for the length and applies the operator to the
    first [n] members of both. *)
Theorem length_mismatch_raises_only_when_shorter
    (op : value → value → result value) (fuel : nat) (reflected : bool)
    (whole : value) (nested : nesting) (other : value) (xs ys : list value) :
  plain_items whole = Some xs → plain_items other = Some ys →
  nested_deeper nested = false →
  Forall not_each xs → Forall not_each ys →
  length xs ≠ 1%nat → length ys ≠ 1%nat →
  each_binop op (S fuel) reflected (VEach KSeq whole nested) other
  = if (length ys <? length xs)%nat then Err ValueError
    else zs <- map_result
                 (λ p, if reflected then op p.2 p.1 else op p.1 p.2)
                 (zip xs ys);;
         Ok (VEach KSeq (VList zs) (NNum 1)).
Proof.
  intros Hxs Hys Hflat Fxs Fys Hn1 Hm1.
  pose proof (plain_items_len _ _ Hxs) as Hn.
  pose proof (plain_items_len _ _ Hys) as Hm.
  assert (is_str other = false) as Hstr by (by destruct other).
  assert (is_mapping other = false) as Hmap by (by destruct other).
  destruct (length ys <? length xs)%nat eqn:Hlt.
  { apply Nat.ltb_lt in Hlt. eapply shorter_source_raises; eauto. }
  simpl.
  rewrite (handler_of_model_and_other fuel KSeq whole nested other
             (length xs) (length ys)) by auto.
  simpl. unfold B_iter. simpl.
  unfold broadcast_to_indices at 1. simpl. rewrite Hn. simpl.
  apply Nat.eqb_neq in Hn1. rewrite Hn1, Nat.ltb_irrefl.
  unfold EachContainer_values. simpl.
  rewrite (py_len_iterable _ _ Hn), Hflat. simpl.
  unfold broadcast_to_indices. rewrite Hmap, Hm. simpl.
  apply Nat.eqb_neq in Hm1. rewrite Hm1, Hlt.
  rewrite (plain_items_not_each _ _ Hys).
  rewrite (py_len_iterable _ _ Hm). simpl.
  rewrite (plain_items_iter _ _ _ Hxs), (plain_items_iter _ _ _ Hys).
  rewrite zip_from_lists. unfold B_call. simpl.
  rewrite iter_map_fmap, iter_to_list_map. simpl.
  assert (Forall (λ p, not_each p.1 ∧ not_each p.2) (zip xs ys)) as Fzip.
  { clear -Fxs Fys. revert ys Fys.
    induction Fxs as [|x xs Hx _ IH]; intros ys Fys; simpl; [done|].
    destruct Fys as [|y ys Hy Fys]; [done|]. constructor; auto. }
  erewrite map_result_ext_Forall; [done| |exact Fzip].
  intros [x y] [Hx Hy]. simpl in *. unfold member_binop.
  unfold not_each in *. destruct reflected; by rewrite ?Hx, ?Hy.
Qed.

Lemma length_mismatch_raises_only_when_shorter_witness :
  each_binop py_add 1 false (VEach KSeq (VList (ints [1; 2; 3])) (NNum 1))
    (VTuple (ints [10; 20]))
  = Err ValueError.
Proof.
  apply (length_mismatch_raises_only_when_shorter py_add 0 false
           (VList (ints [1; 2; 3])) (NNum 1) (VTuple (ints [10; 20]))
           (ints [1; 2; 3]) (ints [10; 20]));
    first [reflexivity | by repeat constructor | simpl; lia].
Defined.

(** C1 fails in one operand order: a container of length 2 added to a tuple
    of length 3 is the container of the first two sums. *)
Lemma longer_operand_is_truncated :
  EachContainer_add 3 false (seq_each (ints [1; 2])) (VTuple (ints [10; 20; 30]))
    = Ok (seq_each (ints [11; 22]))
  ∧ ¬ (∃ e, EachContainer_add 3 false (seq_each (ints [1; 2]))
              (VTuple (ints [10; 20; 30])) = Err e).
Proof. split; [reflexivity | intros [e H]; discriminate H]. Qed.

(** ** Approximated slices *)

(** A collection that takes no slice itself, indexed with a slice whose
    [stop] is negative: the source adds the length to [start] a second time
    instead of to [stop], and [islice] rejects the negative [stop]. *)
Lemma negative_stop_raises (fuel : nat) (xs : list value) (nested : nesting)
    (start stop : Z) (step : value) :
  stop < 0 →
  EachContainer_getitem (S fuel) (VEach KSeq (VView xs) nested)
    (VSlice (VInt start) (VInt stop) step) = Err ValueError.
Proof.
  intros Hstop. unfold EachContainer_getitem. simpl.
  unfold islice. simpl.
  apply Z.ltb_lt in Hstop. rewrite Hstop. simpl.
  destruct (Z.ltb start 0); simpl; rewrite ?Hstop; simpl;
    repeat (case_match; simpl; try done).
Qed.

(** C4, at an input on which the code fails: over a dict view of four
    members, [E[0:-1]] raises [ValueError] although [E[0:3]], the slice with
    the bound normalised, selects the first three members; a negative
    [start] alone is normalised. *)
Theorem negative_stop_is_not_normalised :
  let E := VEach KSeq (VView (ints [10; 20; 30; 40])) (NNum 1) in
  EachContainer_getitem 2 E (VSlice (VInt 0) (VInt (-1)) VNone) = Err ValueError
  ∧ EachContainer_getitem 2 E (VSlice (VInt 0) (VInt 3) VNone)
    = Ok (seq_each (ints [10; 20; 30]))
  ∧ EachContainer_getitem 2 E (VSlice (VInt (-3)) (VInt 3) VNone)
    = EachContainer_getitem 2 E (VSlice (VInt 1) (VInt 3) VNone).
Proof. repeat split. Qed.

(** ** In-place operators on a collection without item assignment *)

(** When [E.whole] has no [__setitem__], an in-place operator leaves the
    store as it was: [E.whole = ...] is an attribute assignment on [E], which
    [EachContainer.__setattr__] distributes over the members. *)
Lemma in_place_without_setitem_changes_nothing
    (op : value → value → result value) (fuel : nat) (h : store) (a : loc)
    (o : each_obj) (whole other : value) :
  container_at h a = Some (o, whole) → has_setitem whole = false →
  (each_iop op fuel h a other).1 = h.
Proof.
  intros Hc Hset. unfold each_iop. rewrite Hc.
  destruct (bind _ _) as [[B rows]|e]; [|done].
  unfold in_place. rewrite Hc, Hset.
  by destruct (EachContainer_of_iter _ _ _).
Qed.

(** C3, at an input on which the code fails: [E += 1] for [E] over the tuple
    [(1, 2, 3)] raises [AttributeError] and leaves the tuple in place. *)
Theorem iadd_on_tuple_raises :
  EachContainer_iadd 3 (store_of KSeq (VTuple (ints [1; 2; 3])) (NNum 1)) 0%nat
    (VInt 1)
  = (store_of KSeq (VTuple (ints [1; 2; 3])) (NNum 1), Err AttributeError).
Proof. reflexivity. Qed.

(** ** Writes with too few values *)

Lemma repeat_if_singular_list fuel vs :
  length vs ≠ 1%nat →
  repeat_if_singular fuel (VList vs) = supply_of_iter (iter_of_list vs).
Proof. destruct vs as [|v1 [|v2 vs]]; simpl; done. Qed.

Lemma zip_supply_lists ks vs :
  zip_supply (iter_of_list ks) (supply_of_iter (iter_of_list vs))
  = iter_of_list (zip ks vs).
Proof.
  revert vs. induction ks as [|k ks IH]; intros [|v vs]; simpl; try done.
  by rewrite IH.
Qed.

Lemma seq_position_nat n i : (i < n)%nat → seq_position n (Z.of_nat i) = Some i.
Proof.
  intros Hi. unfold seq_position.
  assert ((Z.of_nat i <? 0) = false) as -> by lia.
  assert (((0 <=? Z.of_nat i) && (Z.of_nat i <? Z.of_nat n)) = true) as -> by lia.
  by rewrite Nat2Z.id.
Qed.

Lemma overwrite_length xs writes : length (overwrite xs writes) = length xs.
Proof.
  unfold overwrite. revert xs.
  induction writes as [|[i v] writes IH]; intros xs; simpl; [done|].
  by rewrite IH, length_insert.
Qed.

(** Writing values at positions within a list, one after the other. *)
Lemma write_all_list rec xs (idxs : list nat) vs :
  Forall (λ i, i < length xs)%nat idxs →
  write_all (py_setitem_with rec) (VList xs)
    (iter_of_list (zip (positions idxs) vs))
  = (VList (overwrite xs (zip idxs vs)), Ok ()).
Proof.
  revert xs vs.
  induction idxs as [|i idxs IH]; intros xs vs Hin; [done|].
  destruct vs as [|v vs]; [done|].
  apply Forall_cons in Hin as [Hi Hin]. simpl.
  rewrite seq_position_nat by done.
  apply IH. eapply Forall_impl; [exact Hin|].
  intros j Hj. simpl in Hj. by rewrite length_insert.
Qed.

Lemma target_keys_positions fuel k xs (idxs : list nat) v :
  idxs ≠ [] →
  target_keys fuel k (VList xs) (VList (positions idxs)) v
  = Ok (Some (iter_of_list (positions idxs))).
Proof.
  intros Hne. unfold target_keys. simpl.
  destruct idxs as [|i idxs]; [done|].
  case_bool_decide; done.
Qed.

Lemma EachContainer_setitem_S fuel self item v :
  EachContainer_setitem (S fuel) self item v
  = setitem_body fuel (py_setitem_with (EachContainer_setitem fuel)) self item v.
Proof. done. Qed.

(** C2, as the code has it: when a list of [k] positions is assigned a list
    of [m < k] values, [m ≠ 1], the first [m] positions receive the values,
    the other positions keep theirs, and nothing is raised: [zip] stops when
    the values run out. *)
Theorem short_value_stops_silently (fuel : nat) (h : store) (a : loc)
    (o : each_obj) (xs : list value) (idxs : list nat) (vs : list value) :
  h !! a = Some (OEach o) → h !! obj_whole o = Some (OColl (VList xs)) →
  Forall (λ i, i < length xs)%nat idxs →
  length vs ≠ 1%nat → (length vs < length idxs)%nat →
  setitem_at (S fuel) h a (VList (positions idxs)) (VList vs)
  = (<[obj_whole o := OColl (VList (overwrite xs (zip idxs vs)))]> h, Ok ()).
Proof.
  intros Ha Hw Hin Hsingle Hshort.
  unfold setitem_at, container_at. rewrite Ha, Hw.
  rewrite EachContainer_setitem_S. unfold setitem_body, each_value.
  rewrite target_keys_positions by (intros ->; simpl in Hshort; lia).
  rewrite repeat_if_singular_list, zip_supply_lists, write_all_list by done.
  done.
Qed.

Lemma short_value_stops_silently_witness :
  setitem_at 1 (store_of KSeq (VList (ints [1; 2; 3])) (NNum 1)) 0%nat
    (VList (positions [0; 1; 2]%nat)) (VList (ints [7; 8]))
  = (<[1%nat := OColl (VList (ints [7; 8; 3]))]>
       (store_of KSeq (VList (ints [1; 2; 3])) (NNum 1)), Ok ()).
Proof.
  apply (short_value_stops_silently 0
           (store_of KSeq (VList (ints [1; 2; 3])) (NNum 1)) 0%nat
           {| obj_kind := KSeq; obj_whole := 1%nat; obj_nested := NNum 1 |}
           (ints [1; 2; 3]) [0; 1; 2]%nat (ints [7; 8]));
    first [reflexivity | by repeat constructor | simpl; lia].
Defined.

(** C2 fails: [E[[0, 1, 2]] = [7, 8]] on [E = each(1, 2, 3)] succeeds and
    leaves [E] over [[7, 8, 3]]. *)
Lemma short_value_raises_nothing :
  let h := store_of KSeq (VList (ints [1; 2; 3])) (NNum 1) in
  (setitem_at 3 h 0%nat (VList (ints [0; 1; 2])) (VList (ints [7; 8]))).2 = Ok ()
  ∧ (setitem_at 3 h 0%nat (VList (ints [0; 1; 2])) (VList (ints [7; 8]))).1 !! 1%nat
    = Some (OColl (VList (ints [7; 8; 3]))).
Proof. split; reflexivity. Qed.

(** ** In-place operators on a collection with item assignment *)

Lemma container_at_Some (h : store) a o whole :
  h !! a = Some (OEach o) → h !! obj_whole o = Some (OColl whole) →
  container_at h a = Some (o, whole) ∧ a ≠ obj_whole o.
Proof.
  intros Ha Hw. unfold container_at. rewrite Ha, Hw. split; [done|].
  intros Heq. rewrite <- Heq in Hw. congruence.
Qed.

Arguments py_setitem : simpl never.

Lemma py_setitem_keeps_list fuel xs key v :
  ∃ ys, (py_setitem fuel (VList xs) key v).1 = VList ys
        ∧ length ys = length xs.
Proof.
  unfold py_setitem, py_setitem_with, builtin_setitem.
  destruct key; simpl; eauto;
    (destruct (seq_position _ _); simpl; eauto using length_insert).
Qed.

(** The writes of the loop keep a list a list, of the same length. *)
Lemma write_all_keeps_list fuel xs pairs :
  ∃ ys, (write_all (py_setitem fuel) (VList xs) pairs).1 = VList ys
        ∧ length ys = length xs.
Proof.
  revert xs. induction pairs as [| |[index v] rest IH]; intros xs; simpl;
    [eauto..|].
  destruct (py_setitem_keeps_list fuel xs index v) as (ys & Hys & Hlen).
  destruct (py_setitem fuel (VList xs) index v) as [w [[]|e]];
    simpl in Hys; subst w.
  - destruct (IH ys) as (zs & Hzs & Hlen'). exists zs. split; [done|lia].
  - eauto.
Qed.

Lemma map_result_length {A B} (f : A → result B) l bs :
  map_result f l = Ok bs → length bs = length l.
Proof.
  revert bs. induction l as [|a l IH]; intros bs; simpl.
  - by intros [= <-].
  - intros (b & _ & (bs' & Hbs & [= <-])%bind_Ok)%bind_Ok.
    simpl. f_equal. eauto.
Qed.

Lemma iter_map_Ok {A B} (f : A → result B) l bs :
  map_result f l = Ok bs → iter_map f (iter_of_list l) = iter_of_list bs.
Proof.
  revert bs. induction l as [|a l IH]; intros bs; simpl.
  - by intros [= <-].
  - intros (b & -> & (bs' & Hbs & [= <-])%bind_Ok)%bind_Ok.
    simpl. f_equal. eauto.
Qed.

Lemma iter_zip_lists {A B} (xs : list A) (ys : list B) :
  iter_zip (iter_of_list xs) (iter_of_list ys) = iter_of_list (zip xs ys).
Proof.
  revert ys. induction xs as [|x xs IH]; intros [|y ys]; simpl; try done.
  by rewrite IH.
Qed.

Lemma zip_replicate {A B} (xs : list A) (c : B) :
  zip xs (replicate (length xs) c) = (λ x, (x, c)) <$> xs.
Proof. induction xs as [|x xs IH]; simpl; [done|]. by rewrite IH. Qed.

(** Overwriting every position of a list, from the first to the last. *)
Lemma overwrite_every_position pre xs ys :
  length xs = length ys →
  overwrite (pre ++ xs) (zip (seq (length pre) (length xs)) ys) = pre ++ ys.
Proof.
  unfold overwrite. revert pre ys.
  induction xs as [|x xs IH]; intros pre [|y ys] Hlen; simpl in *; try done.
  rewrite insert_app_r_alt, Nat.sub_diag by done. simpl.
  rewrite (cons_middle y pre xs), (cons_middle y pre ys), !app_assoc.
  replace (S (length pre)) with (length (pre ++ [y]))
    by (rewrite length_app; simpl; lia).
  apply IH. lia.
Qed.

(** What a flat positional container over a list contributes to an
    alignment on its own length. *)
Lemma flat_list_is_iterated fuel k xs nested :
  k = KSeq → nested_deeper nested = false → Forall not_each xs →
  in_generator (broadcast_to_indices (S fuel) (VEach k (VList xs) nested)
                  (length xs) (IRange (length xs)))
  = Ok (iter_of_list xs).
Proof.
  intros -> Hflat Fxs. unfold broadcast_to_indices. simpl.
  destruct (length xs =? 1)%nat eqn:H1.
  - destruct xs as [|x [|? ?]]; try done.
    apply Forall_cons in Fxs as [Hx _]. unfold not_each in Hx.
    unfold py_iter. simpl. rewrite Hflat. simpl. by rewrite Hx.
  - rewrite Nat.ltb_irrefl. unfold EachContainer_values. simpl.
    by rewrite Hflat.
Qed.

Lemma scalar_is_wrapped fuel v :
  is_scalar v → as_sized_iterable fuel v = Ok (VTuple [v]) ∧ is_each v = false.
Proof.
  unfold as_sized_iterable. intros [H|H]; destruct v; simpl in *; done.
Qed.

(** The alignment of a flat positional container over a list with a scalar,
    on the length of the container. *)
Lemma rows_of_flat_list_and_scalar fuel xs nested other :
  nested_deeper nested = false → Forall not_each xs → is_scalar other →
  (B <- BroadcastHandler_init (S fuel) [VEach KSeq (VList xs) nested; other] true;;
   rows <- B_iter (S fuel) B;; Ok (B, rows))
  = Ok ({| B_sources := [VEach KSeq (VList xs) nested; VTuple [other]];
           B_E := VEach KSeq (VList xs) nested;
           B_model := VEach KSeq (VList xs) nested;
           B_n := length xs; B_indices := IRange (length xs) |},
        iter_of_list ((λ x, [x; other]) <$> xs)).
Proof.
  intros Hflat Fxs Hscalar.
  destruct (scalar_is_wrapped (S fuel) other Hscalar) as [Hother _].
  unfold BroadcastHandler_init.
  change (map_result ?f [?x; ?y]) with
    (b <- f x;; bs <- (b' <- f y;; Ok [b']);; Ok (b :: bs)).
  rewrite Hother. cbn [as_sized_iterable is_str bind py_len].
  change (is_mapping (VEach KSeq (VList xs) nested)) with false.
  cbn [bind]. unfold B_iter. cbn [B_sources B_n B_indices].
  change (map_result ?f [?x; ?y]) with
    (b <- f x;; bs <- (b' <- f y;; Ok [b']);; Ok (b :: bs)).
  cbv beta. rewrite flat_list_is_iterated by done. cbn [bind].
  unfold broadcast_to_indices at 1. simpl.
  by rewrite zip_from_lists, zip_replicate, <- list_fmap_compose.
Qed.

(** C8: an in-place operator on a container whose [whole] has
    [__setitem__] returns the container it was called on, which still refers
    to the same collection; only that collection is written to, a list
    keeping its length.  For a flat container over a list and a scalar
    operand on which the operator succeeds, the operation does return, every
    slot holding the result for its member. *)
Theorem in_place_keeps_identity
    (op : value → value → result value) (fuel : nat) (h : store) (a : loc)
    (o : each_obj) (whole other : value) :
  h !! a = Some (OEach o) → h !! obj_whole o = Some (OColl whole) →
  has_setitem whole = true →
  let res := each_iop op (S fuel) h a other in
  (res.2 = Ok a ∨ ∃ e, res.2 = Err e)
  ∧ res.1 !! a = Some (OEach o)
  ∧ (∀ l, l ≠ obj_whole o → res.1 !! l = h !! l)
  ∧ (∃ whole', res.1 !! obj_whole o = Some (OColl whole')
               ∧ ∀ xs, whole = VList xs →
                       ∃ ys, whole' = VList ys ∧ length ys = length xs)
  ∧ (∀ xs ys,
       whole = VList xs → obj_kind o = KSeq →
       nested_deeper (obj_nested o) = false → Forall not_each xs →
       is_scalar other →
       map_result (λ x, op x other) xs = Ok ys →
       res = (<[obj_whole o := OColl (VList ys)]> h, Ok a)).
Proof.
  intros Ha Hw Hset res.
  destruct (container_at_Some h a o whole Ha Hw) as [Hc Hne].
  assert (res = each_iop op (S fuel) h a other) as Hres by done.
  clearbody res. unfold each_iop in Hres. rewrite Hc in Hres.
  repeat split.
  - destruct (bind _ _) as [[B rows]|e]; [|subst; simpl; eauto].
    unfold in_place in Hres. rewrite Hc, Hset in Hres. subst res. simpl.
    destruct (write_all _ _ _) as [w [[]|e]]; simpl; eauto.
  - destruct (bind _ _) as [[B rows]|e]; [|by subst].
    unfold in_place in Hres. rewrite Hc, Hset in Hres. subst res. simpl.
    by rewrite lookup_insert_ne.
  - intros l Hl. destruct (bind _ _) as [[B rows]|e]; [|by subst].
    unfold in_place in Hres. rewrite Hc, Hset in Hres. subst res. simpl.
    by rewrite lookup_insert_ne.
  - destruct (bind _ _) as [[B rows]|e].
    + unfold in_place in Hres. rewrite Hc, Hset in Hres. subst res. simpl.
      rewrite lookup_insert_eq. eexists; split; [done|].
      intros xs ->. apply write_all_keeps_list.
    + subst res. simpl. rewrite Hw. eexists; split; [done|]. eauto.
  - intros xs ys -> Hk Hflat Fxs Hscalar Hys.
    destruct o as [k w nested]. simpl in *. subst k.
    unfold each_value in Hres. simpl in Hres.
    rewrite rows_of_flat_list_and_scalar in Hres by done.
    unfold in_place in Hres. rewrite Hc in Hres. simpl in Hres.
    rewrite iter_map_fmap in Hres. simpl in Hres.
    rewrite (iter_map_Ok (λ x, py_binop op (S fuel) x other) xs ys) in Hres.
    2:{ rewrite <- Hys. eapply map_result_ext_Forall; [|exact Fxs].
        intros x Hx. simpl. unfold py_binop, member_binop.
        unfold not_each in Hx.
        by rewrite Hx, (proj2 (scalar_is_wrapped 0 other Hscalar)). }
    rewrite iter_zip_lists in Hres.
    change ((λ i : nat, VInt (Z.of_nat i)) <$> seq 0 (length xs))
      with (positions (seq 0 (length xs))) in Hres.
    unfold py_setitem in Hres.
    rewrite write_all_list in Hres by (apply Forall_seq; lia).
    pose proof (overwrite_every_position [] xs ys) as Hov. simpl in Hov.
    rewrite Hov in Hres by (symmetry; eapply map_result_length, Hys).
    done.
Qed.

(** ** Re-keying with a list of positions *)

Global Instance at_most_at_transitive L : Transitive (at_most_at L).
Proof. unfold at_most_at. intros i j k. lia. Qed.

Global Instance at_most_at_total L : Total (at_most_at L).
Proof. unfold at_most_at. intros i j. lia. Qed.






Lemma EachContainer_getitem_ret_S fuel self item :
  EachContainer_getitem_ret (S fuel) self item
  = getitem_body fuel
      (py_getitem_with
         (λ obj key, returned_value obj <$> EachContainer_getitem_ret fuel obj key))
      self item.
Proof. done. Qed.

Lemma map_result_fmap {A B C} (g : A → B) (f : B → result C) (l : list A) :
  map_result f (g <$> l) = map_result (λ a, f (g a)) l.
Proof.
  induction l as [|a l IH]; [done|].
  change (map_result f (g <$> a :: l))
    with (b <- f (g a);; bs <- map_result f (g <$> l);; Ok (b :: bs)).
  by rewrite IH.
Qed.


Lemma positions_length (L : list nat) : length (positions L) = length L.
Proof. unfold positions. apply length_fmap. Qed.






Lemma in_place_keeps_identity_witness :
  EachContainer_iadd 1 (store_of KSeq (VList (ints [1; 2; 3])) (NNum 1)) 0%nat
    (VInt 1)
  = (<[1%nat := OColl (VList (ints [2; 3; 4]))]>
       (store_of KSeq (VList (ints [1; 2; 3])) (NNum 1)), Ok 0%nat).
Proof.
  destruct (in_place_keeps_identity py_add 0
              (store_of KSeq (VList (ints [1; 2; 3])) (NNum 1)) 0%nat
              {| obj_kind := KSeq; obj_whole := 1%nat; obj_nested := NNum 1 |}
              (VList (ints [1; 2; 3])) (VInt 1) eq_refl eq_refl eq_refl)
    as (_ & _ & _ & _ & H).
  apply (H (ints [1; 2; 3]) (ints [2; 3; 4]));
    first [reflexivity | by repeat constructor | by left].
Defined.

(** ** The membership tests in the two orders *)

(** *** Well-formed values *)


Lemma forallb_Forall {A} (p : A → bool) (l : list A) :
  forallb p l = true ↔ Forall (λ a, p a = true) l.
Proof.
  induction l as [|a l IH]; simpl; [by split|].
  rewrite andb_true_iff, IH. split.
  - intros [??]. by constructor.
  - by intros [??]%Forall_cons.
Qed.

Lemma wf_each k w nested :
  wf (VEach k w nested) →
  is_sized w = true ∧ is_each w = false ∧ wf w
  ∧ (k = KMap → ∃ kvs, w = VDict kvs).
Proof.
  unfold wf. simpl. rewrite !andb_true_iff, negb_true_iff.
  intros [[[? ?] ?] Hk]. repeat split; try done.
  intros ->. destruct w; try done. eauto.
Qed.

Lemma wf_dict kvs :
  wf (VDict kvs) →
  Forall (λ kv, scalar_key kv.1 = true ∧ wf kv.2) kvs
  ∧ distinct_keys kvs.*1 = true.
Proof.
  unfold wf. simpl. rewrite andb_true_iff, forallb_Forall.
  intros [H ?]. split; [|done].
  eapply Forall_impl; [exact H|]. intros kv. simpl.
  by rewrite andb_true_iff.
Qed.

Lemma wf_plain_items v xs : plain_items v = Some xs → wf v → Forall wf xs.
Proof.
  unfold wf. destruct v; simpl; try done; intros [= ->];
    by rewrite forallb_Forall.
Qed.

Lemma scalar_key_wf k : scalar_key k = true → wf k.
Proof. by destruct k. Qed.

(** The members a builtin collection iterates over are well formed. *)
Lemma builtin_iter_wf v : wf v → iter_Forall wf (builtin_iter v).
Proof.
  intros Hv. destruct v; simpl; try done.
  - unfold chars. induction (String.list_ascii_of_string s); simpl; done.
  - apply (wf_plain_items (VTuple xs) xs eq_refl) in Hv.
    induction Hv; simpl; done.
  - apply (wf_plain_items (VList xs) xs eq_refl) in Hv.
    induction Hv; simpl; done.
  - apply (wf_plain_items (VView xs) xs eq_refl) in Hv.
    induction Hv; simpl; done.
  - apply wf_dict in Hv as [Hv _].
    induction Hv as [|[k x] kvs [Hk _] _ IH]; simpl; [done|].
    split; [by apply scalar_key_wf|done].
Qed.

Lemma iter_Forall_of_list {A} (P : A → Prop) l :
  Forall P l → iter_Forall P (iter_of_list l).
Proof. induction 1; simpl; done. Qed.

Lemma iter_Forall_map {A B} (P : A → Prop) (Q : B → Prop) (f : A → result B) it :
  (∀ a b, P a → f a = Ok b → Q b) →
  iter_Forall P it → iter_Forall Q (iter_map f it).
Proof.
  intros Hf. induction it as [| |a rest IH]; simpl; try done.
  intros [Ha Hrest]. destruct (f a) as [b|e] eqn:Hfa; simpl; [|done].
  split; [by eapply Hf|by apply IH].
Qed.

Lemma iter_Forall_app {A} (P : A → Prop) it1 it2 :
  iter_Forall P it1 → iter_Forall P it2 → iter_Forall P (iter_app it1 it2).
Proof. induction it1; simpl; try done. intros [??] ?. split; auto. Qed.

Lemma iter_Forall_bind {A B} (P : A → Prop) (Q : B → Prop) (g : A → iter B) it :
  (∀ a, P a → iter_Forall Q (g a)) →
  iter_Forall P it → iter_Forall Q (iter_bind g it).
Proof.
  intros Hg. induction it as [| |a rest IH]; simpl; try done.
  intros [Ha Hrest]. apply iter_Forall_app; auto.
Qed.

Lemma iter_Forall_to_list {A} (P : A → Prop) it l :
  iter_Forall P it → iter_to_list it = Ok l → Forall P l.
Proof.
  revert l. induction it as [| |a rest IH]; intros l; simpl.
  - by intros _ [= <-].
  - done.
  - intros [Ha Hrest] (l' & Hl' & [= <-])%bind_Ok. constructor; auto.
Qed.

Lemma iter_Forall_next {A} (P : A → Prop) it a :
  iter_Forall P it → py_next it = Ok a → P a.
Proof. destruct it; simpl; try done. by intros [? _] [= <-]. Qed.

(** [each(i, nested=..., enlist=False)] keeps a member well formed. *)
Lemma each_wf i nested r :
  wf i → each [i] nested false = Ok r → wf r.
Proof.
  intros Hi. unfold each.
  destruct (is_str i) eqn:Hstr.
  { destruct i; try done. simpl. by intros [= <-]. }
  destruct (is_iterable i) eqn:Hit; [|by intros [= <-]].
  destruct i; try done; simpl.
  - intros [= <-]. unfold wf in *. simpl in *. by rewrite Hi.
  - intros [= <-]. unfold wf in *. simpl in *. by rewrite Hi.
  - intros [= <-]. unfold wf in *. simpl in *. by rewrite Hi.
  - intros [= <-]. unfold wf in *. simpl in *. by rewrite Hi.
  - apply wf_each in Hi as (Hsized & Hne & Hw & Hk).
    intros (ns & Hns & H)%bind_Ok.
    apply bind_Ok in Hns as (n' & _ & [= <-]).
    destruct (is_mapping i) eqn:Hm.
    + unfold EachContainer_init in H. rewrite Hsized in H.
      injection H as <-. unfold wf in *. simpl.
      rewrite Hsized, Hne, Hw. simpl. destruct i; try done.
    + rewrite Hsized in H. simpl in H.
      unfold EachContainer_init in H. rewrite Hsized in H.
      injection H as <-. unfold wf in *. simpl.
      by rewrite Hsized, Hne, Hw.
Qed.

Arguments each : simpl never.
Arguments py_getitem : simpl never.
Arguments py_iter : simpl never.

Lemma wf_each_len k w nested :
  wf (VEach k w nested) → ∃ l, py_len w = Ok l.
Proof.
  intros (Hsized & Hne & _ & _)%wf_each. destruct w; try done; simpl; eauto.
Qed.

Lemma values_with_wf rec k w nested it :
  wf (VEach k w nested) →
  values_with (py_iter_with rec) (VEach k w nested) = Ok it →
  iter_Forall wf it.
Proof.
  intros Hs. pose proof Hs as (Hsized & Hne & Hw & Hk)%wf_each.
  assert (py_iter_with rec w = builtin_iter w) as Hiter by (by destruct w).
  destruct k; simpl.
  - unfold is_sized in Hsized. rewrite Hsized, Hiter. simpl.
    destruct (nested_deeper nested); intros [= <-].
    + eapply iter_Forall_map; [|by apply builtin_iter_wf].
      intros a b Ha. by apply each_wf.
    + by apply builtin_iter_wf.
  - destruct (Hk eq_refl) as [kvs ->]. intros [= <-].
    apply wf_dict in Hw as [Hw _]. apply iter_Forall_of_list.
    rewrite Forall_fmap. eapply Forall_impl; [exact Hw|]. by intros kv [_ ?].
Qed.

Lemma EachContainer_iter_wf f self :
  wf self → is_each self = true → iter_Forall wf (EachContainer_iter f self).
Proof.
  revert self. induction f as [|f IH]; intros self Hs He; simpl; [done|].
  destruct self; try done.
  destruct (values_with _ _) as [it|e] eqn:Hit; simpl; [|done].
  eapply iter_Forall_bind; [|by eapply values_with_wf].
  intros a Ha. simpl. destruct (is_each a) eqn:Hea; [by apply IH|done].
Qed.

Lemma py_iter_wf f v : wf v → iter_Forall wf (py_iter f v).
Proof.
  intros Hv. unfold py_iter.
  destruct (is_each v) eqn:He.
  - destruct v; try done. by apply EachContainer_iter_wf.
  - assert (py_iter_with (EachContainer_iter f) v = builtin_iter v) as ->
      by (by destruct v).
    by apply builtin_iter_wf.
Qed.

(** *** Lookups in a keyed container *)

Lemma py_hashing_scalar k : scalar_key k = true → py_hashing k = HashValue.
Proof. by destruct k. Qed.

Lemma getitem_body_scalar fuel getitem k w nested key :
  scalar_key key = true →
  getitem_body fuel getitem (VEach k w nested) key
  = (member <- getitem w key;; Ok (Return member)).
Proof. destruct key; try done. Qed.

Lemma py_getitem_scalar f k w nested key :
  scalar_key key = true → is_each w = false →
  py_getitem (S f) (VEach k w nested) key = builtin_getitem w key.
Proof.
  intros Hkey Hw. unfold py_getitem, py_getitem_with, EachContainer_getitem.
  rewrite EachContainer_getitem_ret_S, getitem_body_scalar by done.
  assert (py_getitem_with
            (λ obj key0, returned_value obj
                           <$> EachContainer_getitem_ret f obj key0) w key
          = builtin_getitem w key) as -> by (by destruct w).
  by destruct (builtin_getitem w key).
Qed.

Lemma lookup_keyed f kvs nested key :
  scalar_key key = true →
  py_getitem f (VEach KMap (VDict kvs) nested) key
  = match f with
    | O => Err RecursionError
    | S _ => match assoc_find kvs key with
             | Some v => Ok v
             | None => Err KeyError
             end
    end.
Proof.
  intros Hkey. destruct f as [|f]; [done|].
  rewrite py_getitem_scalar by done.
  unfold builtin_getitem, dict_get. rewrite py_hashing_scalar by done.
  by destruct (assoc_find kvs key).
Qed.

Lemma assoc_find_wf kvs key v :
  wf (VDict kvs) → assoc_find kvs key = Some v → wf v.
Proof.
  intros [Hkvs _]%wf_dict. induction Hkvs as [|[k x] kvs [_ Hx] _ IH]; simpl;
    [done|].
  destruct (key_eqb k key); [by intros [= <-]|done].
Qed.

Lemma assoc_find_in_keys kvs key v :
  assoc_find kvs key = Some v → existsb (λ k, key_eqb k key) kvs.*1 = true.
Proof.
  induction kvs as [|[k x] kvs IH]; simpl; [done|].
  destruct (key_eqb k key); [done|]. simpl. exact IH.
Qed.

Lemma seq_index_Forall {A} (P : A → Prop) (xs : list A) key x :
  Forall P xs → seq_index xs key = Ok x → P x.
Proof.
  intros Hxs. unfold seq_index. destruct (as_index key); [|done].
  destruct (seq_position _ _) as [i|]; [|done].
  destruct (xs !! i) eqn:Hi; [|done]. intros [= <-].
  eapply Forall_lookup_1; eauto.
Qed.

Lemma builtin_getitem_wf w key v :
  wf w → scalar_key key = true → builtin_getitem w key = Ok v → wf v.
Proof.
  intros Hw Hkey. destruct w; try done; simpl.
  - assert (Forall wf (chars s)) as Hc.
    { unfold chars. rewrite Forall_fmap. by apply Forall_true. }
    destruct key; try done; by apply seq_index_Forall.
  - apply (wf_plain_items (VTuple xs) xs eq_refl) in Hw.
    destruct key; try done; by apply seq_index_Forall.
  - apply (wf_plain_items (VList xs) xs eq_refl) in Hw.
    destruct key; try done; by apply seq_index_Forall.
  - unfold dict_get. rewrite py_hashing_scalar by done.
    destruct (assoc_find kvs key) eqn:Hf; [|done]. intros [= <-].
    by eapply assoc_find_wf.
Qed.

(** *** The iterator a source contributes to an alignment *)

Lemma source_keyed f kvs nested n I :
  broadcast_to_indices f (VEach KMap (VDict kvs) nested) n I
  = Ok (iter_map (py_getitem f (VEach KMap (VDict kvs) nested))
          (iter_of_list (index_list I))).
Proof. done. Qed.

Lemma source_broadcast f w nested n I :
  py_len w = Ok 1%nat →
  broadcast_to_indices f (VEach KSeq w nested) n I
  = (first <- py_next (py_iter f (VEach KSeq w nested));;
     Ok (iter_of_list (replicate n first))).
Proof. intros Hl. unfold broadcast_to_indices. simpl. by rewrite Hl. Qed.

Lemma source_plain f w nested n m l :
  py_len w = Ok l → l ≠ 1%nat →
  broadcast_to_indices f (VEach KSeq w nested) n (IRange m)
  = if (l <? n)%nat then Err ValueError
    else EachContainer_values f (VEach KSeq w nested).
Proof.
  intros Hl Hl1. unfold broadcast_to_indices. simpl. rewrite Hl. simpl.
  apply Nat.eqb_neq in Hl1. by rewrite Hl1.
Qed.

(** The values a source yields in an alignment are well formed. *)
Lemma source_wf f s n I it :
  wf s → is_each s = true →
  (match I with IKeys ks => Forall (λ k, scalar_key k = true) ks | _ => True end) →
  broadcast_to_indices f s n I = Ok it → iter_Forall wf it.
Proof.
  intros Hs He HI. destruct s as [| | | | | | | | |k w nested]; try done.
  pose proof Hs as (Hsized & Hne & Hw & Hk)%wf_each.
  destruct (wf_each_len _ _ _ Hs) as [l Hl].
  destruct k.
  - destruct (decide (l = 1%nat)) as [->|Hl1].
    + rewrite source_broadcast by done.
      intros (first & Hfirst & [= <-])%bind_Ok.
      apply iter_Forall_of_list, Forall_replicate.
      eapply iter_Forall_next; [|exact Hfirst]. by apply py_iter_wf.
    + destruct I as [m|ks].
      * rewrite (source_plain _ _ _ _ _ l) by done.
        destruct (l <? n)%nat; [done|].
        unfold EachContainer_values. by apply values_with_wf.
      * unfold broadcast_to_indices. simpl. rewrite Hl. simpl.
        apply Nat.eqb_neq in Hl1. rewrite Hl1. intros [= <-].
        eapply iter_Forall_map; [|apply iter_Forall_of_list; exact HI].
        intros a b Ha. simpl in Ha.
        destruct f as [|f]; [done|].
        rewrite py_getitem_scalar by done.
        by apply builtin_getitem_wf.
  - destruct (Hk eq_refl) as [kvs ->]. rewrite source_keyed. intros [= <-].
    assert (Forall (λ k, scalar_key k = true) (index_list I)) as HI'.
    { destruct I as [m|ks]; [|done]. simpl. rewrite Forall_fmap.
      apply Forall_seq. done. }
    eapply iter_Forall_map; [|apply iter_Forall_of_list; exact HI'].
    intros a b Ha. simpl in Ha. rewrite lookup_keyed by done.
    destruct f; [done|]. destruct (assoc_find kvs a) eqn:Hf; [|done].
    intros [= <-]. by eapply assoc_find_wf.
Qed.

(** *** Zipping two sources in either order *)



Lemma swap_row_involutive (rows : list (list value)) :
  swap_row <$> (swap_row <$> rows) = rows.
Proof.
  rewrite <- list_fmap_compose. rewrite <- (list_fmap_id rows) at 2.
  apply list_fmap_ext. intros _ [|x [|y [|z row]]] _; done.
Qed.

Lemma iter_to_list_map_inv {A B} (g : A → result B) it l :
  iter_to_list (iter_map g it) = Ok l →
  ∃ rows, iter_to_list it = Ok rows ∧ map_result g rows = Ok l.
Proof.
  revert l. induction it as [| |a rest IH]; intros l; simpl.
  - intros [= <-]. by exists [].
  - done.
  - destruct (g a) as [b|e] eqn:Hg; simpl; [|done].
    intros (l' & Hl' & [= <-])%bind_Ok.
    destruct (IH l' Hl') as (rows & -> & Hrows).
    exists (a :: rows). simpl. by rewrite Hg, Hrows.
Qed.

Lemma zip_from_cons {A} (x y : A) a b :
  zip_from (ICons x a) [ICons y b] = ICons [x; y] (zip_from a [b]).
Proof. done. Qed.

Lemma zip_rows_Forall (P Q : value → Prop) a b rows :
  iter_Forall P a → iter_Forall Q b →
  iter_to_list (zip_from a [b]) = Ok rows → Forall (row_of P Q) rows.
Proof.
  revert b rows. induction a as [| |x a IH]; intros b rows; simpl.
  - by intros _ _ [= <-].
  - done.
  - intros [Hx Ha] Hb. destruct b as [| |y b]; simpl.
    + by intros [= <-].
    + done.
    + destruct Hb as [Hy Hb].
      intros (rows' & Hrows' & [= <-])%bind_Ok.
      constructor; [by exists x, y|]. eapply IH; eauto.
Qed.

(** The same two iterators zipped in the two orders pair the same values. *)
Lemma zip_swap (a b : iter value) rows1 rows2 :
  iter_to_list (zip_from a [b]) = Ok rows1 →
  iter_to_list (zip_from b [a]) = Ok rows2 →
  rows2 = swap_row <$> rows1.
Proof.
  revert b rows1 rows2. induction a as [| |x a IH]; intros b rows1 rows2.
  - simpl. intros [= <-]. destruct b; simpl; try done; by intros [= <-].
  - done.
  - destruct b as [| |y b].
    + simpl. by intros [= <-] [= <-].
    + done.
    + rewrite !zip_from_cons. simpl.
      intros (r1 & Hr1 & [= <-])%bind_Ok (r2 & Hr2 & [= <-])%bind_Ok.
      simpl. f_equal. by eapply IH.
Qed.


Lemma lookups_from_S lk j m :
  lookups_from lk j (S m)
  = match lk (VInt (Z.of_nat j)) with
    | Ok v => ICons v (lookups_from lk (S j) m)
    | Err e => IRaise e
    end.
Proof. done. Qed.

(** A keyed source looked up at [0..m-1] in one order and at [0..m'-1] in
    the other, against the same iterator: when the lookups cannot all succeed
    beyond [m], both orders pair the same values. *)
Lemma zip_prefix_lookups lk (V : iter value) m m' j rows1 rows2 :
  (m ≤ m')%nat →
  ((m < m')%nat →
   ¬ ∀ i, (i ≤ j + m)%nat → ∃ v, lk (VInt (Z.of_nat i)) = Ok v) →
  (∀ i, (i < j)%nat → ∃ v, lk (VInt (Z.of_nat i)) = Ok v) →
  iter_to_list (zip_from (lookups_from lk j m) [V]) = Ok rows1 →
  iter_to_list (zip_from V [lookups_from lk j m']) = Ok rows2 →
  rows2 = swap_row <$> rows1.
Proof.
  revert m' j V rows1 rows2.
  induction m as [|m IH]; intros m' j V rows1 rows2 Hle Hno Hbefore.
  - simpl. intros [= <-].
    destruct V as [| |v V]; simpl; [by intros [= <-]|done|].
    destruct m' as [|m']; [by intros [= <-]|].
    rewrite lookups_from_S.
    destruct (lk (VInt (Z.of_nat j))) as [x|e] eqn:Hj; simpl; [|done].
    exfalso. apply Hno; [lia|]. intros i Hi.
    destruct (decide (i = j)) as [->|]; [eauto|]. apply Hbefore. lia.
  - destruct m' as [|m']; [lia|].
    rewrite !lookups_from_S.
    destruct (lk (VInt (Z.of_nat j))) as [x|e] eqn:Hj; [|done].
    destruct V as [| |v V].
    + simpl. by intros [= <-] [= <-].
    + done.
    + rewrite !zip_from_cons. simpl.
      intros (r1 & Hr1 & [= <-])%bind_Ok (r2 & Hr2 & [= <-])%bind_Ok.
      simpl. f_equal. eapply (IH m' (S j)); eauto.
      * lia.
      * intros Hlt Hall. apply Hno; [lia|].
        intros i Hi. apply Hall. lia.
      * intros i Hi. destruct (decide (i = j)) as [->|]; [eauto|].
        apply Hbefore. lia.
Qed.

(** A dict with [n] entries does not hold the [n + 1] keys [0..n]. *)
Lemma key_eqb_int_inj k (i i' : nat) :
  key_eqb k (VInt (Z.of_nat i)) = true → key_eqb k (VInt (Z.of_nat i')) = true →
  i = i'.
Proof.
  destruct k; simpl; try done;
    intros ?%Z.eqb_eq ?%Z.eqb_eq; lia.
Qed.

Lemma keys_hold_at_most (ks : list value) (S : list nat) :
  NoDup S →
  (∀ i, i ∈ S → existsb (λ k, key_eqb k (VInt (Z.of_nat i))) ks = true) →
  (length S ≤ length ks)%nat.
Proof.
  revert S. induction ks as [|k ks IH]; intros S HS Hin.
  - destruct S as [|i S]; [done|]. by specialize (Hin i (list_elem_of_here _ _)).
  - destruct (decide (Exists (λ i, key_eqb k (VInt (Z.of_nat i)) = true) S))
      as [Hex|Hno].
    + apply Exists_exists in Hex as (i0 & Hi0 & Hk0).
      apply list_elem_of_split in Hi0 as (l1 & l2 & ->).
      apply NoDup_app in HS as (Hl1 & Hdisj & Hl2).
      apply NoDup_cons in Hl2 as [Hi0 Hl2].
      rewrite length_app. simpl.
      assert (length (l1 ++ l2) ≤ length ks)%nat; [|rewrite length_app in *; lia].
      apply IH.
      * apply NoDup_app. repeat split; [done| |done].
        intros x Hx1 Hx2. apply (Hdisj x Hx1). by right.
      * intros i Hi.
        assert (i ≠ i0) as Hne.
        { intros ->. apply elem_of_app in Hi as [Hi|Hi]; [|done].
          apply (Hdisj i0 Hi). by left. }
        assert (i ∈ l1 ++ i0 :: l2) as Hi'.
        { apply elem_of_app in Hi as [Hi|Hi]; apply elem_of_app;
            [by left|right; by right]. }
        specialize (Hin i Hi'). simpl in Hin.
        apply orb_true_iff in Hin as [Hin|Hin]; [|done].
        destruct Hne. by eapply key_eqb_int_inj.
    + simpl. apply Nat.le_le_succ_r, IH; [done|].
      intros i Hi. specialize (Hin i Hi). simpl in Hin.
      apply orb_true_iff in Hin as [Hin|Hin]; [|done].
      destruct Hno. apply Exists_exists. eauto.
Qed.

Lemma dict_lacks_a_key kvs :
  ¬ ∀ i, (i ≤ 0 + length kvs)%nat →
         ∃ v, assoc_find kvs (VInt (Z.of_nat i)) = Some v.
Proof.
  intros Hall.
  assert (length (seq 0 (S (length kvs))) ≤ length kvs.*1)%nat as Hle.
  { apply keys_hold_at_most; [apply NoDup_seq|].
    intros i Hi%elem_of_seq. destruct (Hall i) as [v Hv]; [lia|].
    by eapply assoc_find_in_keys. }
  rewrite length_seq, length_fmap in Hle. lia.
Qed.

(** *** The results of dual tests on the same pairs *)

Lemma results_dual (g1 g2 : list value → result value) rows l1 l2 :
  Forall (row_of wf wf) rows →
  (∀ x y t1 t2, wf x → wf y →
     g1 [x; y] = Ok t1 → g2 [y; x] = Ok t2 → same_content t1 t2) →
  map_result g1 rows = Ok l1 →
  map_result g2 (swap_row <$> rows) = Ok l2 →
  Forall2 same_content l1 l2.
Proof.
  intros Hrows Hdual. revert l1 l2.
  induction Hrows as [|row rows (x & y & -> & Hx & Hy) _ IH]; intros l1 l2.
  - simpl. by intros [= <-] [= <-].
  - simpl.
    intros (t1 & Ht1 & (l1' & Hl1 & [= <-])%bind_Ok)%bind_Ok
           (t2 & Ht2 & (l2' & Hl2 & [= <-])%bind_Ok)%bind_Ok.
    constructor; eauto.
Qed.

(** *** Keys *)


Lemma key_eqb_scalar_sym a b :
  scalar_key a = true → scalar_key b = true → key_eqb a b = key_eqb b a.
Proof.
  destruct a, b; try done; simpl; intros _ _;
    first [apply Z.eqb_sym | apply bool_decide_ext; split; congruence].
Qed.

Lemma key_eqb_scalar_trans a b c :
  scalar_key a = true → scalar_key b = true → scalar_key c = true →
  key_eqb a b = true → key_eqb b c = true → key_eqb a c = true.
Proof.
  destruct a, b; try done; destruct c; try done; simpl; intros _ _ _;
    rewrite ?Z.eqb_eq, ?bool_decide_eq_true; congruence.
Qed.

Lemma key_eqb_respects k a b :
  scalar_key k = true → scalar_key a = true → scalar_key b = true →
  key_eqb a b = true → key_eqb k a = key_eqb k b.
Proof.
  intros Hk Ha Hb Hab.
  destruct (key_eqb k a) eqn:H1, (key_eqb k b) eqn:H2; try done.
  - by rewrite (key_eqb_scalar_trans k a b) in H2.
  - rewrite (key_eqb_scalar_trans k b a) in H1; try done.
    by rewrite key_eqb_scalar_sym.
Qed.

Lemma assoc_find_respects kvs a b :
  Forall (λ kv, scalar_key kv.1 = true) kvs →
  scalar_key a = true → scalar_key b = true → key_eqb a b = true →
  assoc_find kvs a = assoc_find kvs b.
Proof.
  intros Hkvs Ha Hb Hab. induction Hkvs as [|[k v] kvs Hk _ IH]; simpl; [done|].
  simpl in Hk. by rewrite (key_eqb_respects k a b), IH.
Qed.

Lemma has_key_respects ks a b :
  Forall (λ k, scalar_key k = true) ks →
  scalar_key a = true → scalar_key b = true → key_eqb a b = true →
  has_key ks a = has_key ks b.
Proof.
  intros Hks Ha Hb Hab. unfold has_key.
  induction Hks as [|k ks Hk _ IH]; simpl; [done|].
  by rewrite (key_eqb_respects k a b), IH.
Qed.

Lemma assoc_find_has_key kvs key :
  is_Some (assoc_find kvs key) ↔ has_key kvs.*1 key = true.
Proof.
  unfold has_key. induction kvs as [|[k v] kvs IH]; simpl.
  - split; [by intros [??]|done].
  - destruct (key_eqb k key); simpl; [|done]. split; eauto.
Qed.

(** *** The dict of the results of a keyed alignment *)

Lemma assoc_set_fresh kvs key v :
  has_key kvs.*1 key = false → assoc_set kvs key v = kvs ++ [(key, v)].
Proof.
  unfold has_key. induction kvs as [|[k x] kvs IH]; simpl; [done|].
  intros [Hk Hrest]%orb_false_iff. rewrite Hk. by rewrite IH.
Qed.

(** The dict comprehension of [B.__call__] over the keys [ks], the value for
    a key being computed by [H]. *)
Lemma dict_of_keys (H : value → result value) ks acc d :
  Forall (λ k, scalar_key k = true) ks → distinct_keys ks = true →
  Forall (λ k, scalar_key k = true) acc.*1 →
  (∀ k, k ∈ ks → has_key acc.*1 k = false) →
  dict_comprehension (λ _ v, Ok v) acc
    (iter_zip (iter_of_list ks) (iter_map H (iter_of_list ks))) = Ok d →
  ∃ ts, map_result H ks = Ok ts ∧ d = acc ++ zip ks ts.
Proof.
  intros Hks. revert acc d.
  induction Hks as [|k ks Hk Hks IH]; intros acc d Hdist Hacc Hfresh; simpl.
  - intros [= <-]. exists []. by rewrite app_nil_r.
  - destruct (H k) as [t|e] eqn:Ht; simpl; [|done].
    unfold dict_set. rewrite py_hashing_scalar by done. simpl.
    rewrite assoc_set_fresh by (apply Hfresh; by left).
    simpl in Hdist. apply andb_true_iff in Hdist as [Hk' Hdist].
    apply negb_true_iff in Hk'.
    intros Hd. apply IH in Hd as (ts & -> & ->); [| done | |].
    + exists (t :: ts). split; [done|]. by rewrite <- app_assoc.
    + rewrite fmap_app. apply Forall_app. split; [done|]. by repeat constructor.
    + intros k' Hk'in. rewrite fmap_app. unfold has_key.
      rewrite existsb_app. apply orb_false_iff. split.
      * apply Hfresh. by right.
      * simpl. rewrite orb_false_r.
        destruct (key_eqb k k') eqn:Heq; [|done]. exfalso.
        assert (existsb (key_eqb k) ks = true) as Hex; [|congruence].
        apply existsb_exists. exists k'. split; [by apply list_elem_of_In|done].
Qed.

Lemma assoc_find_zip (H : value → result value) ks ts key :
  Forall (λ k, scalar_key k = true) ks → scalar_key key = true →
  (∀ k, scalar_key k = true → key_eqb k key = true → H k = H key) →
  map_result H ks = Ok ts →
  assoc_find (zip ks ts) key
  = if has_key ks key then match H key with Ok t => Some t | Err _ => None end
    else None.
Proof.
  intros Hks Hkey Hresp. revert ts.
  induction Hks as [|k ks Hk _ IH]; intros ts; simpl.
  - by intros [= <-].
  - intros (t & Ht & (ts' & Hts & [= <-])%bind_Ok)%bind_Ok. simpl.
    destruct (key_eqb k key) eqn:Heq; simpl.
    + by rewrite <- (Hresp k), Ht.
    + by apply IH.
Qed.

Lemma key_eqb_other_kind k key :
  scalar_key k = true → scalar_key key = false → key_eqb k key = false.
Proof. by destruct k, key. Qed.

Lemma assoc_find_other_kind ks (ts : list value) key :
  Forall (λ k, scalar_key k = true) ks → scalar_key key = false →
  assoc_find (zip ks ts) key = None.
Proof.
  intros Hks Hkey. revert ts.
  induction Hks as [|k ks Hk _ IH]; intros [|t ts]; simpl; try done.
  by rewrite key_eqb_other_kind.
Qed.

Lemma map_result_has_key (H : value → result value) ks ts key :
  Forall (λ k, scalar_key k = true) ks →
  (∀ k, scalar_key k = true → key_eqb k key = true → H k = H key) →
  map_result H ks = Ok ts → has_key ks key = true → ∃ t, H key = Ok t.
Proof.
  intros Hks Hresp. revert ts.
  induction Hks as [|k ks Hk _ IH]; intros ts; simpl; [done|].
  intros (t & Ht & (ts' & Hts & [= <-])%bind_Ok)%bind_Ok.
  destruct (key_eqb k key) eqn:Heq; simpl.
  - intros _. exists t. by rewrite <- (Hresp k).
  - by apply (IH ts').
Qed.

Lemma zip_from_lookups (lk1 lk2 : value → result value) ks :
  zip_from (iter_map lk1 (iter_of_list ks)) [iter_map lk2 (iter_of_list ks)]
  = iter_map (λ k, x <- lk1 k;; y <- lk2 k;; Ok [x; y]) (iter_of_list ks).
Proof.
  induction ks as [|k ks IH]; simpl; [done|].
  destruct (lk1 k) as [x|e]; simpl; [|done].
  destruct (lk2 k) as [y|e]; simpl; [|done].
  by rewrite IH.
Qed.

Lemma iter_map_compose {A B C} (h : A → result B) (g : B → result C) it :
  iter_map g (iter_map h it) = iter_map (λ a, b <- h a;; g b) it.
Proof.
  induction it as [| |a rest IH]; simpl; try done.
  destruct (h a) as [b|e]; simpl; [|done].
  destruct (g b); simpl; [|done]. by rewrite IH.
Qed.

Lemma replicate_as_lookups {A} (v : value) (ks : list A) :
  iter_of_list (replicate (length ks) v)
  = iter_map (λ _, Ok v) (iter_of_list ks).
Proof. induction ks as [|k ks IH]; simpl; [done|]. by rewrite IH. Qed.


Lemma B_call_range S E M n m it r :
  is_each E = true →
  B_call {| B_sources := S; B_E := E; B_model := M; B_n := n;
            B_indices := IRange m |} it = Ok r →
  ∃ l, iter_to_list it = Ok l ∧ r = VEach KSeq (VList l) (NNum 1).
Proof.
  unfold B_call. simpl. intros ->. intros (l & Hl & [= <-])%bind_Ok. eauto.
Qed.

(** Positional alignments: when the two orders pair the same values, the
    two results have the same content. *)
Lemma finish_range g1 g2 S1 S2 EA EB M1 M2 n1 n2 m1 m2 a1 b1 a2 b2 r1 r2 :
  is_each EA = true → is_each EB = true →
  iter_Forall wf a1 → iter_Forall wf b1 →
  (∀ rows1 rows2,
     iter_to_list (zip_from a1 [b1]) = Ok rows1 →
     iter_to_list (zip_from b2 [a2]) = Ok rows2 →
     rows2 = swap_row <$> rows1) →
  dual_tests g1 g2 →
  B_call {| B_sources := S1; B_E := EA; B_model := M1; B_n := n1;
            B_indices := IRange m1 |} (iter_map g1 (zip_from a1 [b1])) = Ok r1 →
  B_call {| B_sources := S2; B_E := EB; B_model := M2; B_n := n2;
            B_indices := IRange m2 |} (iter_map g2 (zip_from b2 [a2])) = Ok r2 →
  same_content r1 r2.
Proof.
  intros HEA HEB Ha Hb Hrows Hdual
    (l1 & (rows1 & Hrows1 & Hl1)%iter_to_list_map_inv & ->)%B_call_range
    (l2 & (rows2 & Hrows2 & Hl2)%iter_to_list_map_inv & ->)%B_call_range;
    try done.
  rewrite (Hrows rows1 rows2 Hrows1 Hrows2) in Hl2.
  apply same_each, same_list.
  apply (results_dual g1 g2 rows1); try done.
  by apply (zip_rows_Forall wf wf a1 b1).
Qed.

(** Keyed alignments, on the keys [ks1] in one order and [ks2] in the other,
    each source being looked up with the same function in both. *)
Lemma finish_keys g1 g2 S1 S2 E1 E2 M1 M2 n1 n2 ks1 ks2
    (lkA lkB : value → result value) r1 r2 :
  Forall (λ k, scalar_key k = true) ks1 → distinct_keys ks1 = true →
  Forall (λ k, scalar_key k = true) ks2 → distinct_keys ks2 = true →
  (∀ k k', scalar_key k = true → scalar_key k' = true → key_eqb k k' = true →
           lkA k = lkA k' ∧ lkB k = lkB k') →
  (∀ k v, scalar_key k = true → lkA k = Ok v → wf v) →
  (∀ k v, scalar_key k = true → lkB k = Ok v → wf v) →
  (∀ k v, scalar_key k = true → has_key ks1 k = true → lkB k = Ok v →
          has_key ks2 k = true) →
  (∀ k v, scalar_key k = true → has_key ks2 k = true → lkA k = Ok v →
          has_key ks1 k = true) →
  dual_tests g1 g2 →
  B_call {| B_sources := S1; B_E := E1; B_model := M1; B_n := n1;
            B_indices := IKeys ks1 |}
    (iter_map g1 (zip_from (iter_map lkA (iter_of_list ks1))
                    [iter_map lkB (iter_of_list ks1)])) = Ok r1 →
  B_call {| B_sources := S2; B_E := E2; B_model := M2; B_n := n2;
            B_indices := IKeys ks2 |}
    (iter_map g2 (zip_from (iter_map lkB (iter_of_list ks2))
                    [iter_map lkA (iter_of_list ks2)])) = Ok r2 →
  same_content r1 r2.
Proof.
  intros Hks1 Hd1 Hks2 Hd2 Hresp HwfA HwfB Hin12 Hin21 Hdual.
  unfold B_call. simpl. rewrite !zip_from_lookups, !iter_map_compose.
  set (H1 := λ k, b <- (x <- lkA k;; y <- lkB k;; Ok [x; y]);; g1 b).
  set (H2 := λ k, b <- (y <- lkB k;; x <- lkA k;; Ok [y; x]);; g2 b).
  intros (d1 & Hdict1 & [= <-])%bind_Ok (d2 & Hdict2 & [= <-])%bind_Ok.
  apply dict_of_keys in Hdict1 as (ts1 & Hts1 & ->); [|done..].
  apply dict_of_keys in Hdict2 as (ts2 & Hts2 & ->); [|done..].
  simpl. apply same_each, same_dict. intros key.
  destruct (scalar_key key) eqn:Hkey;
    [|rewrite !assoc_find_other_kind by done; constructor].
  assert (∀ k, scalar_key k = true → key_eqb k key = true → H1 k = H1 key)
    as Hresp1.
  { intros k Hk Heq. unfold H1.
    by destruct (Hresp k key Hk Hkey Heq) as [-> ->]. }
  assert (∀ k, scalar_key k = true → key_eqb k key = true → H2 k = H2 key)
    as Hresp2.
  { intros k Hk Heq. unfold H2.
    by destruct (Hresp k key Hk Hkey Heq) as [-> ->]. }
  rewrite (assoc_find_zip H1), (assoc_find_zip H2) by done.
  destruct (has_key ks1 key) eqn:Hk1, (has_key ks2 key) eqn:Hk2.
  - destruct (map_result_has_key H1 ks1 ts1 key) as [t1 Ht1]; try done.
    destruct (map_result_has_key H2 ks2 ts2 key) as [t2 Ht2]; try done.
    rewrite Ht1, Ht2. constructor.
    unfold H1 in Ht1. unfold H2 in Ht2.
    apply bind_Ok in Ht1 as (row1 & (x & Hx & (y & Hy & [= <-])%bind_Ok)%bind_Ok & Ht1).
    rewrite Hx, Hy in Ht2. simpl in Ht2.
    apply (Hdual x y); [by apply (HwfA key)|by apply (HwfB key)|done..].
  - destruct (map_result_has_key H1 ks1 ts1 key) as [t1 Ht1]; try done.
    unfold H1 in Ht1.
    apply bind_Ok in Ht1 as (row1 & (x & Hx & (y & Hy & [= <-])%bind_Ok)%bind_Ok & Ht1).
    by rewrite (Hin12 key y) in Hk2.
  - destruct (map_result_has_key H2 ks2 ts2 key) as [t2 Ht2]; try done.
    unfold H2 in Ht2.
    apply bind_Ok in Ht2 as (row2 & (y & Hy & (x & Hx & [= <-])%bind_Ok)%bind_Ok & Ht2).
    by rewrite (Hin21 key x) in Hk1.
  - constructor.
Qed.

(** *** The two alignments of a pair of each-containers *)

Section duality.
Variable py_in : value → value → result value.


Lemma each_membership_S f dual A k w nested :
  each_membership py_in (S f) dual A [VEach k w nested]
  = (B <- BroadcastHandler_init f [A; VEach k w nested] false;;
     rows <- B_iter f B;;
     B_call B (iter_map (member_test py_in f dual) rows)).
Proof. done. Qed.

Lemma B_iter_two f A B E M n I rows :
  B_iter f {| B_sources := [A; B]; B_E := E; B_model := M; B_n := n;
              B_indices := I |} = Ok rows →
  ∃ a b, broadcast_to_indices f A n I = Ok a
       ∧ broadcast_to_indices f B n I = Ok b
       ∧ rows = zip_from a [b].
Proof.
  unfold B_iter. simpl.
  intros (its & Hits & [= <-])%bind_Ok. revert Hits.
  intros (a & Ha & (bs & (b & Hb & [= <-])%bind_Ok & [= <-])%bind_Ok)%bind_Ok.
  exists a, b. repeat split; [|].
  - by destruct (broadcast_to_indices f A n I) as [|[]].
  - by destruct (broadcast_to_indices f B n I) as [|[]].
Qed.

Lemma keyed_source_lookups f kvs nested :
  wf (VEach KMap (VDict kvs) nested) →
  let lk := py_getitem f (VEach KMap (VDict kvs) nested) in
  (∀ k k', scalar_key k = true → scalar_key k' = true →
           key_eqb k k' = true → lk k = lk k')
  ∧ (∀ k v, scalar_key k = true → lk k = Ok v → wf v)
  ∧ (∀ k v, scalar_key k = true → lk k = Ok v → has_key kvs.*1 k = true).
Proof.
  intros (_ & _ & Hw & _)%wf_each. pose proof Hw as [Hkvs _]%wf_dict.
  assert (Forall (λ kv, scalar_key kv.1 = true) kvs) as Hkeys.
  { eapply Forall_impl; [exact Hkvs|]. by intros kv [? _]. }
  simpl. repeat split.
  - intros k k' Hk Hk' Heq. rewrite !lookup_keyed by done.
    destruct f; [done|]. by rewrite (assoc_find_respects kvs k k').
  - intros k v Hk. rewrite lookup_keyed by done. destruct f; [done|].
    destruct (assoc_find kvs k) eqn:Hf; [|done]. intros [= <-].
    by eapply assoc_find_wf.
  - intros k v Hk. rewrite lookup_keyed by done. destruct f; [done|].
    destruct (assoc_find kvs k) eqn:Hf; [|done]. intros _.
    apply assoc_find_has_key. by rewrite Hf.
Qed.

Lemma broadcast_source_lookups f w nested (ks : list value) I it :
  wf (VEach KSeq w nested) → py_len w = Ok 1%nat →
  broadcast_to_indices f (VEach KSeq w nested) (length ks) I = Ok it →
  ∃ first, wf first ∧ it = iter_map (λ _, Ok first) (iter_of_list ks).
Proof.
  intros Hwf Hl. rewrite source_broadcast by done.
  intros (first & Hfirst & [= <-])%bind_Ok. exists first. split.
  - eapply iter_Forall_next; [|exact Hfirst]. by apply py_iter_wf.
  - apply replicate_as_lookups.
Qed.

Lemma dual_tests_step f dual :
  (∀ A B r1 r2, wf A → wf B → is_each A = true → is_each B = true →
     each_membership py_in f dual A [B] = Ok r1 →
     each_membership py_in f (negb dual) B [A] = Ok r2 →
     same_content r1 r2) →
  dual_tests (member_test py_in f dual) (member_test py_in f (negb dual)).
Proof.
  intros IH x y t1 t2 Hx Hy. unfold member_test. simpl.
  rewrite negb_involutive.
  destruct (is_each x) eqn:Ex, (is_each y) eqn:Ey.
  - by apply IH.
  - intros -> [= <-]. constructor.
  - intros -> [= <-]. constructor.
  - destruct dual; simpl; intros -> [= <-]; constructor.
Qed.

Lemma not_broadcastable_each k w nested l :
  py_len w = Ok l →
  not_broadcastable (VEach k w nested)
  = Ok (negb (l =? 1)%nat || is_mapping (VEach k w nested)).
Proof. intros Hl. unfold not_broadcastable. simpl. by rewrite Hl. Qed.

(** The handler of two each-containers, by their lengths and kinds. *)
Lemma handler_two f kA wA nA kB wB nB la lb :
  py_len wA = Ok la → py_len wB = Ok lb →
  let A := VEach kA wA nA in
  let B := VEach kB wB nB in
  let nbA := negb (la =? 1)%nat || is_mapping A in
  let nbB := negb (lb =? 1)%nat || is_mapping B in
  let M := if nbA then A else if nbB then B else A in
  let n := if nbA then la else if nbB then lb else la in
  let keyed := is_mapping M && ((la =? 1)%nat || is_mapping A)
               && ((lb =? 1)%nat || is_mapping B) in
  BroadcastHandler_init f [A; B] false
  = (indices <- (if keyed then IKeys <$> py_keys_method M else Ok (IRange n));;
     Ok {| B_sources := [A; B]; B_E := A; B_model := M; B_n := n;
           B_indices := indices |}).
Proof.
  intros HlA HlB. simpl. unfold BroadcastHandler_init. simpl.
  unfold as_sized_iterable. simpl. rewrite HlA, HlB. simpl.
  rewrite (not_broadcastable_each kA wA nA la), (not_broadcastable_each kB wB nB lb)
    by done.
  simpl.
  destruct kA, kB, (la =? 1)%nat eqn:Ea, (lb =? 1)%nat eqn:Eb; simpl;
    rewrite ?HlA, ?HlB; simpl; rewrite ?HlA, ?HlB; simpl;
    rewrite ?Ea, ?Eb; done.
Qed.

(** A keyed source aligned by position with a longer plain one: the lookups
    of the longer range fail where those of the shorter one end, or
    before. *)
Lemma keyed_plain_rows f kvs nested (V : iter value) m' rows1 rows2 :
  (length kvs ≤ m')%nat →
  let lk := py_getitem f (VEach KMap (VDict kvs) nested) in
  iter_to_list
    (zip_from (iter_map lk (iter_of_list (index_list (IRange (length kvs)))))
       [V]) = Ok rows1 →
  iter_to_list
    (zip_from V [iter_map lk (iter_of_list (index_list (IRange m')))])
    = Ok rows2 →
  rows2 = swap_row <$> rows1.
Proof.
  intros Hle lk.
  apply (zip_prefix_lookups lk V (length kvs) m' 0); [done| |intros i; lia].
  intros _ Hall. apply (dict_lacks_a_key kvs). intros i Hi.
  destruct (Hall i Hi) as [v Hv]. unfold lk in Hv.
  rewrite lookup_keyed in Hv by done. destruct f; [done|].
  destruct (assoc_find kvs (VInt (Z.of_nat i))); [eauto|done].
Qed.

Lemma range_pair f dual A B S1 S2 M1 M2 n1 n2 m1 m2 m a1 b1 a2 b2 r1 r2 :
  wf A → wf B → is_each A = true → is_each B = true →
  dual_tests (member_test py_in f dual) (member_test py_in f (negb dual)) →
  broadcast_to_indices f A m (IRange m) = Ok a1 →
  broadcast_to_indices f B m (IRange m) = Ok b1 →
  (∀ rows1 rows2,
     iter_to_list (zip_from a1 [b1]) = Ok rows1 →
     iter_to_list (zip_from b2 [a2]) = Ok rows2 →
     rows2 = swap_row <$> rows1) →
  B_call {| B_sources := S1; B_E := A; B_model := M1; B_n := n1;
            B_indices := IRange m1 |}
    (iter_map (member_test py_in f dual) (zip_from a1 [b1])) = Ok r1 →
  B_call {| B_sources := S2; B_E := B; B_model := M2; B_n := n2;
            B_indices := IRange m2 |}
    (iter_map (member_test py_in f (negb dual)) (zip_from b2 [a2])) = Ok r2 →
  same_content r1 r2.
Proof.
  intros HA HB EA EB Hdual Ha1 Hb1 Hrows H1 H2.
  eapply (finish_range _ _ _ _ _ _ _ _ _ _ _ _ a1 b1 a2 b2);
    [exact EA|exact EB| | |exact Hrows|exact Hdual|exact H1|exact H2].
  - by eapply (source_wf _ _ _ _ _ HA); [done| |exact Ha1].
  - by eapply (source_wf _ _ _ _ _ HB); [done| |exact Hb1].
Qed.

Lemma wf_keys kvs nested :
  wf (VEach KMap (VDict kvs) nested) →
  Forall (λ k, scalar_key k = true) kvs.*1 ∧ distinct_keys kvs.*1 = true.
Proof.
  intros (_ & _ & [Hkvs Hd]%wf_dict & _)%wf_each. split; [|done].
  rewrite Forall_fmap. eapply Forall_impl; [exact Hkvs|]. by intros kv [? _].
Qed.


(** The two tests of a pair of well-formed each-containers, by induction on
    the depth of the nesting: the alignments of the two orders pair the same
    members, by position or by key, and the pairs are tested by dual
    tests. *)
Lemma membership_dual_each f : ∀ dual A B r1 r2,
  wf A → wf B → is_each A = true → is_each B = true →
  each_membership py_in f dual A [B] = Ok r1 →
  each_membership py_in f (negb dual) B [A] = Ok r2 →
  same_content r1 r2.
Proof.
  induction f as [|f IH]; intros dual A B r1 r2 HA HB EA EB; [done|].
  destruct A as [| | | | | | | | |kA wA nA]; try done.
  destruct B as [| | | | | | | | |kB wB nB]; try done.
  pose proof (dual_tests_step f dual (IH dual)) as Hdual.
  destruct (wf_each_len _ _ _ HA) as [la HlA].
  destruct (wf_each_len _ _ _ HB) as [lb HlB].
  pose proof HA as (_ & _ & _ & HkA)%wf_each.
  pose proof HB as (_ & _ & _ & HkB)%wf_each.
  rewrite !each_membership_S.
  rewrite (handler_two f kA wA nA kB wB nB la lb),
    (handler_two f kB wB nB kA wA nA lb la) by done.
  destruct kA, kB.
  - clear HkA HkB.
    destruct (la =? 1)%nat eqn:Ea, (lb =? 1)%nat eqn:Eb; simpl.
    all: intros (rows1 & (a1 & b1 & Ha1 & Hb1 & ->)%B_iter_two & H1)%bind_Ok
                (rows2 & (b2 & a2 & Hb2 & Ha2 & ->)%B_iter_two & H2)%bind_Ok.
    all: try apply Nat.eqb_eq in Ea as ->; try apply Nat.eqb_eq in Eb as ->.
    all: try apply Nat.eqb_neq in Ea; try apply Nat.eqb_neq in Eb.
    4: { assert (la = lb) as ->.
         { rewrite (source_plain _ _ _ _ _ lb) in Hb1 by done.
           rewrite (source_plain _ _ _ _ _ la) in Ha2 by done.
           destruct (lb <? la)%nat eqn:E1; [done|].
           destruct (la <? lb)%nat eqn:E2; [done|].
           apply Nat.ltb_ge in E1, E2. lia. }
         assert (a2 = a1) as -> by congruence.
         assert (b2 = b1) as -> by congruence.
         eapply (range_pair f dual _ _ _ _ _ _ _ _ _ _ _ a1 b1 a1 b1);
           [exact HA|exact HB|done|done|exact Hdual|exact Ha1|exact Hb1
           |apply zip_swap|exact H1|exact H2]. }
    all: assert (a2 = a1) as -> by congruence.
    all: assert (b2 = b1) as -> by congruence.
    all: eapply (range_pair f dual _ _ _ _ _ _ _ _ _ _ _ a1 b1 a1 b1);
           [exact HA|exact HB|done|done|exact Hdual|exact Ha1|exact Hb1
           |apply zip_swap|exact H1|exact H2].
  - destruct (HkB eq_refl) as [kvsB ->]. clear HkA HkB.
    simpl in HlB. injection HlB as <-.
    destruct (la =? 1)%nat eqn:Ea; simpl; rewrite ?orb_true_r; simpl.
    all: intros (rows1 & (a1 & b1 & Ha1 & Hb1 & ->)%B_iter_two & H1)%bind_Ok
                (rows2 & (b2 & a2 & Hb2 & Ha2 & ->)%B_iter_two & H2)%bind_Ok.
    all: try apply Nat.eqb_eq in Ea as ->.
    all: try apply Nat.eqb_neq in Ea.
    + assert (a2 = a1) as -> by congruence.
      assert (b2 = b1) as -> by congruence.
      rewrite source_keyed in Hb1. injection Hb1 as <-.
      replace (length kvsB) with (length kvsB.*1) in Ha1 by apply length_fmap.
      apply broadcast_source_lookups in Ha1 as (first & Hfirst & ->); [|done..].
      destruct (wf_keys _ _ HB) as [Hks Hd].
      destruct (keyed_source_lookups f kvsB nB HB) as (Hresp & Hwf & Hin).
      eapply (finish_keys _ _ _ _ _ _ _ _ _ _ kvsB.*1 kvsB.*1
                (λ _, Ok first) (py_getitem f (VEach KMap (VDict kvsB) nB)));
        [done|done|done|done| | | | | |exact Hdual|exact H1|exact H2].
      * intros k k' Hk Hk' Heq. split; [done|by apply Hresp].
      * by intros k v _ [= <-].
      * exact Hwf.
      * done.
      * done.
    + pose proof Ha1 as Ha1'.
      rewrite (source_plain _ _ _ _ _ la) in Ha1' by done.
      rewrite (source_plain _ _ _ _ _ la) in Ha2 by done.
      rewrite Nat.ltb_irrefl in Ha1'.
      destruct (la <? length kvsB)%nat eqn:Hle; [done|].
      apply Nat.ltb_ge in Hle.
      assert (a2 = a1) as -> by congruence.
      rewrite source_keyed in Hb1, Hb2.
      injection Hb1 as <-. injection Hb2 as <-.
      eapply (range_pair f dual _ _ _ _ _ _ _ _ _ _ _ a1 _ a1 _);
        [exact HA|exact HB|done|done|exact Hdual|exact Ha1|apply source_keyed
        | |exact H1|exact H2].
      intros rows1 rows2 Hrows1 Hrows2.
      rewrite (keyed_plain_rows f kvsB nB a1 la rows2 rows1 Hle Hrows2 Hrows1).
      by rewrite swap_row_involutive.
  - destruct (HkA eq_refl) as [kvsA ->]. clear HkA HkB.
    simpl in HlA. injection HlA as <-.
    destruct (lb =? 1)%nat eqn:Eb; simpl; rewrite ?orb_true_r; simpl.
    all: intros (rows1 & (a1 & b1 & Ha1 & Hb1 & ->)%B_iter_two & H1)%bind_Ok
                (rows2 & (b2 & a2 & Hb2 & Ha2 & ->)%B_iter_two & H2)%bind_Ok.
    all: try apply Nat.eqb_eq in Eb as ->.
    all: try apply Nat.eqb_neq in Eb.
    + assert (a2 = a1) as -> by congruence.
      assert (b2 = b1) as -> by congruence.
      rewrite source_keyed in Ha1. injection Ha1 as <-.
      replace (length kvsA) with (length kvsA.*1) in Hb1 by apply length_fmap.
      apply broadcast_source_lookups in Hb1 as (first & Hfirst & ->); [|done..].
      destruct (wf_keys _ _ HA) as [Hks Hd].
      destruct (keyed_source_lookups f kvsA nA HA) as (Hresp & Hwf & Hin).
      eapply (finish_keys _ _ _ _ _ _ _ _ _ _ kvsA.*1 kvsA.*1
                (py_getitem f (VEach KMap (VDict kvsA) nA)) (λ _, Ok first));
        [done|done|done|done| | | | | |exact Hdual|exact H1|exact H2].
      * intros k k' Hk Hk' Heq. split; [by apply Hresp|done].
      * exact Hwf.
      * by intros k v _ [= <-].
      * done.
      * done.
    + pose proof Hb2 as Hb2'.
      rewrite (source_plain _ _ _ _ _ lb) in Hb2' by done.
      rewrite (source_plain _ _ _ _ _ lb) in Hb1 by done.
      rewrite Nat.ltb_irrefl in Hb2'.
      destruct (lb <? length kvsA)%nat eqn:Hle; [done|].
      apply Nat.ltb_ge in Hle.
      assert (b2 = b1) as -> by congruence.
      rewrite source_keyed in Ha1, Ha2.
      injection Ha1 as <-. injection Ha2 as <-.
      eapply (range_pair f dual _ _ _ _ _ _ _ _ _ _ _ _ b1 _ b1);
        [exact HA|exact HB|done|done|exact Hdual|apply source_keyed| 
        | |exact H1|exact H2].
      * rewrite (source_plain _ _ _ _ _ lb) by done.
        apply Nat.ltb_ge in Hle. rewrite Hle. exact Hb1.
      * intros rows1 rows2.
        apply (keyed_plain_rows f kvsA nA b1 lb rows1 rows2 Hle).
  - destruct (HkA eq_refl) as [kvsA ->]. destruct (HkB eq_refl) as [kvsB ->].
    clear HkA HkB. simpl in HlA, HlB. injection HlA as <-. injection HlB as <-.
    simpl; rewrite ?orb_true_r; simpl. intros H1 H2.
    destruct (wf_keys _ _ HA) as [HksA HdA].
    destruct (wf_keys _ _ HB) as [HksB HdB].
    destruct (keyed_source_lookups f kvsA nA HA) as (HrespA & HwfA & HinA).
    destruct (keyed_source_lookups f kvsB nB HB) as (HrespB & HwfB & HinB).
    eapply (finish_keys _ _ _ _ _ _ _ _ _ _ kvsA.*1 kvsB.*1
              (py_getitem f (VEach KMap (VDict kvsA) nA))
              (py_getitem f (VEach KMap (VDict kvsB) nB)));
      [done|done|done|done| | | | | |exact Hdual|exact H1|exact H2].
    + intros k k' Hk Hk' Heq. split; [by apply HrespA|by apply HrespB].
    + exact HwfA.
    + exact HwfB.
    + intros k v Hk _. by apply HinB.
    + intros k v Hk _. by apply HinA.
Qed.
End duality.

(** C9, as the code has it: for each-containers [A] and [B] whose keys are
    not iterable, or are strings, whenever [A.contains(B)] and [B.is_in(A)]
    both return, the two results have the same content: the same test result
    at every position of a positional result and at every key of a keyed
    one, at every depth. *)
Theorem contains_is_in_dual py_in fuel A B r1 r2 :
  wf A → wf B → is_each A = true → is_each B = true →
  contains py_in fuel A [B] = Ok r1 →
  is_in py_in fuel B [A] = Ok r2 →
  same_content r1 r2.
Proof.
  intros HA HB EA EB H1 H2.
  by apply (membership_dual_each py_in fuel false A B r1 r2).
Qed.

(** Two keyed containers with their keys in different orders: the results
    hold their keys in different orders too. *)
Lemma contains_is_in_dual_witness :
  same_content
    (map_each [(VStr "a", VBool true); (VStr "b", VBool false)])
    (map_each [(VStr "b", VBool false); (VStr "a", VBool true)]).
Proof.
  apply (contains_is_in_dual py_contains 6
           (map_each [(VStr "a", VStr "xy"); (VStr "b", VStr "z")])
           (map_each [(VStr "b", VStr "q"); (VStr "a", VStr "x")]));
    reflexivity.
Defined.

(** C9 fails in two ways.  With the key [()], which [E[key]] takes for an
    empty list of keys: for [A = each({(): 1})] and [B = each({})],
    [A.contains(B)] is aligned on the key of [A] and holds one member, and
    [B.is_in(A)] is aligned on the keys of [B] and holds none.  With lengths
    2 and 3: [contains] is aligned on the shorter container and returns,
    [is_in] is aligned on the longer one and raises [ValueError]. *)
Lemma contains_and_is_in_disagree :
  (each [VDict [(VTuple [], VInt 1)]] (Arg NNext) true
     = Ok (map_each [(VTuple [], VInt 1)])
   ∧ each [VDict []] (Arg NNext) true = Ok (map_each [])
   ∧ contains py_contains 6 (map_each [(VTuple [], VInt 1)]) [map_each []]
     = Ok (map_each [(VTuple [], seq_each [])])
   ∧ is_in py_contains 6 (map_each []) [map_each [(VTuple [], VInt 1)]]
     = Ok (map_each [])
   ∧ ¬ same_content (map_each [(VTuple [], seq_each [])]) (map_each []))
  ∧ (contains py_contains 6 (seq_each [VStr "ab"; VStr "cd"])
       [seq_each [VStr "a"; VStr "b"; VStr "c"]]
     = Ok (seq_each [VBool true; VBool false])
     ∧ is_in py_contains 6 (seq_each [VStr "a"; VStr "b"; VStr "c"])
         [seq_each [VStr "ab"; VStr "cd"]]
       = Err ValueError).
Proof.
  repeat split.
  intros H. inversion H as [| | |k w1 w2 nested Hw]; subst.
  inversion Hw as [| |d1 d2 Hd|]; subst.
  specialize (Hd (VTuple [])). inversion Hd.
Qed.

(** * Further properties of the two engines *)

(** ** The alignment of two sources, in general *)

Lemma map_result_two {A B} (f : A → result B) x y :
  map_result f [x; y] = (a <- f x;; b <- f y;; Ok [a; b]).
Proof. simpl. destruct (f x); simpl; [|done]. by destruct (f y). Qed.

(** The handler of two sources, by the lengths and kinds of their sized
    versions. *)
Lemma handler_of_two_sources f mf s1 s2 s1' s2' l1 l2 :
  as_sized_iterable f s1 = Ok s1' → as_sized_iterable f s2 = Ok s2' →
  py_len s1' = Ok l1 → py_len s2' = Ok l2 →
  let nb1 := negb (l1 =? 1)%nat || is_mapping s1' in
  let nb2 := negb (l2 =? 1)%nat || is_mapping s2' in
  let M := if mf : bool then s1' else if nb1 then s1' else if nb2 then s2' else s1' in
  let n := if mf then l1 else if nb1 then l1 else if nb2 then l2 else l1 in
  let keyed := is_mapping M && ((l1 =? 1)%nat || is_mapping s1')
               && ((l2 =? 1)%nat || is_mapping s2') in
  BroadcastHandler_init f [s1; s2] mf
  = (indices <- (if keyed then IKeys <$> py_keys_method M else Ok (IRange n));;
     Ok {| B_sources := [s1'; s2']; B_E := s1'; B_model := M; B_n := n;
           B_indices := indices |}).
Proof.
  intros H1 H2 Hl1 Hl2. unfold BroadcastHandler_init.
  rewrite map_result_two, H1, H2. cbn [bind].
  cbn [first_not_broadcastable all_broadcast_or_mapping].
  unfold not_broadcastable. rewrite Hl1, Hl2. cbn [bind].
  destruct mf; cbn [bind].
  - rewrite Hl1. cbn [bind].
    destruct (is_mapping s1'), (l1 =? 1)%nat, (is_mapping s2'), (l2 =? 1)%nat;
      done.
  - destruct (is_mapping s1') eqn:M1, (l1 =? 1)%nat eqn:E1,
      (is_mapping s2') eqn:M2, (l2 =? 1)%nat eqn:E2;
      cbn [negb orb andb bind]; rewrite ?Hl1, ?Hl2; cbn [bind];
      rewrite ?M1, ?M2; done.
Qed.

Lemma B_iter_of_two f s1 s2 E M n I :
  B_iter f {| B_sources := [s1; s2]; B_E := E; B_model := M; B_n := n;
              B_indices := I |}
  = (a <- in_generator (broadcast_to_indices f s1 n I);;
     b <- in_generator (broadcast_to_indices f s2 n I);;
     Ok (zip_from a [b])).
Proof.
  unfold B_iter. cbn [B_sources B_n B_indices]. rewrite map_result_two.
  destruct (in_generator (broadcast_to_indices f s1 n I)); [|done].
  cbn [bind]. by destruct (in_generator (broadcast_to_indices f s2 n I)).
Qed.

(** A flat positional container over a tuple, a list or a view yields its
    members, whether it is the model or is broadcast. *)
Lemma flat_container_is_iterated f whole nested xs I :
  plain_items whole = Some xs → nested_deeper nested = false →
  Forall not_each xs →
  broadcast_to_indices (S f) (VEach KSeq whole nested) (length xs)
    (IRange I)
  = Ok (iter_of_list xs).
Proof.
  intros Hxs Hflat Fxs. unfold broadcast_to_indices.
  cbn [is_mapping]. change (py_len (VEach KSeq whole nested)) with (py_len whole).
  rewrite (plain_items_len _ _ Hxs). cbn [bind].
  destruct (length xs =? 1)%nat eqn:H1.
  - destruct xs as [|x [|? ?]]; try done.
    apply Forall_cons in Fxs as [Hx _]. unfold not_each in Hx.
    cbn [is_iterable]. unfold py_iter. cbn [py_iter_with EachContainer_iter].
    cbn [values_with]. rewrite (py_len_iterable _ _ (plain_items_len _ _ Hxs)).
    cbn [negb]. rewrite Hflat. cbn [lazily].
    destruct whole; try done; simpl in Hxs; injection Hxs as ->; simpl;
      by rewrite Hx.
  - rewrite Nat.ltb_irrefl. cbn [is_each]. unfold EachContainer_values.
    cbn [values_with]. rewrite (py_len_iterable _ _ (plain_items_len _ _ Hxs)).
    cbn [negb]. rewrite Hflat. by rewrite (plain_items_iter _ _ _ Hxs).
Qed.

(** A scalar is repeated for every index. *)
Lemma scalar_is_repeated f c n I :
  broadcast_to_indices f (VTuple [c]) n I = Ok (iter_of_list (replicate n c)).
Proof. done. Qed.

Lemma zip_from_replicate (xs : list value) c :
  zip_from (iter_of_list xs) [iter_of_list (replicate (length xs) c)]
  = iter_of_list ((λ x, [x; c]) <$> xs).
Proof. by rewrite zip_from_lists, zip_replicate, <- list_fmap_compose. Qed.

Lemma member_binop_flat op rec a b :
  not_each a → not_each b → member_binop op rec a b = op a b.
Proof. unfold member_binop, not_each. by intros -> ->. Qed.

(** The alignment of a positional container that yields the members [ms],
    as many as it has, with a source whose sized version holds the one
    member [c]: [c] is paired with every member. *)
Lemma alignment_with_singleton f whole nested ms other c
    (g : value → value → result value) :
  py_len whole = Ok (length ms) →
  broadcast_to_indices (S f) (VEach KSeq whole nested) (length ms)
    (IRange (length ms)) = Ok (iter_of_list ms) →
  as_sized_iterable (S f) other = Ok (VTuple [c]) →
  (B <- BroadcastHandler_init (S f) [VEach KSeq whole nested; other] false;;
   rows <- B_iter (S f) B;;
   B_call B (iter_map (unpack2 g) rows))
  = (zs <- map_result (λ m, g m c) ms;; Ok (seq_each zs)).
Proof.
  intros Hlen Hsrc Hwrap.
  rewrite (handler_of_two_sources (S f) false (VEach KSeq whole nested) other
             (VEach KSeq whole nested) (VTuple [c]) (length ms) 1); try done.
  2:{ by apply (as_sized_iterable_sized _ _ (length ms)). }
  cbn [is_mapping Nat.eqb negb orb andb].
  rewrite orb_false_r.
  replace (if negb (length ms =? 1)%nat then VEach KSeq whole nested
           else VEach KSeq whole nested) with (VEach KSeq whole nested)
    by (by destruct (negb _)).
  replace (if negb (length ms =? 1)%nat then length ms else length ms)
    with (length ms) by (by destruct (negb _)).
  cbn [is_mapping andb bind].
  rewrite B_iter_of_two, Hsrc, scalar_is_repeated. cbn [in_generator bind].
  rewrite zip_from_replicate. unfold B_call. cbn [B_indices B_E is_each].
  by rewrite iter_map_fmap, iter_to_list_map.
Qed.

Lemma alignment_with_scalar f whole nested ms c
    (g : value → value → result value) :
  py_len whole = Ok (length ms) →
  broadcast_to_indices (S f) (VEach KSeq whole nested) (length ms)
    (IRange (length ms)) = Ok (iter_of_list ms) →
  is_scalar c →
  (B <- BroadcastHandler_init (S f) [VEach KSeq whole nested; c] false;;
   rows <- B_iter (S f) B;;
   B_call B (iter_map (unpack2 g) rows))
  = (zs <- map_result (λ m, g m c) ms;; Ok (seq_each zs)).
Proof.
  intros Hlen Hsrc Hc. apply alignment_with_singleton; [done..|].
  by destruct (scalar_is_wrapped (S f) c Hc).
Qed.

Lemma each_binop_S op f reflected self other :
  each_binop op (S f) reflected self other
  = (B <- BroadcastHandler_init f [self; other] false;;
     rows <- B_iter f B;;
     B_call B
       (iter_map
          (unpack2 (λ s o, if reflected
                           then member_binop op (each_binop op f) o s
                           else member_binop op (each_binop op f) s o))
          rows)).
Proof. done. Qed.

(** X1: a binary operator between a flat positional container and a scalar (a
    value that is not iterable, or a string) applies the operator to every
    member and the scalar, in the order of the members, the scalar being the
    left operand of a reflected operator.  The result is a positional
    container of the results, or the first error a member raises. *)
Theorem scalar_is_broadcast
    (op : value → value → result value) (fuel : nat) (reflected : bool)
    (whole : value) (nested : nesting) (xs : list value) (c : value) :
  plain_items whole = Some xs → nested_deeper nested = false →
  Forall not_each xs → is_scalar c →
  each_binop op (S (S fuel)) reflected (VEach KSeq whole nested) c
  = (zs <- map_result (λ x, if reflected then op c x else op x c) xs;;
     Ok (seq_each zs)).
Proof.
  intros Hxs Hflat Fxs Hc.
  destruct (scalar_is_wrapped (S fuel) c Hc) as [_ Hce].
  rewrite each_binop_S.
  rewrite (alignment_with_scalar fuel whole nested xs c);
    [|by apply plain_items_len|by apply flat_container_is_iterated|done].
  erewrite map_result_ext_Forall; [done| |exact Fxs].
  intros x Hx. cbv beta.
  destruct reflected; by rewrite member_binop_flat.
Qed.

Lemma scalar_is_broadcast_witness :
  each_binop py_add 2 false (seq_each (ints [1; 2; 3])) (VInt 10)
  = Ok (seq_each (ints [11; 12; 13])).
Proof.
  apply (scalar_is_broadcast py_add 0 false (VList (ints [1; 2; 3])) (NNum 1)
           (ints [1; 2; 3]) (VInt 10));
    first [reflexivity | by repeat constructor | by left].
Defined.

(** ** What [as_sized_iterable] returns *)

Lemma as_sized_iterable_has_len f s s' :
  as_sized_iterable f s = Ok s' → ∃ n, py_len s' = Ok n.
Proof.
  unfold as_sized_iterable. destruct (is_str s); [intros [= <-]; by eexists|].
  destruct (py_len s) as [n|e] eqn:Hl; [intros [= <-]; eauto|].
  destruct (is_iterable s); [|intros [= <-]; by eexists].
  unfold py_tuple. destruct (is_iterable s); [|done].
  destruct (iter_to_list _) as [l|]; [|done]. intros [= <-]. by eexists.
Qed.

(** X2: a list that holds one scalar is broadcast like the scalar: [E op [c]]
    and [E op c] give the same result, for every each-container [E] and both
    directions of the operator. *)
Theorem one_member_list_is_broadcast_like_its_member
    (op : value → value → result value) (fuel : nat) (reflected : bool)
    (E c : value) :
  is_each E = true → is_scalar c →
  each_binop op fuel reflected E (VList [c])
  = each_binop op fuel reflected E c.
Proof.
  intros _ Hc. destruct fuel as [|f]; [done|].
  destruct (scalar_is_wrapped f c Hc) as [Hwrap _].
  cbn [each_binop].
  destruct (as_sized_iterable f E) as [E'|e] eqn:HE.
  2:{ unfold BroadcastHandler_init. rewrite !map_result_two, HE. done. }
  destruct (as_sized_iterable_has_len f E E' HE) as [l1 Hl1].
  rewrite (handler_of_two_sources f false E (VList [c]) E' (VList [c]) l1 1),
    (handler_of_two_sources f false E c E' (VTuple [c]) l1 1); try done.
  cbn [is_mapping Nat.eqb negb orb andb].
  destruct (if _ : bool then IKeys <$> py_keys_method _ else Ok (IRange _))
    as [I|e]; [|done].
  cbn [bind]. rewrite !B_iter_of_two. unfold B_call. cbn [B_indices B_E].
  done.
Qed.

Lemma one_member_list_is_broadcast_like_its_member_witness :
  each_binop py_add 2 false (seq_each (ints [1; 2; 3])) (VList [VInt 10])
  = each_binop py_add 2 false (seq_each (ints [1; 2; 3])) (VInt 10).
Proof.
  apply (one_member_list_is_broadcast_like_its_member py_add 2 false
           (seq_each (ints [1; 2; 3])) (VInt 10)); [reflexivity|by left].
Defined.

(** ** An empty container *)

Lemma zip_from_nil {A} (its : list (iter A)) : zip_from INil its = INil.
Proof. done. Qed.

(** What an operand that is not an each-container contributes to an
    alignment on no index at all. *)
Lemma source_for_no_index f other other' :
  is_each other = false → as_sized_iterable f other = Ok other' →
  ∃ it, broadcast_to_indices f other' 0 (IRange 0) = Ok it.
Proof.
  intros He. unfold as_sized_iterable.
  destruct other; try done; simpl; intros [= <-]; try (by eexists).
  - unfold broadcast_to_indices. simpl. destruct xs as [|x [|??]]; by eexists.
  - unfold broadcast_to_indices. simpl. destruct xs as [|x [|??]]; by eexists.
  - unfold broadcast_to_indices. simpl. destruct xs as [|x [|??]]; by eexists.
Qed.

(** X3: a binary operator on a positional container without members returns a
    container without members and applies the operator to nothing, whatever
    the other operand holds (the other operand not being an each-container).
    *)
Theorem empty_container_absorbs
    (op : value → value → result value) (fuel : nat) (reflected : bool)
    (whole : value) (nested : nesting) (other : value) :
  plain_items whole = Some [] → is_each other = false →
  each_binop op (S fuel) reflected (VEach KSeq whole nested) other
  = Ok (seq_each []).
Proof.
  intros Hw He. pose proof (plain_items_len _ _ Hw) as Hlen. simpl in Hlen.
  cbn [each_binop].
  assert (∃ other', as_sized_iterable fuel other = Ok other') as [other' Ho].
  { unfold as_sized_iterable. destruct other; try done; simpl; by eexists. }
  destruct (as_sized_iterable_has_len _ _ _ Ho) as [l2 Hl2].
  rewrite (handler_of_two_sources fuel false (VEach KSeq whole nested) other
             (VEach KSeq whole nested) other' 0 l2); try done.
  2:{ by apply (as_sized_iterable_sized _ _ 0%nat). }
  cbn [is_mapping Nat.eqb negb orb andb bind].
  rewrite B_iter_of_two.
  destruct (source_for_no_index fuel other other' He Ho) as [b Hb].
  rewrite Hb.
  assert (broadcast_to_indices fuel (VEach KSeq whole nested) 0 (IRange 0)
          = Ok INil) as ->.
  { unfold broadcast_to_indices. cbn [is_mapping].
    change (py_len (VEach KSeq whole nested)) with (py_len whole).
    rewrite Hlen. cbn [bind Nat.eqb Nat.ltb Nat.leb is_each].
    unfold EachContainer_values. cbn [values_with].
    rewrite (py_len_iterable _ _ Hlen). cbn [negb].
    rewrite (plain_items_iter _ _ _ Hw). by destruct (nested_deeper nested). }
  done.
Qed.

Lemma empty_container_absorbs_witness :
  each_binop py_add 1 false (seq_each []) (VList (ints [1; 2]))
  = Ok (seq_each []).
Proof.
  apply (empty_container_absorbs py_add 0 false (VList []) (NNum 1)
           (VList (ints [1; 2])));
    reflexivity.
Defined.

(** ** Alignment key by key *)

Lemma dict_comprehension_of_keys (H : value → result value) ks acc :
  Forall (λ k, scalar_key k = true) ks → distinct_keys ks = true →
  (∀ k, k ∈ ks → has_key acc.*1 k = false) →
  dict_comprehension (λ _ v, Ok v) acc
    (iter_zip (iter_of_list ks) (iter_map H (iter_of_list ks)))
  = (ts <- map_result H ks;; Ok (acc ++ zip ks ts)).
Proof.
  intros Hks. revert acc.
  induction Hks as [|k ks Hk Hks IH]; intros acc Hdist Hfresh; simpl.
  - by rewrite app_nil_r.
  - destruct (H k) as [t|e] eqn:Ht; simpl; [|done].
    unfold dict_set. rewrite py_hashing_scalar by done. simpl.
    rewrite assoc_set_fresh by (apply Hfresh; by left).
    simpl in Hdist. apply andb_true_iff in Hdist as [Hk' Hdist].
    apply negb_true_iff in Hk'.
    rewrite IH; [|done|].
    + destruct (map_result H ks); simpl; [|done]. by rewrite <- app_assoc.
    + intros k' Hk'in. rewrite fmap_app. unfold has_key.
      rewrite existsb_app. apply orb_false_iff. split.
      * apply Hfresh. by right.
      * simpl. rewrite orb_false_r.
        destruct (key_eqb k k') eqn:Heq; [|done]. exfalso.
        assert (existsb (key_eqb k) ks = true) as Hex; [|congruence].
        apply existsb_exists. exists k'. split; [by apply list_elem_of_In|done].
Qed.

Lemma key_eqb_scalar_refl k : scalar_key k = true → key_eqb k k = true.
Proof.
  destruct k; try done; simpl; intros _;
    first [apply Z.eqb_refl | by apply bool_decide_eq_true].
Qed.

(** A dict holds the value of each of its own keys. *)
Lemma assoc_find_own kvs :
  Forall (λ k, scalar_key k = true) kvs.*1 → distinct_keys kvs.*1 = true →
  Forall (λ kv, assoc_find kvs kv.1 = Some kv.2) kvs.
Proof.
  induction kvs as [|[k v] kvs IH]; simpl; [done|].
  intros [Hk Hks]%Forall_cons [Hfresh Hd]%andb_true_iff.
  apply negb_true_iff in Hfresh. constructor.
  - simpl. by rewrite key_eqb_scalar_refl.
  - specialize (IH Hks Hd).
    apply Forall_forall. intros [k' v'] Hin. simpl.
    destruct (key_eqb k k') eqn:Heq.
    + exfalso. assert (existsb (key_eqb k) kvs.*1 = true) as Hex;
        [|exact (eq_true_false_abs _ Hex Hfresh)].
      apply existsb_exists. exists k'. split; [|done].
      apply list_elem_of_In. apply list_elem_of_fmap. by exists (k', v').
    + by apply (proj1 (Forall_forall _ _) IH (k', v')).
Qed.

Lemma assoc_find_elem kvs key v :
  assoc_find kvs key = Some v → v ∈ kvs.*2.
Proof.
  induction kvs as [|[k x] kvs IH]; simpl; [done|].
  destruct (key_eqb k key).
  - intros [= <-]. by left.
  - intros H. right. by apply IH.
Qed.

Lemma keyed_by_lookup f kvs v key :
  keyed_by kvs v → scalar_key key = true →
  py_getitem (S f) v key
  = match assoc_find kvs key with Some x => Ok x | None => Err KeyError end.
Proof.
  intros [->|[nested ->]] Hkey.
  - unfold py_getitem. simpl. unfold dict_get.
    by rewrite py_hashing_scalar.
  - by rewrite lookup_keyed.
Qed.

(** X4: between a mapping container whose keys are distinct scalars (values
    that are not iterable, or strings) and a dict or another mapping
    container, neither holding each-containers as values, the operator is
    applied key by key over the keys of the first operand, in their order.  A
    key the other operand lacks raises [KeyError]; the keys only the other
    operand has are ignored.  The result is a mapping container with the keys
    of the first operand. *)
Theorem keyed_operands_are_aligned_by_key
    (op : value → value → result value) (fuel : nat) (reflected : bool)
    (kvsA kvsB : list (value * value)) (nested : nesting) (other : value) :
  Forall (λ k, scalar_key k = true) kvsA.*1 → distinct_keys kvsA.*1 = true →
  keyed_by kvsB other →
  Forall not_each kvsA.*2 → Forall not_each kvsB.*2 →
  each_binop op (S (S fuel)) reflected (VEach KMap (VDict kvsA) nested) other
  = (zs <- map_result
             (λ kv, match assoc_find kvsB kv.1 with
                    | Some b => if reflected then op b kv.2 else op kv.2 b
                    | None => Err KeyError
                    end) kvsA;;
     Ok (map_each (zip kvsA.*1 zs))).
Proof.
  intros Hks Hd HB FA FB.
  assert (is_str other = false ∧ is_mapping other = true
          ∧ py_len other = Ok (length kvsB)
          ∧ ∀ n I, broadcast_to_indices (S fuel) other n I
                   = Ok (iter_map (py_getitem (S fuel) other)
                           (iter_of_list (index_list I))))
    as (Hstr & Hmap & Hlen & Hsrc).
  { destruct HB as [->|[nB ->]]; done. }
  change (each_binop op (S (S fuel)) reflected (VEach KMap (VDict kvsA) nested) other)
    with (B <- BroadcastHandler_init (S fuel) [VEach KMap (VDict kvsA) nested; other] false;;
          rows <- B_iter (S fuel) B;;
          B_call B
            (iter_map
               (unpack2 (λ s o, if reflected
                                then member_binop op (each_binop op (S fuel)) o s
                                else member_binop op (each_binop op (S fuel)) s o))
               rows)).
  rewrite (handler_of_two_sources (S fuel) false _ other
             (VEach KMap (VDict kvsA) nested) other (length kvsA) (length kvsB));
    try done.
  2:{ by apply (as_sized_iterable_sized _ _ (length kvsB)). }
  rewrite Hmap. cbn [is_mapping negb orb andb]. rewrite !orb_true_r.
  cbn [andb py_keys_method fmap result_fmap bind].
  change (is_mapping (VEach KMap (VDict kvsA) nested)) with true.
  cbn [andb bind].
  rewrite B_iter_of_two, source_keyed, Hsrc. cbn [in_generator bind index_list].
  rewrite zip_from_lookups, iter_map_compose.
  unfold B_call. cbn [B_indices].
  rewrite dict_comprehension_of_keys by done.
  rewrite map_result_fmap.
  rewrite (map_result_ext_Forall _
             (λ kv, match assoc_find kvsB kv.1 with
                    | Some b => if reflected then op b kv.2 else op kv.2 b
                    | None => Err KeyError
                    end)
             (λ kv, (scalar_key kv.1 = true ∧ not_each kv.2)
                    ∧ assoc_find kvsA kv.1 = Some kv.2) kvsA).
  - by destruct (map_result _ kvsA).
  - intros [k a] [[Hk Ha] Hown]. simpl in Hk, Ha, Hown. cbv beta. simpl.
    rewrite lookup_keyed, (keyed_by_lookup fuel kvsB other k), Hown by done.
    cbn [bind]. destruct (assoc_find kvsB k) as [b|] eqn:Hb; [|done].
    cbn [bind unpack2].
    assert (not_each b) as Hbe.
    { apply assoc_find_elem in Hb.
      by apply (proj1 (Forall_forall _ _) FB b). }
    destruct reflected; by rewrite member_binop_flat.
  - apply Forall_and. split; [|by apply assoc_find_own].
    apply Forall_and. split.
    + by rewrite Forall_fmap in Hks.
    + by rewrite Forall_fmap in FA.
Qed.

Lemma keyed_operands_are_aligned_by_key_witness :
  each_binop py_add 2 false
    (map_each [(VStr "x", VInt 1); (VStr "y", VInt 2)])
    (VDict [(VStr "y", VInt 20); (VStr "x", VInt 10); (VStr "z", VInt 5)])
  = Ok (map_each [(VStr "x", VInt 11); (VStr "y", VInt 22)]).
Proof.
  apply (keyed_operands_are_aligned_by_key py_add 0 false
           [(VStr "x", VInt 1); (VStr "y", VInt 2)]
           [(VStr "y", VInt 20); (VStr "x", VInt 10); (VStr "z", VInt 5)]
           (NNum 1));
    first [reflexivity | by repeat constructor | by left].
Defined.

(** ** Unary operators *)

Lemma zip_from_alone {A} (it : iter A) :
  zip_from it [] = iter_map (λ x, Ok [x]) it.
Proof. induction it as [| |a rest IH]; simpl; [done..|]. by rewrite IH. Qed.

(** X5: a unary operator on a mapping container applies the operator to every
    value and returns a mapping container with the same keys in the same
    order. *)
Theorem unary_operator_keeps_the_keys
    (op : value → result value) (fuel : nat)
    (kvs : list (value * value)) (nested : nesting) :
  Forall (λ k, scalar_key k = true) kvs.*1 → distinct_keys kvs.*1 = true →
  Forall not_each kvs.*2 →
  each_unop op (S (S fuel)) (VEach KMap (VDict kvs) nested)
  = (zs <- map_result (λ kv, op kv.2) kvs;; Ok (map_each (zip kvs.*1 zs))).
Proof.
  intros Hks Hd Fv.
  change (each_unop op (S (S fuel)) (VEach KMap (VDict kvs) nested))
    with (B <- BroadcastHandler_init (S fuel) [VEach KMap (VDict kvs) nested] false;;
          rows <- B_iter (S fuel) B;;
          B_call B
            (iter_map
               (unpack1 (λ s, if is_each s then each_unop op (S fuel) s else op s))
               rows)).
  unfold BroadcastHandler_init. cbn [map_result bind].
  rewrite (as_sized_iterable_sized _ _ (length kvs)) by done.
  cbn [bind first_not_broadcastable all_broadcast_or_mapping].
  unfold not_broadcastable. cbn [py_len bind is_mapping orb].
  rewrite ?orb_true_r. cbn [bind py_len is_mapping py_keys_method fmap result_fmap].
  rewrite ?orb_true_r. cbn [bind].
  unfold B_iter. cbn [B_sources B_n B_indices map_result bind].
  rewrite source_keyed. cbn [in_generator bind zip_all index_list].
  rewrite zip_from_alone, !iter_map_compose.
  unfold B_call. cbn [B_indices].
  rewrite dict_comprehension_of_keys by done.
  rewrite map_result_fmap.
  rewrite (map_result_ext_Forall _ (λ kv, op kv.2)
             (λ kv, (scalar_key kv.1 = true ∧ not_each kv.2)
                    ∧ assoc_find kvs kv.1 = Some kv.2) kvs).
  - by destruct (map_result _ kvs).
  - intros [k a] [[Hk Ha] Hown]. simpl in Hk, Ha, Hown. cbv beta. simpl.
    rewrite lookup_keyed, Hown by done. cbn [bind unpack1].
    unfold not_each in Ha. by rewrite Ha.
  - apply Forall_and. split; [|by apply assoc_find_own].
    apply Forall_and. split.
    + by rewrite Forall_fmap in Hks.
    + by rewrite Forall_fmap in Fv.
Qed.

Lemma unary_operator_keeps_the_keys_witness :
  each_unop py_neg 2 (map_each [(VStr "a", VInt 1); (VStr "b", VInt 2)])
  = Ok (map_each [(VStr "a", VInt (-1)); (VStr "b", VInt (-2))]).
Proof.
  apply (unary_operator_keeps_the_keys py_neg 0
           [(VStr "a", VInt 1); (VStr "b", VInt 2)] (NNum 1));
    first [reflexivity | by repeat constructor].
Defined.

(** ** A mapping aligned with a sequence *)

Lemma zip_from_lookups_list (lk : value → result value) idxs (ys : list value) :
  (length idxs ≤ length ys)%nat →
  zip_from (iter_map lk (iter_of_list idxs)) [iter_of_list ys]
  = iter_map (λ iy, x <- lk iy.1;; Ok [x; iy.2]) (iter_of_list (zip idxs ys)).
Proof.
  revert ys. induction idxs as [|i idxs IH]; intros ys Hle; simpl; [done|].
  destruct ys as [|y ys]; simpl in *; [lia|].
  destruct (lk i) as [x|e] eqn:Hx; simpl; [|done].
  rewrite IH by lia. done.
Qed.

Lemma zip_fmap_l {A B C} (g : A → B) (xs : list A) (ys : list C) :
  zip (g <$> xs) ys = (λ p, (g p.1, p.2)) <$> zip xs ys.
Proof.
  revert ys. induction xs as [|x xs IH]; intros [|y ys]; simpl; try done.
  by rewrite IH.
Qed.

(** X6: between a mapping container with n entries and a tuple, list or view
    that does not have exactly one member, the alignment is by position: the
    values at the integer keys 0, ..., n-1 are paired with the first n members
    of the sequence and the result is a positional container.  A missing
    integer key raises [KeyError], and a sequence with fewer than n members
    raises [ValueError]. *)
Theorem mapping_and_sequence_are_aligned_by_position
    (op : value → value → result value) (fuel : nat) (reflected : bool)
    (kvs : list (value * value)) (nested : nesting) (other : value)
    (ys : list value) :
  plain_items other = Some ys → length ys ≠ 1%nat →
  Forall not_each kvs.*2 → Forall not_each ys →
  each_binop op (S (S fuel)) reflected (VEach KMap (VDict kvs) nested) other
  = if (length ys <? length kvs)%nat then Err ValueError
    else zs <- map_result
                 (λ iy : nat * value,
                    match assoc_find kvs (VInt (Z.of_nat iy.1)) with
                    | Some a => if reflected then op iy.2 a else op a iy.2
                    | None => Err KeyError
                    end)
                 (zip (seq 0 (length kvs)) ys);;
         Ok (seq_each zs).
Proof.
  intros Hys Hm1 Fv Fys.
  pose proof (plain_items_len _ _ Hys) as Hlen.
  assert (is_str other = false) as Hstr by (by destruct other).
  assert (is_mapping other = false) as Hmap by (by destruct other).
  change (each_binop op (S (S fuel)) reflected (VEach KMap (VDict kvs) nested) other)
    with (B <- BroadcastHandler_init (S fuel) [VEach KMap (VDict kvs) nested; other] false;;
          rows <- B_iter (S fuel) B;;
          B_call B
            (iter_map
               (unpack2 (λ s o, if reflected
                                then member_binop op (each_binop op (S fuel)) o s
                                else member_binop op (each_binop op (S fuel)) s o))
               rows)).
  rewrite (handler_of_two_sources (S fuel) false _ other
             (VEach KMap (VDict kvs) nested) other (length kvs) (length ys));
    try done.
  2:{ by apply (as_sized_iterable_sized _ _ (length ys)). }
  rewrite Hmap. apply Nat.eqb_neq in Hm1. rewrite Hm1.
  cbn [is_mapping negb andb orb bind]. rewrite ?orb_true_r, ?andb_false_r.
  cbn [bind].
  rewrite B_iter_of_two, source_keyed. cbn [in_generator bind index_list].
  unfold broadcast_to_indices at 1. rewrite Hmap, Hlen. cbn [bind]. rewrite Hm1.
  destruct (length ys <? length kvs)%nat eqn:Hlt; [done|].
  rewrite (plain_items_not_each _ _ Hys), (py_len_iterable _ _ Hlen).
  rewrite (plain_items_iter _ _ _ Hys). cbn [in_generator bind].
  apply Nat.ltb_ge in Hlt.
  rewrite zip_from_lookups_list by (rewrite length_fmap, length_seq; lia).
  rewrite zip_fmap_l, iter_map_fmap, iter_map_compose.
  unfold B_call. cbn [B_indices B_E is_each].
  rewrite iter_to_list_map.
  rewrite (map_result_ext_Forall _
             (λ iy : nat * value,
                match assoc_find kvs (VInt (Z.of_nat iy.1)) with
                | Some a => if reflected then op iy.2 a else op a iy.2
                | None => Err KeyError
                end)
             (λ iy, not_each iy.2) (zip (seq 0 (length kvs)) ys)).
  - by destruct (map_result _ _).
  - intros [i y] Hy. simpl in Hy. cbv beta. simpl.
    rewrite lookup_keyed by done.
    destruct (assoc_find kvs (VInt (Z.of_nat i))) as [a|] eqn:Ha; [|done].
    cbn [bind unpack2].
    assert (not_each a) as Hae.
    { apply assoc_find_elem in Ha. by apply (proj1 (Forall_forall _ _) Fv a). }
    destruct reflected; by rewrite member_binop_flat.
  - apply Forall_forall. intros [i y] Hin. simpl.
    apply elem_of_zip_r in Hin. by apply (proj1 (Forall_forall _ _) Fys y).
Qed.

Lemma mapping_and_sequence_are_aligned_by_position_witness :
  each_binop py_add 2 false (map_each [(VInt 0, VInt 1); (VInt 1, VInt 2)])
    (VList (ints [10; 20; 30]))
  = Ok (seq_each (ints [11; 22])).
Proof.
  apply (mapping_and_sequence_are_aligned_by_position py_add 0 false
           [(VInt 0, VInt 1); (VInt 1, VInt 2)] (NNum 1)
           (VList (ints [10; 20; 30])) (ints [10; 20; 30]));
    first [reflexivity | by repeat constructor | simpl; lia].
Defined.

(** ** The nesting of a mapping *)

Lemma iter_map_ext_Forall {A B} (f g : A → result B) (P : A → Prop) (l : list A) :
  (∀ a, P a → f a = g a) → Forall P l →
  iter_map f (iter_of_list l) = iter_map g (iter_of_list l).
Proof.
  intros Hfg. induction 1 as [|a l Ha _ IH]; simpl; [done|].
  by rewrite (Hfg a Ha), IH.
Qed.

Lemma index_list_scalar (I : index_domain) :
  match I with
  | IKeys ks => Forall (λ k, scalar_key k = true) ks
  | IRange _ => True
  end →
  Forall (λ k, scalar_key k = true) (index_list I).
Proof.
  destruct I as [n|ks]; [|done]. intros _. simpl.
  rewrite Forall_fmap. by apply Forall_true.
Qed.

(** X7: the result of a binary operator on a mapping container whose keys
    are scalars (values that are not iterable, or strings) does not depend on
    the nesting the container was built with: its values are looked up by
    key and handed to the operator as they are. *)
Theorem mapping_ignores_its_nesting
    (op : value → value → result value) (fuel : nat) (reflected : bool)
    (kvs : list (value * value)) (n1 n2 : nesting) (other : value) :
  Forall (λ k, scalar_key k = true) kvs.*1 →
  each_binop op fuel reflected (VEach KMap (VDict kvs) n1) other
  = each_binop op fuel reflected (VEach KMap (VDict kvs) n2) other.
Proof.
  intros Hks. destruct fuel as [|f]; [done|]. cbn [each_binop].
  destruct (as_sized_iterable f other) as [other'|e] eqn:Ho.
  2:{ unfold BroadcastHandler_init. rewrite !map_result_two, Ho.
      by rewrite !(as_sized_iterable_sized _ _ (length kvs)). }
  destruct (as_sized_iterable_has_len f other other' Ho) as [l2 Hl2].
  rewrite (handler_of_two_sources f false _ other
             (VEach KMap (VDict kvs) n1) other' (length kvs) l2),
    (handler_of_two_sources f false _ other
             (VEach KMap (VDict kvs) n2) other' (length kvs) l2); try done.
  cbn [is_mapping negb andb orb]. rewrite ?orb_true_r.
  cbn [is_mapping andb py_keys_method fmap result_fmap].
  set (I := if (l2 =? 1)%nat || is_mapping other' then Ok (IKeys kvs.*1)
            else Ok (IRange (length kvs))).
  assert (∀ J, I = Ok J → Forall (λ k, scalar_key k = true) (index_list J))
    as HJ.
  { intros J. unfold I. destruct (_ || _); intros [= <-];
      by apply index_list_scalar. }
  destruct I as [J|e]; [|done]. specialize (HJ J eq_refl). cbn [bind].
  rewrite !B_iter_of_two, !source_keyed.
  rewrite (iter_map_ext_Forall (py_getitem f (VEach KMap (VDict kvs) n1))
             (py_getitem f (VEach KMap (VDict kvs) n2)) _ _
             (λ k Hk, eq_trans (lookup_keyed f kvs n1 k Hk)
                        (eq_sym (lookup_keyed f kvs n2 k Hk))) HJ).
  done.
Qed.

Lemma mapping_ignores_its_nesting_witness :
  each_binop py_add 2 false
    (VEach KMap (VDict [(VStr "a", VList (ints [1; 2]))]) (NNum 2))
    (VList [VList (ints [5])])
  = each_binop py_add 2 false
      (VEach KMap (VDict [(VStr "a", VList (ints [1; 2]))]) (NNum 1))
      (VList [VList (ints [5])]).
Proof.
  apply (mapping_ignores_its_nesting py_add 2 false
           [(VStr "a", VList (ints [1; 2]))] (NNum 2) (NNum 1)
           (VList [VList (ints [5])])).
  by repeat constructor.
Defined.

(** ** Two levels of nesting *)

Lemma each_of_row cells nested :
  nested = NNum 2 ∨ nested = NNext →
  each [VList cells] (Arg (new_nested nested)) false = Ok (as_row cells).
Proof. by intros [-> | ->]. Qed.

Lemma nested_container_yields_rows f (rows : list (list value)) nested l :
  nested = NNum 2 ∨ nested = NNext → length rows ≠ 1%nat →
  l = length rows →
  broadcast_to_indices f (VEach KSeq (VList (VList <$> rows)) nested) l (IRange l)
  = Ok (iter_of_list (as_row <$> rows)).
Proof.
  intros Hn H1 ->. unfold broadcast_to_indices. cbn [is_mapping py_len bind].
  rewrite length_fmap. apply Nat.eqb_neq in H1. rewrite H1, Nat.ltb_irrefl.
  cbn [is_each]. unfold EachContainer_values. cbn [values_with is_iterable negb].
  assert (nested_deeper nested = true) as -> by (by destruct Hn as [-> | ->]).
  unfold py_iter. cbn [py_iter_with builtin_iter].
  rewrite iter_map_fmap.
  rewrite (iter_map_Ok _ rows (as_row <$> rows)); [done|].
  clear H1. induction rows as [|row rows IH]; [done|].
  cbn [map_result fmap list_fmap]. rewrite (each_of_row row nested Hn).
  cbn [bind]. unfold fmap in IH. by rewrite IH.
Qed.

(** X8: a container over a list of rows with nesting 2, or with the nesting
    [next], distributes a binary operator with a scalar over every cell of
    every row.  The result is a container that holds one container of results
    per row.  For a reflected operator the scalar is not a string: a string
    on the left of [%] formats the row by itself. *)
Theorem rows_are_distributed_over
    (op : value → value → result value) (fuel : nat) (reflected : bool)
    (rows : list (list value)) (nested : nesting) (c : value) :
  nested = NNum 2 ∨ nested = NNext → length rows ≠ 1%nat →
  Forall (Forall not_each) rows → is_scalar c →
  reflected && is_str c = false →
  each_binop op (S (S (S fuel))) reflected
    (VEach KSeq (VList (VList <$> rows)) nested) c
  = (zss <- map_result
              (λ row, zs <- map_result
                              (λ x, if reflected then op c x else op x c) row;;
                      Ok (seq_each zs))
              rows;;
     Ok (seq_each zss)).
Proof.
  intros Hn H1 Frows Hc _.
  destruct (scalar_is_wrapped (S fuel) c Hc) as [_ Hce].
  rewrite each_binop_S.
  rewrite (alignment_with_scalar (S fuel) _ nested (as_row <$> rows) c).
  - rewrite map_result_fmap.
    erewrite map_result_ext_Forall; [done| |exact Frows].
    intros row Frow. cbv beta.
    assert (each_binop op (S (S fuel)) reflected (as_row row) c
            = (zs <- map_result (λ x, if reflected then op c x else op x c) row;;
               Ok (seq_each zs))) as Hrow.
    { rewrite each_binop_S.
      rewrite (alignment_with_scalar fuel (VList row) (NNum 1) row c);
        [|done|by apply flat_container_is_iterated|done].
      erewrite map_result_ext_Forall; [done| |exact Frow].
      intros x Hx. cbv beta. destruct reflected; by rewrite member_binop_flat. }
    unfold member_binop. rewrite Hce. cbn [as_row is_each].
    by destruct reflected.
  - cbn [py_len]. by rewrite !length_fmap.
  - rewrite length_fmap. by apply nested_container_yields_rows.
  - done.
Qed.

Lemma rows_are_distributed_over_witness :
  each_binop py_add 3 true
    (VEach KSeq (VList [VList (ints [1; 2]); VList (ints [3])]) (NNum 2))
    (VInt 10)
  = Ok (seq_each [seq_each (ints [11; 12]); seq_each (ints [13])]).
Proof.
  apply (rows_are_distributed_over py_add 0 true [ints [1; 2]; ints [3]]
           (NNum 2) (VInt 10));
    first [reflexivity | by left | by repeat constructor | simpl; lia].
Defined.

(** ** A container with one member *)

Lemma each_unop_S op f self :
  each_unop op (S f) self
  = (B <- BroadcastHandler_init f [self] false;;
     rows <- B_iter f B;;
     B_call B
       (iter_map (unpack1 (λ s, if is_each s then each_unop op f s else op s))
          rows)).
Proof. done. Qed.

(** The handler of a positional container alone. *)
Lemma handler_of_one_source f whole nested n :
  py_len whole = Ok n →
  BroadcastHandler_init f [VEach KSeq whole nested] false
  = Ok {| B_sources := [VEach KSeq whole nested];
          B_E := VEach KSeq whole nested; B_model := VEach KSeq whole nested;
          B_n := n; B_indices := IRange n |}.
Proof.
  intros Hn. unfold BroadcastHandler_init. cbn [map_result].
  rewrite (as_sized_iterable_sized _ _ n) by done.
  cbn [bind first_not_broadcastable]. unfold not_broadcastable.
  change (py_len (VEach KSeq whole nested)) with (py_len whole).
  rewrite Hn. cbn [bind is_mapping orb].
  rewrite orb_false_r.
  destruct (negb (n =? 1)%nat); cbn [bind];
    change (py_len (VEach KSeq whole nested)) with (py_len whole);
    by rewrite Hn.
Qed.

(** X9: a unary operator on a flat container whose only member is itself a
    container is applied to the first value of that member alone: the outer
    container, having length one, is broadcast through its iterator, which
    flattens the member.  So [-each([each(1, 2)])] is [each(-1)]. *)
Theorem one_member_container_yields_a_first_leaf
    (op : value → result value) (fuel : nat) (y : value) (ys : list value)
    (nested : nesting) :
  not_each y → nested_deeper nested = false →
  each_unop op (S (S (S fuel))) (VEach KSeq (VList [as_row (y :: ys)]) nested)
  = (z <- op y;; Ok (seq_each [z])).
Proof.
  intros Hy Hflat. unfold not_each in Hy. rewrite each_unop_S.
  rewrite (handler_of_one_source _ _ _ 1) by done. cbn [bind].
  unfold B_iter. cbn [B_sources B_n B_indices map_result].
  unfold broadcast_to_indices. cbn [is_mapping py_len length bind Nat.eqb is_iterable].
  unfold py_iter. cbn [py_iter_with EachContainer_iter values_with is_iterable negb].
  rewrite Hflat.
  cbn [lazily builtin_iter iter_of_list iter_bind as_row is_each nested_deeper
       EachContainer_iter values_with is_iterable negb Z.ltb Z.compare
       py_iter_with iter_app].
  change (1 <? 1) with false.
  cbn [lazily iter_bind]. rewrite Hy.
  cbn [iter_app py_next bind in_generator replicate iter_of_list
       zip_all zip_from zip_heads].
  unfold B_call. cbn [B_indices B_E is_each iter_map unpack1].
  rewrite Hy. by destruct (op y).
Qed.

Lemma one_member_container_yields_a_first_leaf_witness :
  each_unop py_neg 3 (seq_each [as_row (ints [1; 2])])
  = (z <- py_neg (VInt 1);; Ok (seq_each [z])).
Proof.
  apply (one_member_container_yields_a_first_leaf py_neg 0 (VInt 1)
           (ints [2]) (NNum 1));
    reflexivity.
Defined.

(** A flat positional container with one member is repeated for every
    index. *)
Lemma one_member_is_repeated f whole nested x n I :
  plain_items whole = Some [x] → nested_deeper nested = false → not_each x →
  broadcast_to_indices (S f) (VEach KSeq whole nested) n I
  = Ok (iter_of_list (replicate n x)).
Proof.
  intros Hx Hflat Hxe. unfold not_each in Hxe. unfold broadcast_to_indices.
  cbn [is_mapping].
  change (py_len (VEach KSeq whole nested)) with (py_len whole).
  rewrite (plain_items_len _ _ Hx). cbn [bind length Nat.eqb is_iterable].
  unfold py_iter. cbn [py_iter_with EachContainer_iter values_with].
  rewrite (py_len_iterable _ _ (plain_items_len _ _ Hx)). cbn [negb].
  rewrite Hflat. cbn [lazily].
  assert (py_iter_with (EachContainer_iter f) whole = iter_of_list [x]) as ->.
  { by destruct whole; try done; simpl in Hx; injection Hx as ->. }
  cbn [iter_of_list iter_bind]. rewrite Hxe. done.
Qed.

(** What a tuple, a list or a view that is not broadcast contributes to a
    positional alignment. *)
Lemma plain_source_is_iterated f other ys n I :
  plain_items other = Some ys → length ys ≠ 1%nat →
  broadcast_to_indices f other n (IRange I)
  = if (length ys <? n)%nat then Err ValueError else Ok (iter_of_list ys).
Proof.
  intros Hys H1. unfold broadcast_to_indices.
  assert (is_mapping other = false) as -> by (by destruct other).
  rewrite (plain_items_len _ _ Hys). cbn [bind].
  apply Nat.eqb_neq in H1. rewrite H1.
  destruct (length ys <? n)%nat; [done|].
  rewrite (plain_items_not_each _ _ Hys),
    (py_len_iterable _ _ (plain_items_len _ _ Hys)).
  by rewrite (plain_items_iter _ _ _ Hys).
Qed.

Lemma zip_from_replicate_l (ys : list value) x :
  zip_from (iter_of_list (replicate (length ys) x)) [iter_of_list ys]
  = iter_of_list ((λ y, [x; y]) <$> ys).
Proof.
  rewrite zip_from_lists. f_equal.
  induction ys as [|y ys IH]; simpl; [done|]. f_equal. exact IH.
Qed.

(** X10: a flat positional container with exactly one member is broadcast over
    a plain sequence of another length: the operator pairs the member with
    every member of the sequence, and the result has the length of the
    sequence. *)
Theorem one_member_container_is_broadcast
    (op : value → value → result value) (fuel : nat) (reflected : bool)
    (whole : value) (nested : nesting) (x other : value) (ys : list value) :
  plain_items whole = Some [x] → nested_deeper nested = false → not_each x →
  plain_items other = Some ys → length ys ≠ 1%nat → Forall not_each ys →
  each_binop op (S (S fuel)) reflected (VEach KSeq whole nested) other
  = (zs <- map_result (λ y, if reflected then op y x else op x y) ys;;
     Ok (seq_each zs)).
Proof.
  intros Hx Hflat Hxe Hys H1 Fys.
  pose proof (plain_items_len _ _ Hx) as Hl1.
  pose proof (plain_items_len _ _ Hys) as Hl2.
  assert (is_str other = false) as Hstr by (by destruct other).
  assert (is_mapping other = false) as Hmap by (by destruct other).
  rewrite each_binop_S.
  rewrite (handler_of_two_sources (S fuel) false _ other
             (VEach KSeq whole nested) other 1 (length ys)); try done.
  2:{ by apply (as_sized_iterable_sized _ _ 1%nat). }
  2:{ by apply (as_sized_iterable_sized _ _ (length ys)). }
  rewrite Hmap. pose proof H1 as H1'. apply Nat.eqb_neq in H1'. rewrite H1'.
  cbn [is_mapping Nat.eqb negb andb orb bind]. rewrite Hmap. cbn [andb bind].
  rewrite B_iter_of_two.
  rewrite (one_member_is_repeated fuel whole nested x) by done.
  rewrite (plain_source_is_iterated _ other ys) by done.
  rewrite Nat.ltb_irrefl. cbn [in_generator bind].
  rewrite zip_from_replicate_l. unfold B_call. cbn [B_indices B_E is_each].
  rewrite iter_map_fmap, iter_to_list_map.
  erewrite map_result_ext_Forall; [done| |exact Fys].
  intros y Hy. cbv beta. cbn [unpack2].
  destruct reflected; by rewrite member_binop_flat.
Qed.

Lemma one_member_container_is_broadcast_witness :
  each_binop py_add 2 false (seq_each [VInt 5]) (VList (ints [1; 2; 3]))
  = Ok (seq_each (ints [6; 7; 8])).
Proof.
  apply (one_member_container_is_broadcast py_add 0 false (VList [VInt 5])
           (NNum 1) (VInt 5) (VList (ints [1; 2; 3])) (ints [1; 2; 3]));
    first [reflexivity | by repeat constructor | simpl; lia].
Defined.

(** ** In-place operators: alignment on the first operand *)

Lemma overwrite_prefix pre xs ys rest :
  length xs = length ys →
  overwrite (pre ++ xs ++ rest) (zip (seq (length pre) (length xs)) ys)
  = pre ++ ys ++ rest.
Proof.
  unfold overwrite. revert pre ys.
  induction xs as [|x xs IH]; intros pre [|y ys] Hlen; simpl in *; try done.
  rewrite insert_app_r_alt, Nat.sub_diag by done. simpl.
  replace (pre ++ y :: xs ++ rest) with ((pre ++ [y]) ++ xs ++ rest)
    by (by rewrite <- app_assoc).
  replace (pre ++ y :: ys ++ rest) with ((pre ++ [y]) ++ ys ++ rest)
    by (by rewrite <- app_assoc).
  replace (S (length pre)) with (length (pre ++ [y]))
    by (rewrite length_app; simpl; lia).
  apply IH. lia.
Qed.

(** The loop of [in_place] on a list, when the generator of the values
    raises after [vs]. *)
Lemma write_all_until_raise rec xs (idxs : list nat) vs e :
  Forall (λ i, i < length xs)%nat idxs → length idxs = length vs →
  write_all (py_setitem_with rec) (VList xs)
    (iter_app (iter_of_list (zip (positions idxs) vs)) (IRaise e))
  = (VList (overwrite xs (zip idxs vs)), Err e).
Proof.
  revert xs vs.
  induction idxs as [|i idxs IH]; intros xs vs Hin Hlen.
  - by destruct vs.
  - destruct vs as [|v vs]; [done|].
    apply Forall_cons in Hin as [Hi Hin]. simpl.
    rewrite seq_position_nat by done.
    apply IH; [|simpl in Hlen; lia].
    eapply Forall_impl; [exact Hin|].
    intros j Hj. simpl in Hj. by rewrite length_insert.
Qed.

Lemma iter_map_app_raise {A B} (g : A → result B) pre x post zs e :
  map_result g pre = Ok zs → g x = Err e →
  iter_map g (iter_of_list (pre ++ x :: post))
  = iter_app (iter_of_list zs) (IRaise e).
Proof.
  revert zs. induction pre as [|p pre IH]; intros zs; simpl.
  - intros [= <-] ->. done.
  - intros (z & -> & (zs' & Hzs & [= <-])%bind_Ok)%bind_Ok Hx. simpl.
    by rewrite (IH zs').
Qed.

Lemma iter_zip_app_raise {A B} (ks : list A) (vs : list B) rest e :
  length ks = length vs →
  iter_zip (iter_of_list (ks ++ rest)) (iter_app (iter_of_list vs) (IRaise e))
  = match rest with
    | [] => iter_of_list (zip ks vs)
    | _ => iter_app (iter_of_list (zip ks vs)) (IRaise e)
    end.
Proof.
  revert vs. induction ks as [|k ks IH]; intros [|v vs] Hlen; simpl in *;
    try done.
  - by destruct rest.
  - rewrite IH by lia. by destruct rest.
Qed.

Lemma py_binop_flat op fuel a b :
  not_each a → not_each b → py_binop op fuel a b = op a b.
Proof. intros Ha Hb. unfold py_binop. by apply member_binop_flat. Qed.

(** X11: an in-place operator on a container over a list, with a plain
    sequence that is at least as long and has not exactly one member,
    overwrites the list where it is with the results for the first [len(E)]
    pairs and returns the container itself; the further members of the other
    operand are ignored. *)
Theorem in_place_operator_keeps_to_the_first_operand
    (op : value → value → result value) (fuel : nat) (h : store) (a : loc)
    (o : each_obj) (xs : list value) (other : value) (ys zs : list value) :
  h !! a = Some (OEach o) → h !! obj_whole o = Some (OColl (VList xs)) →
  obj_kind o = KSeq → nested_deeper (obj_nested o) = false →
  Forall not_each xs →
  plain_items other = Some ys → length ys ≠ 1%nat → Forall not_each ys →
  (length xs ≤ length ys)%nat →
  map_result (λ p, op p.1 p.2) (zip xs ys) = Ok zs →
  each_iop op (S fuel) h a other
  = (<[obj_whole o := OColl (VList zs)]> h, Ok a).
Proof.
  intros Ha Hw Hk Hflat Fxs Hys H1 Fys Hle Hzs.
  destruct (container_at_Some h a o (VList xs) Ha Hw) as [Hc Hne].
  destruct o as [k w nested]. simpl in *. subst k.
  assert (is_str other = false) as Hstr by (by destruct other).
  assert (is_mapping other = false) as Hmap by (by destruct other).
  unfold each_iop. rewrite Hc. unfold each_value. cbn [obj_kind obj_nested].
  rewrite (handler_of_two_sources (S fuel) true _ other
             (VEach KSeq (VList xs) nested) other (length xs) (length ys));
    try done.
  2:{ apply (as_sized_iterable_sized _ _ (length ys)); [done|].
      by apply plain_items_len. }
  2:{ by apply plain_items_len. }
  cbn [is_mapping andb bind].
  rewrite B_iter_of_two.
  rewrite (flat_container_is_iterated fuel (VList xs) nested xs) by done.
  rewrite (plain_source_is_iterated _ other ys) by done.
  assert ((length ys <? length xs)%nat = false) as -> by (apply Nat.ltb_ge; lia).
  cbn [in_generator bind]. rewrite zip_from_lists.
  unfold in_place. rewrite Hc. cbn [has_setitem B_indices index_list obj_whole].
  rewrite iter_map_fmap.
  rewrite (iter_map_Ok _ (zip xs ys) zs).
  2:{ rewrite <- Hzs. apply (map_result_ext_Forall _ _
                               (λ p, not_each p.1 ∧ not_each p.2)).
      - intros [x y] [Hx Hy]. simpl in *. by apply py_binop_flat.
      - clear -Fxs Fys. revert ys Fys.
        induction Fxs as [|x xs Hx _ IH]; intros ys Fys; simpl; [done|].
        destruct Fys as [|y ys Hy Fys]; [done|]. constructor; auto. }
  rewrite iter_zip_lists.
  change ((λ i : nat, VInt (Z.of_nat i)) <$> seq 0 (length xs))
    with (positions (seq 0 (length xs))).
  unfold py_setitem.
  rewrite write_all_list by (apply Forall_seq; lia).
  pose proof (overwrite_every_position [] xs zs) as Hov. simpl in Hov.
  rewrite Hov; [done|].
  apply map_result_length in Hzs. rewrite Hzs, length_zip. lia.
Qed.

Lemma in_place_operator_keeps_to_the_first_operand_witness :
  each_iop py_add 1 (store_of KSeq (VList (ints [1; 2])) (NNum 1)) 0%nat
    (VList (ints [10; 20; 30]))
  = (<[1%nat := OColl (VList (ints [11; 22]))]>
       (store_of KSeq (VList (ints [1; 2])) (NNum 1)), Ok 0%nat).
Proof.
  apply (in_place_operator_keeps_to_the_first_operand py_add 0
           (store_of KSeq (VList (ints [1; 2])) (NNum 1)) 0%nat
           {| obj_kind := KSeq; obj_whole := 1%nat; obj_nested := NNum 1 |}
           (ints [1; 2]) (VList (ints [10; 20; 30])) (ints [10; 20; 30])
           (ints [11; 22]));
    first [reflexivity | by repeat constructor | simpl; lia].
Defined.

(** X12: when the operator of an in-place operation with a scalar raises at
    some member, the results for the earlier members are already written into
    the list and stay there; the failing member and the later ones keep their
    values, and the error is raised. *)
Theorem in_place_failure_keeps_the_earlier_writes
    (op : value → value → result value) (fuel : nat) (h : store) (a : loc)
    (o : each_obj) (pre : list value) (x : value) (post : list value)
    (c : value) (zs : list value) (e : exn) :
  h !! a = Some (OEach o) →
  h !! obj_whole o = Some (OColl (VList (pre ++ x :: post))) →
  obj_kind o = KSeq → nested_deeper (obj_nested o) = false →
  Forall not_each (pre ++ x :: post) → is_scalar c →
  map_result (λ x, op x c) pre = Ok zs → op x c = Err e →
  each_iop op (S fuel) h a c
  = (<[obj_whole o := OColl (VList (zs ++ x :: post))]> h, Err e).
Proof.
  intros Ha Hw Hk Hflat Fxs Hc Hzs He.
  destruct (container_at_Some h a o _ Ha Hw) as [Hcont Hne].
  destruct o as [k w nested]. simpl in *. subst k.
  unfold each_iop. rewrite Hcont. unfold each_value. cbn [obj_kind obj_nested].
  rewrite rows_of_flat_list_and_scalar by done.
  unfold in_place. rewrite Hcont.
  cbn [has_setitem B_indices index_list obj_whole].
  rewrite iter_map_fmap.
  rewrite (iter_map_ext_Forall _ (λ x, op x c) not_each (pre ++ x :: post));
    [|intros y Hy; cbn [unpack2]; apply py_binop_flat;
      [done|exact (proj2 (scalar_is_wrapped 0 c Hc))]
     |exact Fxs].
  rewrite (iter_map_app_raise _ pre x post zs e Hzs He).
  pose proof (map_result_length _ _ _ Hzs) as Hlen.
  rewrite length_app. cbn [length]. rewrite seq_app, fmap_app.
  change ((λ i : nat, VInt (Z.of_nat i)) <$> seq 0 (length pre))
    with (positions (seq 0 (length pre))).
  rewrite iter_zip_app_raise
    by (by rewrite positions_length, length_seq, Hlen).
  cbn [seq fmap list_fmap].
  unfold py_setitem.
  rewrite write_all_until_raise.
  - pose proof (overwrite_prefix [] pre zs (x :: post)) as Hov. simpl in Hov.
    rewrite Hov by done. done.
  - apply Forall_seq. intros j Hj. rewrite length_app. lia.
  - by rewrite length_seq.
Qed.

Lemma in_place_failure_keeps_the_earlier_writes_witness :
  each_iop py_add 1
    (store_of KSeq (VList [VInt 1; VStr "a"; VInt 3]) (NNum 1)) 0%nat (VInt 1)
  = (<[1%nat := OColl (VList [VInt 2; VStr "a"; VInt 3])]>
       (store_of KSeq (VList [VInt 1; VStr "a"; VInt 3]) (NNum 1)),
     Err TypeError).
Proof.
  apply (in_place_failure_keeps_the_earlier_writes py_add 0
           (store_of KSeq (VList [VInt 1; VStr "a"; VInt 3]) (NNum 1)) 0%nat
           {| obj_kind := KSeq; obj_whole := 1%nat; obj_nested := NNum 1 |}
           [VInt 1] (VStr "a") [VInt 3] (VInt 1) [VInt 2] TypeError);
    first [reflexivity | by repeat constructor | left; reflexivity].
Defined.

(** ** Iterating a tree *)

Lemma iter_app_of_list {A} (xs ys : list A) :
  iter_app (iter_of_list xs) (iter_of_list ys) = iter_of_list (xs ++ ys).
Proof. induction xs as [|x xs IH]; simpl; [done|]. by rewrite IH. Qed.

Lemma each_of_leaf v nested :
  is_iterable v = false → each [v] (Arg nested) false = Ok v.
Proof. by destruct v. Qed.

Lemma each_of_branch xs :
  each [VList xs] (Arg NInf) false = Ok (VEach KSeq (VList xs) NInf).
Proof. done. Qed.

(** One level of the iteration, given what the iteration of the branches
    yields. *)
Lemma iterating_the_members (rec : value → iter value) ts :
  Forall (λ t, is_tree t = true
               ∧ ∀ xs, t = VList xs →
                       rec (VEach KSeq (VList xs) NInf)
                       = iter_of_list (flat_map leaves xs)) ts →
  iter_bind (λ i, if is_each i then rec i else ICons i INil)
    (iter_map (λ i, each [i] (Arg NInf) false) (iter_of_list ts))
  = iter_of_list (flat_map leaves ts).
Proof.
  induction 1 as [|t ts [Ht Hrec] _ IH]; [done|].
  cbn [iter_of_list iter_map flat_map].
  destruct (is_iterable t) eqn:Hit.
  - destruct t; try done. rewrite each_of_branch.
    cbn [iter_bind is_each leaves]. rewrite (Hrec xs eq_refl), IH.
    apply iter_app_of_list.
  - rewrite each_of_leaf by done. cbn [iter_bind].
    assert (is_each t = false) as -> by (by destruct t).
    assert (leaves t = [t]) as -> by (by destruct t).
    cbn [iter_app app]. by rewrite IH.
Qed.

Lemma iterating_a_tree f ts :
  forallb is_tree ts = true →
  (foldr (λ x h, height x `max` h) 0 ts ≤ f)%nat →
  EachContainer_iter (S f) (VEach KSeq (VList ts) NInf)
  = iter_of_list (flat_map leaves ts).
Proof.
  revert ts. induction f as [|f IH]; intros ts Htree Hh;
    cbn [EachContainer_iter values_with is_iterable negb nested_deeper lazily
         py_iter_with builtin_iter new_nested];
    apply iterating_the_members;
    apply forallb_Forall in Htree;
    (induction Htree as [|t ts Ht _ IHts]; [done|]);
    cbn [foldr] in Hh;
    (constructor; [|apply IHts; lia]); (split; [done|]);
    intros xs ->; cbn [height is_tree] in *; [lia|].
  apply IH; [done|lia].
Qed.

(** X13: iterating a container with unbounded nesting over a tree of lists
    yields the leaves of the tree from left to right, given fuel for the
    height of the tree. *)
Theorem nested_iteration_yields_the_leaves (fuel : nat) (ts : list value) :
  is_tree (VList ts) = true → (height (VList ts) ≤ fuel)%nat →
  iter_to_list (py_iter fuel (VEach KSeq (VList ts) NInf))
  = Ok (leaves (VList ts)).
Proof.
  intros Htree Hh. cbn [height] in Hh.
  destruct fuel as [|f]; [lia|].
  unfold py_iter. cbn [py_iter_with].
  rewrite iterating_a_tree; [|done|lia].
  cbn [leaves]. generalize (flat_map leaves ts). intros l.
  induction l as [|x l IH]; [done|]. simpl. by rewrite IH.
Qed.

Lemma nested_iteration_yields_the_leaves_witness :
  iter_to_list
    (py_iter 3 (VEach KSeq
                  (VList [VList [VInt 1; VList (ints [2; 3])]; VList [VInt 4];
                          VInt 5]) NInf))
  = Ok (ints [1; 2; 3; 4; 5]).
Proof.
  apply (nested_iteration_yields_the_leaves 3
           [VList [VInt 1; VList (ints [2; 3])]; VList [VInt 4]; VInt 5]);
    [reflexivity | simpl; lia].
Defined.

(** ** A string under unbounded nesting *)

Lemma each_of_string s :
  each [VStr s] (Arg NInf) false = Ok (VEach KSeq (VList [VStr s]) NInf).
Proof. done. Qed.

(** X14: iterating a container with unbounded nesting whose first member is a
    string yields nothing: the string is wrapped in a one-member container
    again and again, and the iteration ends in [RecursionError] whatever the
    fuel. *)
Theorem string_under_unbounded_nesting_is_never_reached
    (fuel : nat) (s : string) (rest : list value) :
  py_iter fuel (VEach KSeq (VList (VStr s :: rest)) NInf)
  = IRaise RecursionError.
Proof.
  unfold py_iter. cbn [py_iter_with]. revert rest.
  induction fuel as [|f IH]; intros rest; [done|].
  cbn [EachContainer_iter values_with is_iterable negb nested_deeper lazily
       py_iter_with builtin_iter new_nested iter_of_list iter_map].
  rewrite each_of_string.
  cbn [iter_bind is_each]. by rewrite IH.
Qed.

(** ** Selecting with a boolean mask *)

Lemma iter_all_bools bs :
  iter_all is_bool_literal (iter_of_list (bools bs)) = Ok true.
Proof. induction bs as [|[] bs IH]; simpl; done. Qed.

Lemma masked_members xs bs :
  iter_to_list
    (iter_map (λ vb : value * value, Ok vb.1)
       (iter_filter (λ vb, Ok (is_True vb.2))
          (iter_zip (iter_of_list xs) (iter_of_list (bools bs)))))
  = Ok (select_where xs bs).
Proof.
  revert bs. induction xs as [|x xs IH]; intros [|b bs]; simpl; try done.
  destruct b; simpl; by rewrite IH.
Qed.

(** [E[mask]] for a mask that yields one boolean for each member of a
    tuple, a list or a view. *)
Lemma getitem_mask f whole nested xs mask bs :
  plain_items whole = Some xs →
  is_mapping mask = false → is_iterable mask = true → is_str mask = false →
  (∀ ms, mask ≠ VTuple ms) →
  py_len mask = Ok (length bs) → py_iter f mask = iter_of_list (bools bs) →
  length bs = length xs →
  EachContainer_getitem (S f) (VEach KSeq whole nested) mask
  = Ok (VEach KSeq (VList (select_where xs bs)) nested).
Proof.
  intros Hxs Hmap Hit Hstr Htup Hlen Hiter Hn.
  unfold EachContainer_getitem. rewrite EachContainer_getitem_ret_S.
  unfold getitem_body.
  assert (is_full_slice mask = false) as Hfull by (by destruct mask).
  assert (is_slice mask = false) as Hslice by (by destruct mask).
  assert (match mask with VTuple (d :: r) => (d, r) | _ => (mask, []) end
          = (mask, [])) as ->.
  { destruct mask; try done. by destruct (Htup xs0). }
  rewrite Hfull, Hslice, Hmap, Hit, Hstr. cbn [orb andb negb].
  unfold plural_domain.
  assert (∀ (T : Type) (a : value → value → value → T) (b : T),
            match mask with VSlice x y z => a x y z | _ => b end = b) as Hns.
  { intros T a b. by destruct mask. }
  rewrite Hns, Hmap, Hlen. cbn [bind]. rewrite Hlen. cbn [bind].
  rewrite (plain_items_len _ _ Hxs). cbn [bind].
  rewrite Hn, bool_decide_eq_true_2 by done.
  rewrite Hiter, iter_all_bools. cbn [bind].
  assert (is_mapping whole = false) as -> by (by destruct whole).
  rewrite (plain_items_iter _ _ _ Hxs).
  cbn [bind fmap result_fmap wrap_domain]. unfold EachContainer_of_iter.
  by rewrite masked_members.
Qed.

(** X15: indexing a positional container over a tuple, a list or a view with a
    list of as many booleans as it has members returns the members marked
    [True], in order, in a container with the nesting of the first. *)
Theorem mask_selects_the_members_marked_true
    (fuel : nat) (whole : value) (nested : nesting) (xs : list value)
    (bs : list bool) :
  plain_items whole = Some xs → length bs = length xs →
  EachContainer_getitem (S fuel) (VEach KSeq whole nested) (VList (bools bs))
  = Ok (VEach KSeq (VList (select_where xs bs)) nested).
Proof.
  intros Hxs Hn. apply (getitem_mask fuel whole nested xs _ bs); try done.
  unfold bools. cbn [py_len]. by rewrite length_fmap.
Qed.

Lemma mask_selects_the_members_marked_true_witness :
  EachContainer_getitem 1 (seq_each (ints [10; 20; 30]))
    (VList (bools [true; false; true]))
  = Ok (seq_each (ints [10; 30])).
Proof.
  apply (mask_selects_the_members_marked_true 0 (VList (ints [10; 20; 30]))
           (NNum 1) (ints [10; 20; 30]) [true; false; true]); reflexivity.
Defined.

Lemma select_where_test (test : value → bool) xs :
  select_where xs (test <$> xs) = List.filter test xs.
Proof.
  induction xs as [|x xs IH]; simpl; [done|].
  destruct (test x); [f_equal|]; exact IH.
Qed.

Lemma map_result_of_test {A} (g : A → result value) (test : A → bool) xs :
  Forall (λ x, g x = Ok (VBool (test x))) xs →
  map_result g xs = Ok (bools (test <$> xs)).
Proof.
  induction 1 as [|x xs Hx _ IH]; [done|].
  cbn [map_result]. by rewrite Hx, IH.
Qed.

Lemma iter_bind_flat (rec : value → iter value) xs :
  Forall not_each xs →
  iter_bind (λ i, if is_each i then rec i else ICons i INil) (iter_of_list xs)
  = iter_of_list xs.
Proof.
  induction 1 as [|x xs Hx _ IH]; [done|].
  cbn [iter_of_list iter_bind]. unfold not_each in Hx. rewrite Hx.
  cbn [iter_app]. by rewrite IH.
Qed.

(** Iterating a flat positional container yields its members. *)
Lemma flat_container_iterates f whole nested xs :
  plain_items whole = Some xs → nested_deeper nested = false →
  Forall not_each xs →
  py_iter (S f) (VEach KSeq whole nested) = iter_of_list xs.
Proof.
  intros Hxs Hflat Fxs. unfold py_iter.
  cbn [py_iter_with EachContainer_iter values_with].
  rewrite (py_len_iterable _ _ (plain_items_len _ _ Hxs)). cbn [negb].
  rewrite Hflat. cbn [lazily].
  assert (py_iter_with (EachContainer_iter f) whole = iter_of_list xs) as ->.
  { by destruct whole; try done; simpl in Hxs; injection Hxs as ->. }
  by apply iter_bind_flat.
Qed.

(** X16: [E[E op c]] for a flat positional container [E], a scalar [c] and an
    operator that returns a boolean for every member is the container of the
    members that pass the test, in their order. *)
Theorem indexing_with_a_comparison_filters
    (op : value → value → result value) (test : value → bool) (fuel : nat)
    (whole : value) (nested : nesting) (xs : list value) (c : value) :
  plain_items whole = Some xs → nested_deeper nested = false →
  Forall not_each xs → is_scalar c →
  Forall (λ x, op x c = Ok (VBool (test x))) xs →
  (mask <- each_binop op (S (S fuel)) false (VEach KSeq whole nested) c;;
   EachContainer_getitem (S (S fuel)) (VEach KSeq whole nested) mask)
  = Ok (VEach KSeq (VList (List.filter test xs)) nested).
Proof.
  intros Hxs Hflat Fxs Hc Hop.
  destruct (scalar_is_wrapped (S fuel) c Hc) as [_ Hce].
  rewrite each_binop_S.
  rewrite (alignment_with_scalar fuel whole nested xs c);
    [|by apply plain_items_len|by apply flat_container_is_iterated|done].
  rewrite (map_result_ext_Forall _ (λ x, op x c) not_each xs);
    [|intros x Hx; by apply member_binop_flat|done].
  rewrite (map_result_of_test _ test xs Hop). cbn [bind].
  rewrite (getitem_mask (S fuel) whole nested xs _ (test <$> xs)); try done.
  - by rewrite select_where_test.
  - cbn [seq_each py_len]. unfold bools. by rewrite length_fmap.
  - apply (flat_container_iterates fuel (VList (bools (test <$> xs))) (NNum 1));
      [done..|].
    unfold bools. rewrite Forall_fmap. by apply Forall_true.
  - by rewrite length_fmap.
Qed.

Lemma indexing_with_a_comparison_filters_witness :
  (mask <- each_binop py_gt 2 false (seq_each (ints [10; 20; 30])) (VInt 15);;
   EachContainer_getitem 2 (seq_each (ints [10; 20; 30])) mask)
  = Ok (seq_each (ints [20; 30])).
Proof.
  apply (indexing_with_a_comparison_filters py_gt
           (λ x, match x with VInt z => 15 <? z | _ => false end) 0
           (VList (ints [10; 20; 30])) (NNum 1) (ints [10; 20; 30]) (VInt 15));
    first [reflexivity | by repeat constructor | by left].
Defined.

(** ** Slices of a collection that takes no slice *)

Lemma islice_from_here {A} (xs : list A) (c s : nat) :
  islice_from (iter_of_list xs) c c (Some s) 1
  = iter_of_list (take (s - c) xs).
Proof.
  revert c. induction xs as [|x xs IH]; intros c.
  - cbn [iter_of_list islice_from from_option].
    rewrite Nat.ltb_irrefl. destruct (s <=? c)%nat; by rewrite take_nil.
  - cbn [iter_of_list islice_from from_option].
    rewrite Nat.ltb_irrefl.
    destruct (s <=? c)%nat eqn:Hs.
    + apply Nat.leb_le in Hs. by replace (s - c)%nat with 0%nat by lia.
    + apply Nat.leb_gt in Hs.
      replace ((c + 1) `min` s)%nat with (S c) by lia.
      rewrite IH. replace (s - c)%nat with (S (s - S c)) by lia. done.
Qed.

Lemma islice_from_take_drop {A} (xs : list A) (c n s : nat) :
  (c ≤ n)%nat →
  islice_from (iter_of_list xs) c n (Some s) 1
  = iter_of_list (take (s - n) (drop (n - c) xs)).
Proof.
  revert c. induction xs as [|x xs IH]; intros c Hc.
  - destruct (decide (c = n)) as [->|Hne].
    + rewrite islice_from_here. by rewrite drop_nil.
    + cbn [iter_of_list islice_from].
      assert ((c <? n)%nat = true) as -> by (apply Nat.ltb_lt; lia).
      by rewrite drop_nil, take_nil.
  - destruct (decide (c = n)) as [->|Hne].
    + rewrite islice_from_here. by rewrite Nat.sub_diag.
    + cbn [iter_of_list islice_from].
      assert ((c <? n)%nat = true) as -> by (apply Nat.ltb_lt; lia).
      rewrite IH by lia.
      replace (n - c)%nat with (S (n - S c)) by lia. done.
Qed.

Lemma iter_to_list_of_list {A} (l : list A) :
  iter_to_list (iter_of_list l) = Ok l.
Proof. induction l as [|x l IH]; [done|]. simpl. by rewrite IH. Qed.

(** X17: a slice [a:b] with step [None] or 1 of a container over a view, which
    has no item access, is taken by iteration: when neither bound exceeds
    [sys.maxsize], the result holds the members at the positions a, ..., b-1
    that exist, in order; a bound above [sys.maxsize] raises [ValueError]. *)
Theorem slice_of_a_view_is_taken_in_order
    (fuel : nat) (xs : list value) (nested : nesting) (a b : nat)
    (step : value) :
  step = VNone ∨ step = VInt 1 →
  EachContainer_getitem (S fuel) (VEach KSeq (VView xs) nested)
    (VSlice (VInt (Z.of_nat a)) (VInt (Z.of_nat b)) step)
  = if (sys_maxsize <? Z.of_nat a) || (sys_maxsize <? Z.of_nat b)
    then Err ValueError
    else Ok (VEach KSeq (VList (take (b - a) (drop a xs))) nested).
Proof.
  intros Hstep. unfold EachContainer_getitem.
  rewrite EachContainer_getitem_ret_S. unfold getitem_body.
  cbn [is_full_slice is_slice orb]. unfold plural_domain.
  cbn [py_getitem_with builtin_getitem]. unfold approximate_slice.
  unfold lt_zero. cbn [as_index bind].
  assert ((Z.of_nat a <? 0) = false) as Ha by (apply Z.ltb_ge; lia).
  assert ((Z.of_nat b <? 0) = false) as Hb by (apply Z.ltb_ge; lia).
  rewrite Ha, Hb. cbn [bind]. unfold islice, islice_arg. cbn [as_index].
  rewrite Ha, Hb. cbn [orb].
  destruct (sys_maxsize <? Z.of_nat a); [done|].
  destruct (sys_maxsize <? Z.of_nat b); [done|].
  cbn [bind orb]. rewrite !Nat2Z.id.
  assert (∃ o, match step with
               | VNone => Ok None
               | _ => match as_index step with
                      | Some z => if (z <? 1) || (sys_maxsize <? z)
                                  then Err ValueError
                                  else Ok (Some (Z.to_nat z))
                      | None => Err ValueError
                      end
               end = Ok o ∧ default 1%nat o = 1%nat) as (o & -> & Ho).
  { destruct Hstep as [-> | ->]; eexists; split; done. }
  cbn [bind]. rewrite Ho.
  unfold py_iter. cbn [py_iter_with builtin_iter].
  rewrite islice_from_take_drop by lia. rewrite Nat.sub_0_r.
  cbn [fmap result_fmap wrap_domain]. unfold EachContainer_of_iter.
  by rewrite iter_to_list_of_list.
Qed.

Lemma slice_of_a_view_is_taken_in_order_witness :
  EachContainer_getitem 1 (VEach KSeq (VView (ints [1; 2; 3])) (NNum 1))
    (VSlice (VInt 1) (VInt 3) VNone)
  = Ok (seq_each (ints [2; 3])).
Proof.
  apply (slice_of_a_view_is_taken_in_order 0 (ints [1; 2; 3]) (NNum 1) 1 3 VNone).
  left; reflexivity.
Defined.

(** X18: a slice of a container over a view whose start or stop is left
    open, the other bound being an integer or open too, raises [TypeError]
    unless it is the full slice: the missing bound is compared with 0. *)
Theorem open_slice_of_a_view_raises
    (fuel : nat) (xs : list value) (nested : nesting)
    (lo hi : option Z) (step : value) :
  lo = None ∨ hi = None →
  is_full_slice (VSlice (slice_bound_of lo) (slice_bound_of hi) step) = false →
  EachContainer_getitem (S fuel) (VEach KSeq (VView xs) nested)
    (VSlice (slice_bound_of lo) (slice_bound_of hi) step)
  = Err TypeError.
Proof.
  intros Hopen Hfull. unfold EachContainer_getitem.
  rewrite EachContainer_getitem_ret_S. unfold getitem_body.
  rewrite Hfull. cbn [is_slice orb]. unfold plural_domain.
  cbn [py_getitem_with builtin_getitem]. unfold approximate_slice.
  destruct Hopen as [-> | ->]; [done|].
  destruct lo as [z|]; [|done].
  unfold lt_zero, add_int. cbn [slice_bound_of as_index py_len bind].
  by destruct (z <? 0).
Qed.

Lemma open_slice_of_a_view_raises_witness :
  EachContainer_getitem 1 (VEach KSeq (VView (ints [1; 2; 3])) (NNum 1))
    (VSlice VNone (VInt 2) VNone)
  = Err TypeError.
Proof.
  apply (open_slice_of_a_view_raises 0 (ints [1; 2; 3]) (NNum 1)
           None (Some 2) VNone);
    [left; reflexivity | reflexivity].
Defined.

(** ** A list of indices or of keys *)

Lemma iter_all_not_bools L :
  existsb (λ x, negb (is_bool_literal x)) L = true →
  iter_all is_bool_literal (iter_of_list L) = Ok false.
Proof.
  induction L as [|x L IH]; [done|]. cbn [existsb iter_of_list iter_all].
  destruct (is_bool_literal x); [|done]. exact IH.
Qed.

(** X19: indexing with a list that is not a boolean mask for the container
    (its length differs from the container's, or it holds a value that is not
    a boolean) looks every element of the list up in the underlying
    collection, in order, and returns a positional container of the values
    found, with the nesting of the first.  The first lookup that fails gives
    the error. *)
Theorem index_list_looks_up_each_index
    (fuel : nat) (k : variant) (whole : value) (nested : nesting)
    (n : nat) (L : list value) :
  is_each whole = false → py_len whole = Ok n → not_a_mask n L →
  EachContainer_getitem (S fuel) (VEach k whole nested) (VList L)
  = (vs <- map_result (builtin_getitem whole) L;;
     Ok (VEach KSeq (VList vs) nested)).
Proof.
  intros He Hlen Hmask. unfold EachContainer_getitem.
  rewrite EachContainer_getitem_ret_S. unfold getitem_body.
  cbn [is_full_slice is_slice is_mapping is_iterable is_str orb andb negb].
  unfold plural_domain. cbn [is_mapping py_len bind]. rewrite Hlen. cbn [bind].
  assert ((if bool_decide (length L = n)
           then iter_all is_bool_literal (py_iter fuel (VList L))
           else Ok false) = Ok false) as ->.
  { case_bool_decide as Hn; [|done]. destruct Hmask as [?|Hex]; [done|].
    by apply iter_all_not_bools. }
  cbn [bind fmap result_fmap wrap_domain]. unfold EachContainer_of_iter.
  change (py_iter fuel (VList L)) with (iter_of_list L).
  rewrite iter_to_list_map.
  rewrite (map_result_ext_Forall _ (builtin_getitem whole) (λ _, True) L);
    [by destruct (map_result _ L)| |by apply Forall_true].
  intros x _. by destruct whole.
Qed.

Lemma index_list_looks_up_each_index_witness :
  EachContainer_getitem 1 (seq_each (ints [10; 20; 30]))
    (VList [VBool true; VBool false])
  = Ok (seq_each (ints [20; 10])).
Proof.
  apply (index_list_looks_up_each_index 0 KSeq (VList (ints [10; 20; 30]))
           (NNum 1) 3 [VBool true; VBool false]);
    [reflexivity | reflexivity | left; simpl; lia].
Defined.

(** ** Slices of a mapping *)

Lemma filter_pairs_within lo hi kvs :
  Forall (λ kv : value * value, ∃ z, kv.1 = VInt z) kvs →
  filter_pairs (key_in_bounds (slice_bound_of lo) (slice_bound_of hi)) kvs
  = Ok (List.filter (int_key_within lo hi) kvs).
Proof.
  induction 1 as [|[k v] kvs [z Hz] _ IH]; [done|]. simpl in Hz. subst k.
  cbn [filter_pairs List.filter]. rewrite IH.
  unfold key_in_bounds, int_key_within, within. cbn [fst].
  destruct lo as [a|], hi as [b|]; cbn [slice_bound_of key_le key_lt as_index bind];
    repeat (destruct (_ <=? _) || destruct (_ <? _)); done.
Qed.

(** X20: a partial slice of a mapping container with integer keys keeps, in
    order, the entries whose key k has lo <= k < hi, a missing bound leaving
    that side open; the step of the slice is ignored. *)
Theorem slice_of_a_mapping_keeps_the_keys_within
    (fuel : nat) (kvs : list (value * value)) (nested : nesting)
    (lo hi : option Z) (step : value) :
  Forall (λ kv : value * value, ∃ z, kv.1 = VInt z) kvs →
  is_full_slice (VSlice (slice_bound_of lo) (slice_bound_of hi) step) = false →
  EachContainer_getitem (S fuel) (VEach KMap (VDict kvs) nested)
    (VSlice (slice_bound_of lo) (slice_bound_of hi) step)
  = Ok (VEach KMap (VDict (List.filter (int_key_within lo hi) kvs)) nested).
Proof.
  intros Hkeys Hfull. unfold EachContainer_getitem.
  rewrite EachContainer_getitem_ret_S. unfold getitem_body.
  rewrite Hfull. cbn [is_slice orb]. unfold plural_domain.
  cbn [py_getitem_with builtin_getitem]. unfold dict_get.
  cbn [py_hashing]. unfold approximate_slice. cbn [py_items_method bind].
  rewrite filter_pairs_within by done. done.
Qed.

Lemma slice_of_a_mapping_keeps_the_keys_within_witness :
  EachContainer_getitem 1
    (map_each [(VInt 1, VStr "a"); (VInt 2, VStr "b"); (VInt 5, VStr "c");
               (VInt 9, VStr "d")])
    (VSlice (VInt 2) (VInt 9) VNone)
  = Ok (map_each [(VInt 2, VStr "b"); (VInt 5, VStr "c")]).
Proof.
  apply (slice_of_a_mapping_keeps_the_keys_within 0
           [(VInt 1, VStr "a"); (VInt 2, VStr "b"); (VInt 5, VStr "c");
            (VInt 9, VStr "d")] (NNum 1) (Some 2) (Some 9) VNone);
    [repeat constructor; by eexists | reflexivity].
Defined.

(** ** Indexing inside every member *)

(** X21: [E[:, r]] for a container over a list of rows and a scalar index [r]
    is the positional container of [row[r]] for every row, built with nesting
    1 whatever the nesting of [E]; a row without that index raises
    [IndexError]. *)
Theorem full_slice_with_an_index_takes_a_column
    (fuel : nat) (rows : list (list value)) (nested : nesting) (r : value) :
  scalar_key r = true →
  EachContainer_getitem (S fuel) (VEach KSeq (VList (VList <$> rows)) nested)
    (VTuple [VSlice VNone VNone VNone; r])
  = (vs <- map_result (λ row, seq_index row r) rows;; Ok (seq_each vs)).
Proof.
  intros Hr. unfold EachContainer_getitem.
  rewrite EachContainer_getitem_ret_S. unfold getitem_body.
  cbn [is_full_slice]. unfold index_members.
  cbn [is_mapping is_iterable]. unfold EachContainer_of_iter.
  change (py_iter fuel (VList (VList <$> rows)))
    with (iter_of_list (VList <$> rows)).
  rewrite iter_map_fmap, iter_to_list_map.
  rewrite (map_result_ext_Forall _ (λ row, seq_index row r) (λ _, True) rows);
    [by destruct (map_result _ rows)| |by apply Forall_true].
  intros row _. cbv beta. cbn [py_getitem_with builtin_getitem].
  by destruct r.
Qed.

Lemma full_slice_with_an_index_takes_a_column_witness :
  EachContainer_getitem 1
    (VEach KSeq (VList [VList (ints [1; 2]); VList (ints [3; 4])]) (NNum 2))
    (VTuple [VSlice VNone VNone VNone; VInt 1])
  = Ok (seq_each (ints [2; 4])).
Proof.
  apply (full_slice_with_an_index_takes_a_column 0
           [ints [1; 2]; ints [3; 4]] (NNum 2) (VInt 1)).
  reflexivity.
Defined.

(** ** Writes through a container *)

Lemma write_all_where rec (c : value) bs pre xs :
  length bs = length xs →
  write_all (py_setitem_with rec) (VList (pre ++ xs))
    (zip_supply
       (iter_map (λ ib : nat * value, Ok (VInt (Z.of_nat ib.1)))
          (iter_filter (λ ib, Ok (is_True ib.2))
             (iter_enumerate (length pre) (iter_of_list (bools bs)))))
       (SRepeat c))
  = (VList (pre ++ write_where bs c xs), Ok ()).
Proof.
  revert pre xs. induction bs as [|b bs IH]; intros pre [|x xs] Hlen;
    try done.
  injection Hlen as Hlen.
  assert (pre ++ x :: xs = (pre ++ [x]) ++ xs) as Hx by (by rewrite <- app_assoc).
  destruct b.
  - cbn [bools fmap list_fmap iter_of_list iter_enumerate iter_filter snd
         is_True iter_map fst zip_supply write_all py_setitem_with
         builtin_setitem as_index write_where].
    rewrite seq_position_nat by (rewrite length_app; simpl; lia).
    rewrite insert_app_r_alt by lia. rewrite Nat.sub_diag. cbn [insert list_insert].
    specialize (IH (pre ++ [c]) xs Hlen).
    rewrite length_app, Nat.add_1_r in IH. rewrite <- app_assoc in IH.
    rewrite <- app_assoc in IH. exact IH.
  - cbn [bools fmap list_fmap iter_of_list iter_enumerate iter_filter snd
         is_True write_where].
    specialize (IH (pre ++ [x]) xs Hlen).
    rewrite length_app, Nat.add_1_r in IH. rewrite <- !app_assoc in IH.
    exact IH.
Qed.

(** X22: [E[mask] = c] for a container over a list, a list of as many booleans
    as it has members and a scalar [c] overwrites the members marked [True]
    with [c] and keeps the others. *)
Theorem mask_write_overwrites_the_members_marked_true
    (fuel : nat) (xs : list value) (nested : nesting) (bs : list bool)
    (c : value) :
  length bs = length xs → is_scalar c →
  EachContainer_setitem (S fuel) (VEach KSeq (VList xs) nested)
    (VList (bools bs)) c
  = (VEach KSeq (VList (write_where bs c xs)) nested, Ok ()).
Proof.
  intros Hlen Hc. rewrite EachContainer_setitem_S. unfold setitem_body.
  assert (target_keys fuel KSeq (VList xs) (VList (bools bs)) c
          = Ok (Some (iter_map (λ ib : nat * value, Ok (VInt (Z.of_nat ib.1)))
                        (iter_filter (λ ib, Ok (is_True ib.2))
                           (iter_enumerate 0 (iter_of_list (bools bs))))))) as ->.
  { unfold target_keys.
    cbn [is_mapping is_iterable is_str andb negb py_len bind].
    assert (length (bools bs) = length xs) as Hb
      by (unfold bools; by rewrite length_fmap).
    rewrite (bool_decide_eq_true_2 _ Hb).
    change (py_iter fuel (VList (bools bs))) with (iter_of_list (bools bs)).
    by rewrite iter_all_bools. }
  assert (repeat_if_singular fuel c = SRepeat c) as ->.
  { unfold repeat_if_singular. by destruct Hc as [->| ->]; rewrite ?orb_true_r. }
  by rewrite (write_all_where _ c bs [] xs).
Qed.

Lemma mask_write_overwrites_the_members_marked_true_witness :
  EachContainer_setitem 1 (seq_each (ints [1; -2; 3]))
    (VList (bools [false; true; false])) (VInt 0)
  = (seq_each (ints [1; 0; 3]), Ok ()).
Proof.
  apply (mask_write_overwrites_the_members_marked_true 0 (ints [1; -2; 3])
           (NNum 1) [false; true; false] (VInt 0));
    [reflexivity | left; reflexivity].
Defined.

(** ** A single new value *)

Lemma zip_supply_single keys v :
  zip_supply keys (SCons v (SRepeat v)) = zip_supply keys (SRepeat v).
Proof. by destruct keys. Qed.

(** X23: assigning a list that holds one scalar to a list of indices or keys
    writes the scalar at every index, as assigning the scalar itself does:
    [E[L] = [v]] and [E[L] = v] have the same effect and the same outcome. *)
Theorem one_member_value_is_written_like_its_member
    (fuel : nat) (E : value) (L : list value) (v : value) :
  is_scalar v →
  EachContainer_setitem (S fuel) E (VList L) (VList [v])
  = EachContainer_setitem (S fuel) E (VList L) v.
Proof.
  intros Hv. rewrite !EachContainer_setitem_S. unfold setitem_body.
  destruct E as [| | | | | | | | |k whole nested]; try done.
  assert (repeat_if_singular fuel v = SRepeat v) as ->.
  { unfold repeat_if_singular. by destruct Hv as [->| ->]; rewrite ?orb_true_r. }
  assert (repeat_if_singular fuel (VList [v]) = SCons v (SRepeat v)) as ->
    by done.
  unfold target_keys.
  cbn [is_mapping is_iterable is_str andb negb py_len bind].
  destruct (py_len whole) as [n|e]; [|done]. cbn [bind].
  destruct (if bool_decide (length L = n)
            then iter_all is_bool_literal (py_iter fuel (VList L))
            else Ok false) as [[]|e]; cbn [bind]; [| |done];
    by rewrite zip_supply_single.
Qed.

Lemma one_member_value_is_written_like_its_member_witness :
  EachContainer_setitem 1 (seq_each (ints [1; 2; 3]))
    (VList (ints [0; 2])) (VList [VInt 9])
  = EachContainer_setitem 1 (seq_each (ints [1; 2; 3]))
      (VList (ints [0; 2])) (VInt 9).
Proof.
  apply (one_member_value_is_written_like_its_member 0
           (seq_each (ints [1; 2; 3])) (ints [0; 2]) (VInt 9)).
  left; reflexivity.
Defined.

(** ** A scalar assigned to a slice *)

(** X24: assigning a scalar to a slice of a positional container always raises
    and changes nothing: [TypeError] when the bounds of the slice are valid
    (the indices of the slice are handed to [range] as one tuple), and
    otherwise the error of the slice. *)
Theorem scalar_assigned_to_a_slice_raises
    (fuel : nat) (whole : value) (nested : nesting)
    (start stop step c : value) :
  is_scalar c →
  EachContainer_setitem (S fuel) (VEach KSeq whole nested)
    (VSlice start stop step) c
  = (VEach KSeq whole nested,
     Err match (n <- py_len whole;; slice_positions n start stop step) with
         | Ok _ => TypeError
         | Err e => e
         end).
Proof.
  intros Hc. rewrite EachContainer_setitem_S. unfold setitem_body, target_keys.
  cbn [is_mapping is_iterable is_str andb].
  assert (is_str c || negb (is_iterable c) = true) as ->.
  { destruct Hc as [->| ->]; [by rewrite orb_true_r|done]. }
  destruct (py_len whole) as [n|e]; [|done]. cbn [bind].
  by destruct (slice_positions n start stop step).
Qed.

Lemma scalar_assigned_to_a_slice_raises_witness :
  EachContainer_setitem 1 (seq_each (ints [1; 2; 3]))
    (VSlice (VInt 0) (VInt 2) VNone) (VInt 0)
  = (seq_each (ints [1; 2; 3]), Err TypeError).
Proof.
  apply (scalar_assigned_to_a_slice_raises 0 (VList (ints [1; 2; 3])) (NNum 1)
           (VInt 0) (VInt 2) VNone (VInt 0)).
  left; reflexivity.
Defined.

(** ** Writing, then reading, one member *)

Lemma assoc_find_set kvs key v :
  scalar_key key = true → assoc_find (assoc_set kvs key v) key = Some v.
Proof.
  intros Hkey. induction kvs as [|[k x] kvs IH]; simpl.
  - by rewrite key_eqb_scalar_refl.
  - destruct (key_eqb k key) eqn:Hk; simpl; by rewrite Hk.
Qed.

Lemma seq_position_bound n z i : seq_position n z = Some i → (i < n)%nat.
Proof.
  unfold seq_position. intros H.
  destruct (_ && _) eqn:Hb; [|done]. injection H as <-.
  apply andb_true_iff in Hb as [H1%Z.leb_le H2%Z.ltb_lt]. lia.
Qed.

Lemma builtin_round_trip whole key v whole' :
  scalar_key key = true →
  builtin_setitem whole key v = Ok whole' →
  builtin_getitem whole' key = Ok v.
Proof.
  intros Hkey. destruct whole as [| | | | | |xs| |kvs|]; try done.
  - unfold builtin_setitem, builtin_getitem.
    assert (is_slice key = false) as Hs by (by destruct key).
    destruct (as_index key) as [z|] eqn:Hz; [|by destruct key].
    assert (match key with
            | VSlice _ _ _ => Err NotModelled
            | _ => match seq_position (length xs) z with
                   | Some i => Ok (VList (<[i:=v]> xs))
                   | None => Err IndexError
                   end
            end
            = match seq_position (length xs) z with
              | Some i => Ok (VList (<[i:=v]> xs))
              | None => Err IndexError
              end) as -> by (by destruct key).
    destruct (seq_position (length xs) z) as [i|] eqn:Hi; [|done].
    intros [= <-].
    assert (seq_index (<[i:=v]> xs) key = Ok v) as Hget.
    { unfold seq_index. rewrite Hz, length_insert, Hi.
      rewrite list_lookup_insert_eq; [done|by eapply seq_position_bound]. }
    destruct key; try done; simpl; by rewrite Hget.
  - simpl. unfold dict_set, dict_get.
    assert (py_hashing key = HashValue) as -> by (by destruct key).
    intros [= <-]. simpl. assert (is_slice key = false) as Hs by (by destruct key).
    unfold dict_get.
    assert (py_hashing key = HashValue) as -> by (by destruct key).
    by rewrite assoc_find_set.
Qed.

(** X25: after [E[key] = v] has succeeded for a scalar key, [E[key]] is [v],
    for a container over a list or a dict. *)
Theorem written_member_is_read_back
    (fuel : nat) (k : variant) (whole : value) (nested : nesting)
    (key v E' : value) :
  scalar_key key = true → is_each whole = false →
  EachContainer_setitem (S fuel) (VEach k whole nested) key v = (E', Ok ()) →
  EachContainer_getitem (S fuel) E' key = Ok v.
Proof.
  intros Hkey Hw. rewrite EachContainer_setitem_S. unfold setitem_body.
  assert (target_keys fuel k whole key v = Ok None) as ->
    by (by destruct key, k).
  assert (py_setitem_with (EachContainer_setitem fuel) whole key v
          = match builtin_setitem whole key v with
            | Ok coll' => (coll', Ok ())
            | Err e => (whole, Err e)
            end) as -> by (by destruct whole).
  destruct (builtin_setitem whole key v) as [whole'|e] eqn:Hset;
    [|by destruct key].
  assert (is_each whole' = false) as Hw'.
  { destruct whole; try done; simpl in Hset.
    - destruct key; try done; simpl in Hset;
        destruct (seq_position _ _); by simplify_eq.
    - destruct (dict_set _ _ _); simpl in Hset; by simplify_eq. }
  assert ((VEach k whole' nested, Ok ()) = (E', Ok ()) →
          EachContainer_getitem (S fuel) E' key = Ok v) as Hgoal.
  { intros [= <-]. unfold EachContainer_getitem.
    rewrite EachContainer_getitem_ret_S, getitem_body_scalar by done.
    assert (py_getitem_with
              (λ obj key0, returned_value obj
                             <$> EachContainer_getitem_ret fuel obj key0)
              whole' key = builtin_getitem whole' key) as ->
      by (by destruct whole').
    by rewrite (builtin_round_trip whole key v whole'). }
  by destruct key.
Qed.

Lemma written_member_is_read_back_witness :
  EachContainer_getitem 1
    (map_each [(VStr "a", VInt 1); (VStr "b", VInt 5)]) (VStr "b")
  = Ok (VInt 5).
Proof.
  apply (written_member_is_read_back 0 KMap
           (VDict [(VStr "a", VInt 1); (VStr "b", VInt 2)]) (NNum 1)
           (VStr "b") (VInt 5));
    reflexivity.
Defined.

(** ** [broadcast_to_length] *)

Lemma builtin_iter_has_len fuel v n :
  is_each v = false → py_len v = Ok n →
  ∃ l, py_iter fuel v = iter_of_list l ∧ length l = n.
Proof.
  intros He Hn. destruct v; try done; simpl in Hn; injection Hn as <-.
  - eexists. split; [reflexivity|]. unfold chars.
    rewrite length_fmap. induction s as [|a s IH]; simpl; [done|]. by rewrite IH.
  - by eexists.
  - by eexists.
  - by eexists.
  - eexists. split; [reflexivity|]. by rewrite length_fmap.
Qed.

(** X26: [broadcast_to_length(source, n)] on a source that is not an
    each-container raises [TypeError] when the source has length one and n
    is not 1, where [next] is called on the source itself, which is not an
    iterator; in every other case it returns an iterator of exactly n
    items. *)
Theorem broadcast_to_length_yields_n_items_or_raises
    (fuel : nat) (source : value) (n : nat) :
  is_each source = false →
  (py_len source = Ok 1%nat → n ≠ 1%nat →
   broadcast_to_length fuel source n = Err TypeError)
  ∧ (py_len source ≠ Ok 1%nat ∨ n = 1%nat →
     ∃ it l, broadcast_to_length fuel source n = Ok it
           ∧ iter_to_list it = Ok l ∧ length l = n).
Proof.
  intros He. unfold broadcast_to_length. split.
  - intros Hl Hn. rewrite Hl.
    rewrite bool_decide_eq_false_2 by congruence.
    by rewrite bool_decide_eq_true_2.
  - intros Hcase. destruct (py_len source) as [l|e] eqn:Hl.
    + case_bool_decide as H1.
      * injection H1 as ->.
        destruct (builtin_iter_has_len fuel source n He Hl) as (xs & -> & Hxs).
        exists (iter_of_list xs), xs. by rewrite iter_to_list_of_list.
      * case_bool_decide as H2.
        { injection H2 as ->. destruct Hcase as [Hc | ->]; done. }
        exists (iter_of_list (replicate n source)), (replicate n source).
        by rewrite iter_to_list_of_list, length_replicate.
    + rewrite !bool_decide_eq_false_2 by done.
      exists (iter_of_list (replicate n source)), (replicate n source).
      by rewrite iter_to_list_of_list, length_replicate.
Qed.

Lemma broadcast_to_length_yields_n_items_or_raises_witness :
  broadcast_to_length 0 (VList [VInt 5]) 3 = Err TypeError
  ∧ ∃ it l, broadcast_to_length 0 (VList (ints [1; 2])) 3 = Ok it
          ∧ iter_to_list it = Ok l ∧ length l = 3%nat.
Proof.
  split.
  - apply (proj1 (broadcast_to_length_yields_n_items_or_raises 0
                    (VList [VInt 5]) 3 eq_refl)); [reflexivity | lia].
  - apply (proj2 (broadcast_to_length_yields_n_items_or_raises 0
                    (VList (ints [1; 2])) 3 eq_refl)).
    left. discriminate.
Defined.

(** ** [broadcast_together] *)

Lemma broadcast_together_spec fuel sources match_first :
  sources ≠ [] →
  broadcast_together fuel sources match_first
  = (B <- BroadcastHandler_init fuel sources match_first;; B_iter fuel B).
Proof.
  intros Hne. unfold broadcast_together, BroadcastHandler_init, B_iter.
  destruct sources as [|s sources]; [done|].
  destruct (map_result (as_sized_iterable fuel) (s :: sources)) as [[|first l]|e];
    try done.
  cbn [bind].
  destruct (if match_first then Ok first
            else first_not_broadcastable (first :: l) first) as [model|e];
    [|done].
  cbn [bind]. destruct (py_len model) as [n|e]; [|done]. cbn [bind].
  destruct (if is_mapping model then all_broadcast_or_mapping (first :: l)
            else Ok false) as [keyed|e]; [|done].
  cbn [bind].
  by destruct (if keyed then IKeys <$> py_keys_method model else Ok (IRange n)).
Qed.

(** ** Matching the first source *)

Lemma list_source_is_iterated f xs :
  broadcast_to_indices f (VList xs) (length xs) (IRange (length xs))
  = Ok (iter_of_list xs).
Proof.
  unfold broadcast_to_indices. cbn [is_mapping py_len bind].
  destruct (length xs =? 1)%nat eqn:H1.
  - by destruct xs as [|x [|? ?]].
  - by rewrite Nat.ltb_irrefl.
Qed.

(** X27: [with_matched_version_of] on two lists yields one pair per member of
    the first: a one-member second list is repeated, a longer second list is
    cut to the length of the first, and a shorter one raises [ValueError]. *)
Theorem with_matched_version_of_follows_the_first_list
    (fuel : nat) (xs ys : list value) :
  with_matched_version_of fuel [VList xs; VList ys]
  = match ys with
    | [y] => Ok (iter_of_list (rows_of xs (replicate (length xs) y)))
    | _ => if (length ys <? length xs)%nat then Err ValueError
           else Ok (iter_of_list (rows_of xs ys))
    end.
Proof.
  unfold with_matched_version_of.
  rewrite broadcast_together_spec by done.
  rewrite (handler_of_two_sources fuel true (VList xs) (VList ys)
             (VList xs) (VList ys) (length xs) (length ys)); try done.
  cbn [is_mapping andb bind]. rewrite B_iter_of_two, list_source_is_iterated.
  cbn [in_generator bind]. unfold broadcast_to_indices.
  cbn [is_mapping py_len bind is_each is_iterable].
  destruct ys as [|y [|y' ys]].
  - cbn [length Nat.eqb]. destruct xs as [|x xs]; [done|]. done.
  - cbn [length Nat.eqb]. unfold py_iter. cbn [py_iter_with builtin_iter
      iter_of_list py_next bind in_generator].
    by rewrite zip_from_lists.
  - cbn [length Nat.eqb].
    destruct (S (S (length ys)) <? length xs)%nat eqn:Hlt; [done|].
    cbn [in_generator bind].
    change (py_iter fuel (VList (y :: y' :: ys)))
      with (iter_of_list (y :: y' :: ys)).
    by rewrite zip_from_lists.
Qed.

(** ** The membership tests with one item *)

Lemma each_membership_one py_in f dual self x :
  each_membership py_in (S f) dual self [x]
  = (B <- BroadcastHandler_init f
            [self; if is_iterable x && negb (is_str x) then x else VTuple [x]]
            false;;
     rows <- B_iter f B;;
     B_call B (iter_map (member_test py_in f dual) rows)).
Proof. done. Qed.

(** X28: [E.contains(c)] for a flat positional container and one scalar tests
    [c in m] for every member [m], and [E.is_in(c)] tests [m in c]; each
    returns a positional container of the results. *)
Theorem membership_with_one_scalar_tests_every_member
    (py_in : value → value → result value) (fuel : nat)
    (whole : value) (nested : nesting) (xs : list value) (c : value) :
  plain_items whole = Some xs → nested_deeper nested = false →
  Forall not_each xs → is_scalar c →
  contains py_in (S (S fuel)) (VEach KSeq whole nested) [c]
  = (zs <- map_result (λ m, py_in c m) xs;; Ok (seq_each zs))
  ∧ is_in py_in (S (S fuel)) (VEach KSeq whole nested) [c]
    = (zs <- map_result (λ m, py_in m c) xs;; Ok (seq_each zs)).
Proof.
  intros Hxs Hflat Fxs Hc.
  destruct (scalar_is_wrapped (S fuel) c Hc) as [_ Hce].
  assert ((if is_iterable c && negb (is_str c) then c else VTuple [c])
          = VTuple [c]) as Harg.
  { by destruct Hc as [->| ->]; rewrite ?andb_false_r. }
  unfold contains, is_in. rewrite !each_membership_one, Harg.
  unfold member_test.
  rewrite !(alignment_with_singleton fuel whole nested xs (VTuple [c]) c);
    [|by apply plain_items_len|by apply flat_container_is_iterated|done
     |by apply plain_items_len|by apply flat_container_is_iterated|done].
  split.
  - rewrite (map_result_ext_Forall _ (λ m, py_in c m) not_each xs); [done| |done].
    intros m Hm. unfold not_each in Hm. cbv beta. by rewrite Hm, Hce.
  - rewrite (map_result_ext_Forall _ (λ m, py_in m c) not_each xs); [done| |done].
    intros m Hm. unfold not_each in Hm. cbv beta. by rewrite Hm, Hce.
Qed.

Lemma membership_with_one_scalar_tests_every_member_witness :
  contains py_contains 2 (seq_each [VStr "abc"; VStr "xyz"]) [VStr "a"]
  = (zs <- map_result (λ m, py_contains (VStr "a") m) [VStr "abc"; VStr "xyz"];;
     Ok (seq_each zs))
  ∧ is_in py_contains 2 (seq_each [VStr "abc"; VStr "xyz"]) [VStr "a"]
    = (zs <- map_result (λ m, py_contains m (VStr "a")) [VStr "abc"; VStr "xyz"];;
       Ok (seq_each zs)).
Proof.
  apply (membership_with_one_scalar_tests_every_member py_contains 0
           (VList [VStr "abc"; VStr "xyz"]) (NNum 1)
           [VStr "abc"; VStr "xyz"] (VStr "a"));
    first [reflexivity | by repeat constructor | right; reflexivity].
Defined.

(** ** Wrapping a container again *)

(** X29: wrapping a container with numeric nesting j again with a nesting i <=
    j returns a container over the same collection with nesting j: the nesting
    of a container is never lowered, and with [nested=None] the container is
    returned as it was. *)
Theorem rewrapping_does_not_lower_the_nesting
    (k : variant) (whole : value) (i j : Z) (a : nested_arg) (enlist : bool) :
  is_sized whole = true → is_each whole = false →
  normalise_nested a = NNum i → i ≤ j →
  each [VEach k whole (NNum j)] a enlist
  = Ok (VEach (kind_of whole) whole (NNum j)).
Proof.
  intros Hs He Ha Hij. unfold each, kind_of. rewrite Ha.
  cbn [is_str is_iterable nesting_max bind].
  assert ((if i <? j then NNum j else NNum i) = NNum j) as ->.
  { destruct (i <? j) eqn:Hlt; [done|]. apply Z.ltb_ge in Hlt.
    f_equal. lia. }
  unfold EachContainer_init. rewrite Hs. cbn [negb].
  by destruct (is_mapping whole).
Qed.

Lemma rewrapping_does_not_lower_the_nesting_witness :
  each [VEach KSeq (VList [VList (ints [1; 2]); VList (ints [3])]) (NNum 2)]
    (Arg (NNum 1)) true
  = Ok (VEach KSeq (VList [VList (ints [1; 2]); VList (ints [3])]) (NNum 2)).
Proof.
  apply (rewrapping_does_not_lower_the_nesting KSeq
           (VList [VList (ints [1; 2]); VList (ints [3])]) 1 2 (Arg (NNum 1)) true);
    first [reflexivity | lia].
Defined.

(** X30: wrapping a container again with the default nesting returns a
    container over the same collection with the nesting [next], and wrapping
    that container once more with any other nesting raises [TypeError], the
    maximum of a number and [next] being undefined. *)
Theorem default_rewrapping_blocks_a_later_nesting
    (k : variant) (whole : value) (n0 : nesting) (a : nested_arg)
    (enlist enlist' : bool) :
  is_sized whole = true → is_each whole = false →
  normalise_nested a ≠ NNext →
  each [VEach k whole n0] (Arg NNext) enlist
  = Ok (VEach (kind_of whole) whole NNext)
  ∧ each [VEach (kind_of whole) whole NNext] a enlist' = Err TypeError.
Proof.
  intros Hs He Ha. split.
  - unfold each, kind_of.
    cbn [normalise_nested is_str is_iterable bind].
    unfold EachContainer_init. rewrite Hs. cbn [negb].
    by destruct (is_mapping whole).
  - unfold each. cbn [is_str is_iterable].
    by destruct (normalise_nested a).
Qed.

Lemma default_rewrapping_blocks_a_later_nesting_witness :
  each [seq_each (ints [1; 2])] (Arg NNext) true
  = Ok (VEach KSeq (VList (ints [1; 2])) NNext)
  ∧ each [VEach KSeq (VList (ints [1; 2])) NNext] (Arg (NNum 2)) true
    = Err TypeError.
Proof.
  apply (default_rewrapping_blocks_a_later_nesting KSeq (VList (ints [1; 2]))
           (NNum 1) (Arg (NNum 2)) true true);
    first [reflexivity | discriminate].
Defined.
